(** * Subscriber retention scripts: a shallow embedding and its properties

    The repository is a set of pandas scripts.  A DataFrame is modelled as
    the list of its rows in index order, a row as a record, a missing cell
    (NaN / NaT / None) as [None].  Dates carry no time of day: a
    [Timestamp] is its calendar fields, compared field by field as Python's
    datetime does.  Revenues and rates are exact rationals.

    The file has the definitions first (one module per script, after a
    module for the pandas and datetime operations the scripts call) and the
    theorems after them. *)

From Stdlib Require Import ZArith List Bool Lia QArith Qround Lqa String Ascii.
From Stdlib Require Import Permutation Sorted.
Import ListNotations.
Open Scope Z_scope.

(* ================================================================== *)
(** ** Exceptions and the result of a fallible function *)

Inductive Exc : Type :=
| KeyError        (* a column looked up on a frame that has no columns *)
| NaTError        (* a calendar field asked of a missing date *)
| FuelExhausted.  (* the bound given to a [while] loop was too small *)

Inductive Res (A : Type) : Type :=
| Ok  : A -> Res A
| Err : Exc -> Res A.
Arguments Ok {A} _.
Arguments Err {A} _.

Definition bind {A B} (m : Res A) (k : A -> Res B) : Res B :=
  match m with
  | Ok a => k a
  | Err e => Err e
  end.

Notation "x <- m ;; k" := (bind m (fun x => k))
  (at level 61, m at next level, right associativity).

(* ================================================================== *)
(** ** The pandas and datetime operations used by the scripts *)

Module Pandas.

(** *** Timestamps *)

Record Timestamp : Type := mkTs { year : Z; month : Z; day : Z }.

(** [a < b], [a <= b] on timestamps: lexicographic on (year, month, day). *)
Definition ts_ltb (a b : Timestamp) : bool :=
  (year a <? year b)
  || ((year a =? year b)
      && ((month a <? month b)
          || ((month a =? month b) && (day a <? day b)))).

Definition ts_leb (a b : Timestamp) : bool := negb (ts_ltb b a).

Definition _is_leap (y : Z) : bool :=
  (y mod 4 =? 0) && (negb (y mod 100 =? 0) || (y mod 400 =? 0)).

Definition _days_in_month (y m : Z) : Z :=
  match m with
  | 1 => 31 | 2 => if _is_leap y then 29 else 28 | 3 => 31 | 4 => 30
  | 5 => 31 | 6 => 30 | 7 => 31 | 8 => 31 | 9 => 30 | 10 => 31
  | 11 => 30 | 12 => 31
  | _ => 0
  end.

(** A timestamp that names a real calendar day. *)
Definition valid_ts (t : Timestamp) : Prop :=
  1 <= month t <= 12 /\ 1 <= day t <= _days_in_month (year t) (month t).

Definition valid_tsb (t : Timestamp) : bool :=
  (1 <=? month t) && (month t <=? 12) && (1 <=? day t)
  && (day t <=? _days_in_month (year t) (month t)).

Definition _days_before_year (y : Z) : Z :=
  let y' := y - 1 in y' * 365 + y' / 4 - y' / 100 + y' / 400.

Definition _days_before_month (y m : Z) : Z :=
  match m with
  | 1 => 0 | 2 => 31 | 3 => 59 | 4 => 90 | 5 => 120 | 6 => 151
  | 7 => 181 | 8 => 212 | 9 => 243 | 10 => 273 | 11 => 304 | 12 => 334
  | _ => 0
  end + (if (2 <? m) && _is_leap y then 1 else 0).

(** [date.toordinal()]: the day number in the proleptic Gregorian
    calendar. *)
Definition toordinal (t : Timestamp) : Z :=
  _days_before_year (year t) + _days_before_month (year t) (month t) + day t.

(** [(a - b).days] *)
Definition days_between (a b : Timestamp) : Z := toordinal a - toordinal b.

Definition next_day (t : Timestamp) : Timestamp :=
  if day t <? _days_in_month (year t) (month t)
  then mkTs (year t) (month t) (day t + 1)
  else if month t <? 12
       then mkTs (year t) (month t + 1) 1
       else mkTs (year t + 1) 1 1.

(** [t + pd.Timedelta(days=n)] *)
Fixpoint add_days (t : Timestamp) (n : nat) : Timestamp :=
  match n with
  | O => t
  | S k => add_days (next_day t) k
  end.

(** [t.replace(day=1)], also [t.to_period('M').to_timestamp()]. *)
Definition month_start (t : Timestamp) : Timestamp :=
  mkTs (year t) (month t) 1.

(** The loop step of the scripts and of [freq='MS']: the first day of
    the following month. *)
Definition next_month (t : Timestamp) : Timestamp :=
  if month t =? 12
  then mkTs (year t + 1) 1 (day t)
  else mkTs (year t) (month t + 1) (day t).

(** Number of calendar months from [a]'s month to [b]'s month. *)
Definition months_from (a b : Timestamp) : Z :=
  (year b - year a) * 12 + (month b - month a).

(** [t.strftime('%m/%Y')], kept as the pair (month, year) that the text
    spells: on the four-digit years a Timestamp can hold the text and the
    pair determine each other, and texts compare as the pairs do. *)
Definition Mois : Type := (Z * Z)%type.

Definition strftime_mY (t : Timestamp) : Mois := (month t, year t).

Definition mois_eqb (a b : Mois) : bool :=
  (fst a =? fst b) && (snd a =? snd b).

Definition mois_leb (a b : Mois) : bool :=
  (fst a <? fst b) || ((fst a =? fst b) && (snd a <=? snd b)).

(** *** Series *)

Section Series.
Context {A K : Type}.
Variable key_eqb : K -> K -> bool.

Definition isin (k : K) (seen : list K) : bool :=
  existsb (key_eqb k) seen.

(** Rows whose key was not met before, in their order: the worker of
    [unique] and of [drop_duplicates(keep='first')]. *)
Fixpoint first_seen (key : A -> K) (seen : list K) (l : list A) : list A :=
  match l with
  | [] => []
  | x :: t =>
      if isin (key x) seen
      then first_seen key seen t
      else x :: first_seen key (key x :: seen) t
  end.

(** [df.drop_duplicates(subset=key)] *)
Definition drop_duplicates (key : A -> K) (l : list A) : list A :=
  first_seen key [] l.
End Series.

(** [s.unique()]: the distinct values in order of first appearance. *)
Definition unique {K} (key_eqb : K -> K -> bool) (l : list K) : list K :=
  drop_duplicates key_eqb (fun k => k) l.

(** [s.nunique()] on a column without missing values. *)
Definition nunique {K} (key_eqb : K -> K -> bool) (l : list K) : Z :=
  Z.of_nat (List.length (unique key_eqb l)).

(** [s.dropna()] *)
Fixpoint dropna {A} (l : list (option A)) : list A :=
  match l with
  | [] => []
  | Some a :: t => a :: dropna t
  | None :: t => dropna t
  end.

(** A stable sort ([sorted], [sort_values]). *)
Section Sort.
Context {A : Type}.
Variable leb : A -> A -> bool.

Fixpoint insert_sorted (x : A) (l : list A) : list A :=
  match l with
  | [] => [x]
  | y :: t => if leb x y then x :: l else y :: insert_sorted x t
  end.

Fixpoint sort_values (l : list A) : list A :=
  match l with
  | [] => []
  | x :: t => insert_sorted x (sort_values t)
  end.
End Sort.

(** *** Strings *)

Definition lower_ascii (c : ascii) : ascii :=
  let n := nat_of_ascii c in
  if (65 <=? n)%nat && (n <=? 90)%nat then ascii_of_nat (n + 32) else c.

(** [s.lower()], on ASCII letters. *)
Fixpoint lower (s : string) : string :=
  match s with
  | EmptyString => EmptyString
  | String c t => String (lower_ascii c) (lower t)
  end.

(** [pat in s] *)
Fixpoint contains (pat s : string) : bool :=
  String.prefix pat s
  || match s with
     | EmptyString => false
     | String _ t => contains pat t
     end.

(** [frequence.str.lower().str.contains(pat, na=False)] on one cell. *)
Definition str_lower_contains (pat : string) (cell : option string) : bool :=
  match cell with
  | Some s => contains pat (lower s)
  | None => false
  end.

(** [str(cell).lower()] as the row loops compute it: a missing cell
    prints as "nan". *)
Definition str_of_cell (cell : option string) : string :=
  match cell with
  | Some s => s
  | None => "nan"%string
  end.

(** *** Numbers *)

(** Python's [round(x)] at an exact rational: to the nearest integer,
    ties to the even one. *)
Definition round_half_even (x : Q) : Z :=
  let f := Qfloor x in
  match Qcompare (x - inject_Z f) (1 # 2) with
  | Lt => f
  | Gt => f + 1
  | Eq => if Z.even f then f else f + 1
  end.

(** [round(x, 2)] at an exact rational.  The scripts compute the rate in
    doubles before they round it, so the two can differ in the last digit
    when the exact rate lies on a tie: [(23 / 160) * 100] is
    14.374999999999998 in the script and rounds to 14.37, where the exact
    14.375 rounds to 14.38.  Away from ties they agree. *)
Definition round2 (x : Q) : Q :=
  (inject_Z (round_half_even (x * 100)) / 100)%Q.

(** [round(x, 1)] at an exact rational, with the same gap to the doubles
    of the script on a tie: [(23 / 80) * 100] is 28.749999999999996 there
    and rounds to 28.7, where the exact 28.75 rounds to 28.8. *)
Definition round1 (x : Q) : Q :=
  (inject_Z (round_half_even (x * 10)) / 10)%Q.

(** [min(a, b)] *)
Definition Qmin (a b : Q) : Q := if Qle_bool a b then a else b.

(** A cell of a revenue column as [float(str(cell).replace(',', '.'))]
    sees it: a number, NaN, or a text that [float] rejects with a
    ValueError. *)
Inductive Cell : Type :=
| Number (q : Q)
| NaN
| Text (s : string).

(** A float that may be NaN. *)
Definition Float : Type := option Q.

Definition float_div (x : Float) (d : Q) : Float :=
  match x with
  | Some q => Some (q / d)%Q
  | None => None
  end.

(** *** Ranges of month starts *)

(** [n] consecutive month starts from [t]. *)
Fixpoint iter_months (t : Timestamp) (n : nat) : list Timestamp :=
  match n with
  | O => []
  | S k => t :: iter_months (next_month t) k
  end.

(** [pd.date_range(start, end, freq='MS')]: the first days of month
    lying in [start, end]. *)
Definition date_range_MS (start end_ : Timestamp) : list Timestamp :=
  let first := if day start =? 1 then start
               else next_month (month_start start) in
  iter_months first (Z.to_nat (months_from first end_ + 1)).

(** *** Grouped columns *)

Fixpoint assoc {V} (k : Z) (l : list (Z * V)) : option V :=
  match l with
  | [] => None
  | (k', v) :: t => if k' =? k then Some v else assoc k t
  end.

(** [df.groupby(key)[col].shift(1)]: for each row the cell of the row
    before it in its group, missing for the first row of a group.
    [last] holds, per group, the cell of its latest row so far. *)
Fixpoint shift_in_groups {V} (last : list (Z * option V))
    (rows : list (Z * option V)) : list (option V) :=
  match rows with
  | [] => []
  | (k, v) :: t =>
      match assoc k last with
      | Some prev => prev
      | None => None
      end :: shift_in_groups ((k, v) :: last) t
  end.

Definition groupby_shift {V} (rows : list (Z * option V))
    : list (option V) :=
  shift_in_groups [] rows.

(** [s.cumsum()] of a boolean column. *)
Fixpoint cumsum_from (acc : Z) (flags : list bool) : list Z :=
  match flags with
  | [] => []
  | b :: t =>
      let acc' := if b then acc + 1 else acc in
      acc' :: cumsum_from acc' t
  end.

Definition cumsum (flags : list bool) : list Z := cumsum_from 0 flags.

(** [df.groupby(key)[col].cumsum()] of a boolean column. *)
Fixpoint cumsum_in_groups (acc : list (Z * Z)) (rows : list (Z * bool))
    : list Z :=
  match rows with
  | [] => []
  | (k, b) :: t =>
      let before := match assoc k acc with Some n => n | None => 0 end in
      let now := if b then before + 1 else before in
      now :: cumsum_in_groups ((k, now) :: acc) t
  end.

Definition groupby_cumsum (rows : list (Z * bool)) : list Z :=
  cumsum_in_groups [] rows.

(** [(a - b).dt.days]: missing when either date is. *)
Definition dt_days (a b : option Timestamp) : option Z :=
  match a, b with
  | Some x, Some y => Some (days_between x y)
  | _, _ => None
  end.

(** Order of [sort_values] on a date column: missing dates last. *)
Definition nat_last_leb (a b : option Timestamp) : bool :=
  match a, b with
  | Some x, Some y => ts_leb x y
  | Some _, None => true
  | None, Some _ => false
  | None, None => true
  end.


(** *** Aggregations *)

(** [s.sum()] of a column of integers. *)
Definition series_sum (l : list Z) : Z := fold_right Z.add 0 l.

(** [s.mean()]: NaN on an empty column. *)
Definition series_mean (l : list Q) : Float :=
  match l with
  | [] => None
  | _ => Some (fold_right Qplus 0 l / inject_Z (Z.of_nat (List.length l)))%Q
  end.

(** [s.max()] of a column of integers; [None] on an empty column. *)
Definition series_max (l : list Z) : option Z :=
  match l with
  | [] => None
  | x :: t => Some (fold_left Z.max t x)
  end.

(** [range(n)] *)
Definition range (n : nat) : list Z := map Z.of_nat (seq 0 n).

End Pandas.

(* ================================================================== *)
(** ** Claude_retention_analysis.py: the main analysis script *)

Module Claude_retention_analysis.
Import Pandas.

(** A row of the frame returned by [load_and_clean_data]: its
    [dropna(subset=['order_date', 'echeance_date', 'customer_id'])]
    leaves no row without a customer or a date. *)
Record Transaction : Type := mkTransaction {
  customer_id : Z;
  subscription_id : option Z;
  order_date : Timestamp;
  echeance_date : Timestamp;
  frequence : option string;
  type_ : option string;
  payment_origin : option string;
  psp : option string;
  tm_source : option string;
  tm_medium : option string;
  tm_campaign : option string;
  consolidated_revenues_ht_euro : option Q
}.

(** A row of [monthly_df]. *)
Record MonthlyRow : Type := mkMonthlyRow {
  m_customer_id : Z;
  m_subscription_id : option Z;
  mois : Mois;
  mois_relatif : Z;
  date_debut_parcours : Mois;
  m_frequence : option string;
  m_type : option string;
  m_payment_origin : option string;
  m_psp : option string;
  m_tm_source : option string;
  m_tm_medium : option string;
  m_tm_campaign : option string;
  m_consolidated_revenues_ht_euro : option Q
}.

(** [s.min()] of a column of dates; [None] on an empty column. *)
Definition series_min (l : list Timestamp) : option Timestamp :=
  match l with
  | [] => None
  | d :: t => Some (fold_left (fun acc x => if ts_ltb x acc then x else acc) t d)
  end.

(** The dictionary appended for one covered month. *)
Definition monthly_entry (cid : Z) (journey_start_month : Timestamp)
    (transaction : Transaction) (current_month : Timestamp) : MonthlyRow :=
  let months_diff :=
    (year current_month - year journey_start_month) * 12
    + (month current_month - month journey_start_month) in
  {| m_customer_id := cid;
     m_subscription_id := subscription_id transaction;
     mois := strftime_mY current_month;
     mois_relatif := months_diff;
     date_debut_parcours := strftime_mY journey_start_month;
     m_frequence := frequence transaction;
     m_type := type_ transaction;
     m_payment_origin := payment_origin transaction;
     m_psp := psp transaction;
     m_tm_source := tm_source transaction;
     m_tm_medium := tm_medium transaction;
     m_tm_campaign := tm_campaign transaction;
     m_consolidated_revenues_ht_euro :=
       consolidated_revenues_ht_euro transaction |}.

(** [while current_month <= end_month: ...] *)
Fixpoint while_months (fuel : nat) (cid : Z) (journey_start_month : Timestamp)
    (transaction : Transaction) (current_month end_month : Timestamp)
    {struct fuel} : Res (list MonthlyRow) :=
  if ts_leb current_month end_month then
    match fuel with
    | O => Err FuelExhausted
    | S fuel' =>
        rest <- while_months fuel' cid journey_start_month transaction
                  (next_month current_month) end_month ;;
        Ok (monthly_entry cid journey_start_month transaction current_month
            :: rest)
    end
  else Ok [].

Definition loop_bound (start_month end_month : Timestamp) : nat :=
  Z.to_nat (months_from start_month end_month + 1).

(** The body of [for _, transaction in customer_data.iterrows()]. *)
Definition expand_transaction (cid : Z) (journey_start_month : Timestamp)
    (transaction : Transaction) : Res (list MonthlyRow) :=
  let start_month := month_start (order_date transaction) in
  let end_month := month_start (echeance_date transaction) in
  while_months (loop_bound start_month end_month) cid journey_start_month
    transaction start_month end_month.

Fixpoint flat_mapM {A B} (f : A -> Res (list B)) (l : list A)
    : Res (list B) :=
  match l with
  | [] => Ok []
  | x :: t =>
      rows <- f x ;;
      rest <- flat_mapM f t ;;
      Ok (rows ++ rest)
  end.

(** The body of [for idx, customer_id in enumerate(...unique())]. *)
Definition expand_customer (df : list Transaction) (cid : Z)
    : Res (list MonthlyRow) :=
  let customer_data := filter (fun t => customer_id t =? cid) df in
  match series_min (map order_date customer_data) with
  | None => Err NaTError
  | Some journey_start =>
      let journey_start_month := month_start journey_start in
      flat_mapM (expand_transaction cid journey_start_month) customer_data
  end.

Definition monthly_data (df : list Transaction) : Res (list MonthlyRow) :=
  flat_mapM (expand_customer df) (unique Z.eqb (map customer_id df)).

Definition customer_mois_eqb (a b : Z * Mois) : bool :=
  (fst a =? fst b) && mois_eqb (snd a) (snd b).

Definition customer_mois (r : MonthlyRow) : Z * Mois :=
  (m_customer_id r, mois r).

Definition create_monthly_retention_table (df : list Transaction)
    : Res (list MonthlyRow) :=
  rows <- monthly_data df ;;
  match rows with
  | [] => Err KeyError
  | _ => Ok (drop_duplicates customer_mois_eqb customer_mois rows)
  end.

(** *** calculate_cohort_retention *)

Record RetentionPoint : Type := mkRetentionPoint {
  cohorte : Mois;
  r_mois_relatif : Z;
  clients_initiaux : Z;
  clients_actifs : Z;
  taux_retention : Q
}.

(** [data[data['mois_relatif'] == m]['customer_id'].nunique()] *)
Definition customers_at (data : list MonthlyRow) (m : Z) : Z :=
  nunique Z.eqb
    (map m_customer_id (filter (fun r => mois_relatif r =? m) data)).

Definition cohort_rows (monthly_df : list MonthlyRow) (cohort : Mois)
    : list MonthlyRow :=
  filter (fun r => mois_eqb (date_debut_parcours r) cohort) monthly_df.

(** The body of [for cohort in ...unique()]. *)
Definition cohort_points (monthly_df : list MonthlyRow) (cohort : Mois)
    : list RetentionPoint :=
  let cohort_data := cohort_rows monthly_df cohort in
  let initial_customers := customers_at cohort_data 0 in
  if initial_customers =? 0 then []
  else
    map (fun month_rel =>
           let active_customers := customers_at cohort_data month_rel in
           let retention_rate :=
             (inject_Z active_customers / inject_Z initial_customers
              * 100)%Q in
           {| cohorte := cohort;
              r_mois_relatif := month_rel;
              clients_initiaux := initial_customers;
              clients_actifs := active_customers;
              taux_retention := round2 retention_rate |})
        (sort_values Z.leb (unique Z.eqb (map mois_relatif cohort_data))).

Definition retention_results (monthly_df : list MonthlyRow)
    : list RetentionPoint :=
  flat_map (cohort_points monthly_df)
    (unique mois_eqb (map date_debut_parcours monthly_df)).

Definition point_leb (a b : RetentionPoint) : bool :=
  if mois_eqb (cohorte a) (cohorte b)
  then r_mois_relatif a <=? r_mois_relatif b
  else mois_leb (cohorte a) (cohorte b).

Definition calculate_cohort_retention (monthly_df : list MonthlyRow)
    : Res (list RetentionPoint) :=
  match retention_results monthly_df with
  | [] => Err KeyError
  | results => Ok (sort_values point_leb results)
  end.

(** *** calculate_segmented_retention *)

Record SegmentPoint : Type := mkSegmentPoint {
  segment_type : string;
  segment_value : string;
  s_cohorte : Mois;
  s_mois_relatif : Z;
  s_clients_initiaux : Z;
  s_clients_actifs : Z;
  s_taux_retention : Q
}.

(** [psp.fillna('CB')] *)
Definition psp_clean (r : MonthlyRow) : option string :=
  match m_psp r with
  | Some s => Some s
  | None => Some "CB"%string
  end.

(** [pd.cut(revenue.fillna(0), bins=[0, 5, 10, 15, 20, inf], labels=...)]:
    the bins are open on the left and closed on the right, and a value
    outside them has no label. *)
Definition revenue_tranche (r : MonthlyRow) : option string :=
  let x := match m_consolidated_revenues_ht_euro r with
           | Some q => q
           | None => 0%Q
           end in
  if Qle_bool x 0 then None
  else if Qle_bool x 5 then Some "0-5€"%string
  else if Qle_bool x 10 then Some "5-10€"%string
  else if Qle_bool x 15 then Some "10-15€"%string
  else if Qle_bool x 20 then Some "15-20€"%string
  else Some ">20€"%string.

Definition segments : list (string * (MonthlyRow -> option string)) :=
  [ ("frequence"%string, m_frequence);
    ("tm_source"%string, m_tm_source);
    ("tm_medium"%string, m_tm_medium);
    ("psp"%string, psp_clean);
    ("revenue_tranche"%string, revenue_tranche) ].

Definition cell_is (v : string) (c : option string) : bool :=
  match c with
  | Some s => String.eqb s v
  | None => false
  end.

Definition segment_rows (column : MonthlyRow -> option string)
    (monthly_df : list MonthlyRow) (value : string) : list MonthlyRow :=
  filter (fun r => cell_is value (column r)) monthly_df.

(** The body of [for cohort in segment_data[...].unique()]. *)
Definition cohort_segment_points (name value : string)
    (segment_data : list MonthlyRow) (cohort : Mois) : list SegmentPoint :=
  let cohort_segment_data := cohort_rows segment_data cohort in
  let initial_customers := customers_at cohort_segment_data 0 in
  if initial_customers <? 10 then []
  else
    map (fun month_rel =>
           let active_customers :=
             customers_at cohort_segment_data month_rel in
           let retention_rate :=
             (inject_Z active_customers / inject_Z initial_customers
              * 100)%Q in
           {| segment_type := name;
              segment_value := value;
              s_cohorte := cohort;
              s_mois_relatif := month_rel;
              s_clients_initiaux := initial_customers;
              s_clients_actifs := active_customers;
              s_taux_retention := round2 retention_rate |})
        (sort_values Z.leb
           (unique Z.eqb (map mois_relatif cohort_segment_data))).

(** The list [segment_retention] built for one segment. *)
Definition segment_retention (name : string)
    (column : MonthlyRow -> option string) (monthly_df : list MonthlyRow)
    : list SegmentPoint :=
  flat_map (fun value =>
              let segment_data := segment_rows column monthly_df value in
              flat_map (cohort_segment_points name value segment_data)
                (unique mois_eqb (map date_debut_parcours segment_data)))
    (unique String.eqb (dropna (map column monthly_df))).

Definition calculate_segmented_retention (monthly_df : list MonthlyRow)
    : list (string * list SegmentPoint) :=
  flat_map (fun seg =>
              match segment_retention (fst seg) (snd seg) monthly_df with
              | [] => []
              | points => [(fst seg, points)]
              end)
    segments.


(** *** load_and_clean_data, from the converted dates on *)

(** A row of the frame read from the CSV file, once [order_date] and
    [echeance_date] hold the converted dates. *)
Record RawTransaction : Type := mkRawTransaction {
  raw_customer_id : option Z;
  raw_subscription_id : option Z;
  raw_order_date : option Timestamp;
  raw_echeance_date : option Timestamp;
  raw_frequence : option string;
  raw_type : option string;
  raw_payment_origin : option string;
  raw_psp : option string;
  raw_tm_source : option string;
  raw_tm_medium : option string;
  raw_tm_campaign : option string;
  raw_consolidated_revenues_ht_euro : option Q
}.

(** One row through
    [dropna(subset=['order_date', 'echeance_date', 'customer_id'])]. *)
Definition dropna_row (r : RawTransaction) : list Transaction :=
  match raw_order_date r, raw_echeance_date r, raw_customer_id r with
  | Some o, Some e, Some c =>
      [ {| customer_id := c;
           subscription_id := raw_subscription_id r;
           order_date := o;
           echeance_date := e;
           frequence := raw_frequence r;
           type_ := raw_type r;
           payment_origin := raw_payment_origin r;
           psp := raw_psp r;
           tm_source := raw_tm_source r;
           tm_medium := raw_tm_medium r;
           tm_campaign := raw_tm_campaign r;
           consolidated_revenues_ht_euro :=
             raw_consolidated_revenues_ht_euro r |} ]
  | _, _, _ => []
  end.

(** Order of [sort_values(['customer_id', 'order_date'])]. *)
Definition transaction_leb (a b : Transaction) : bool :=
  (customer_id a <? customer_id b)
  || ((customer_id a =? customer_id b)
      && ts_leb (order_date a) (order_date b)).

(** The cleaning at the end of [load_and_clean_data].  The period it
    prints asks [strftime] of [df['order_date'].min()], which is NaT on a
    frame without rows and raises there. *)
Definition load_and_clean_data (df : list RawTransaction)
    : Res (list Transaction) :=
  let df := flat_map dropna_row df in
  let df := sort_values transaction_leb df in
  match series_min (map order_date df) with
  | None => Err NaTError
  | Some _ => Ok df
  end.

(** *** analyze_retention_trends *)

Definition significant_cohorts (retention_df : list RetentionPoint)
    : list Mois :=
  unique mois_eqb
    (map cohorte (filter (fun p => 50 <=? clients_initiaux p) retention_df)).

Definition significant_data (retention_df : list RetentionPoint)
    : list RetentionPoint :=
  filter (fun p => isin mois_eqb (cohorte p) (significant_cohorts retention_df))
    retention_df.

(** A row of [avg_retention], indexed by [mois_relatif]. *)
Record TrendRow : Type := mkTrendRow {
  t_mois_relatif : Z;
  t_taux_retention : Float;
  t_clients_initiaux : Z;
  t_clients_actifs : Z
}.

Definition round2_float (x : Float) : Float :=
  match x with
  | Some q => Some (round2 q)
  | None => None
  end.

(** [groupby('mois_relatif').agg({...}).round(2)] *)
Definition avg_retention (data : list RetentionPoint) : list TrendRow :=
  map (fun m =>
         let group := filter (fun p => r_mois_relatif p =? m) data in
         {| t_mois_relatif := m;
            t_taux_retention :=
              round2_float (series_mean (map taux_retention group));
            t_clients_initiaux := series_sum (map clients_initiaux group);
            t_clients_actifs := series_sum (map clients_actifs group) |})
      (sort_values Z.leb (unique Z.eqb (map r_mois_relatif data))).

Definition analyze_retention_trends (retention_df : list RetentionPoint)
    : list RetentionPoint * list TrendRow :=
  let significant_data := significant_data retention_df in
  (significant_data, avg_retention significant_data).

(** *** create_cohort_summary *)

Record CohortSummary : Type := mkCohortSummary {
  cs_cohorte : Mois;
  taille_initiale : Z;
  retention_1m : Float;
  retention_3m : Float;
  retention_6m : Float;
  retention_12m : Float;
  retention_13m : Float;
  retention_18m : Float;
  retention_24m : Float;
  retention_25m : Float;
  duree_suivi : Z
}.

(** [values[0] if len(values) > 0 else np.nan] for the rates of the rows
    at relative month [m]. *)
Definition retention_at (cohort_data : list RetentionPoint) (m : Z) : Float :=
  match filter (fun p => r_mois_relatif p =? m) cohort_data with
  | [] => None
  | p :: _ => Some (taux_retention p)
  end.

(** The body of [for cohort in retention_df['cohorte'].unique()]; the
    cohort comes from the frame, so [cohort_data] has a first row. *)
Definition cohort_summary_entry (retention_df : list RetentionPoint)
    (cohort : Mois) : list CohortSummary :=
  let cohort_data :=
    filter (fun p => mois_eqb (cohorte p) cohort) retention_df in
  match cohort_data, series_max (map r_mois_relatif cohort_data) with
  | p0 :: _, Some duree =>
      [ {| cs_cohorte := cohort;
           taille_initiale := clients_initiaux p0;
           retention_1m := retention_at cohort_data 1;
           retention_3m := retention_at cohort_data 3;
           retention_6m := retention_at cohort_data 6;
           retention_12m := retention_at cohort_data 12;
           retention_13m := retention_at cohort_data 13;
           retention_18m := retention_at cohort_data 18;
           retention_24m := retention_at cohort_data 24;
           retention_25m := retention_at cohort_data 25;
           duree_suivi := duree |} ]
  | _, _ => []
  end.

Definition summary_leb (a b : CohortSummary) : bool :=
  mois_leb (cs_cohorte a) (cs_cohorte b).

(** A frame without rows has no column [cohorte]. *)
Definition create_cohort_summary (retention_df : list RetentionPoint)
    : Res (list CohortSummary) :=
  match retention_df with
  | [] => Err KeyError
  | _ =>
      let cohort_summary :=
        flat_map (cohort_summary_entry retention_df)
          (unique mois_eqb (map cohorte retention_df)) in
      Ok (sort_values summary_leb cohort_summary)
  end.

(** *** create_segment_summary *)

Record SegmentSummary : Type := mkSegmentSummary {
  ss_segment : string;
  total_clients : Z;
  ss_retention_1m : Float;
  ss_retention_3m : Float;
  ss_retention_6m : Float;
  ss_retention_12m : Float;
  ss_retention_13m : Float;
  ss_retention_18m : Float;
  ss_retention_24m : Float;
  ss_retention_25m : Float
}.

Definition mean_at (segment_subset : list SegmentPoint) (m : Z) : Float :=
  series_mean
    (map s_taux_retention
       (filter (fun p => s_mois_relatif p =? m) segment_subset)).

(** The body of [for segment_value in segment_df['segment_value'].unique()].
    [str(segment_value)[:20]] is taken on the bytes of the text, which are
    its characters on ASCII values. *)
Definition segment_summary_entry (segment_df : list SegmentPoint)
    (value : string) : list SegmentSummary :=
  let segment_subset :=
    filter (fun p => String.eqb (segment_value p) value) segment_df in
  let total_clients :=
    series_sum
      (map s_clients_initiaux
         (filter (fun p => s_mois_relatif p =? 0) segment_subset)) in
  if total_clients <? 50 then []
  else
    [ {| ss_segment := String.substring 0 20 value;
         total_clients := total_clients;
         ss_retention_1m := mean_at segment_subset 1;
         ss_retention_3m := mean_at segment_subset 3;
         ss_retention_6m := mean_at segment_subset 6;
         ss_retention_12m := mean_at segment_subset 12;
         ss_retention_13m := mean_at segment_subset 13;
         ss_retention_18m := mean_at segment_subset 18;
         ss_retention_24m := mean_at segment_subset 24;
         ss_retention_25m := mean_at segment_subset 25 |} ].

(** [x['retention_24m'] if not pd.isna(x['retention_24m']) else 0] *)
Definition key_24m (s : SegmentSummary) : Q :=
  match ss_retention_24m s with
  | Some q => q
  | None => 0%Q
  end.

(** Order of [sorted(..., key=..., reverse=True)]. *)
Definition key_24m_geb (a b : SegmentSummary) : bool :=
  Qle_bool (key_24m b) (key_24m a).

Definition summary_data (segment_df : list SegmentPoint)
    : list SegmentSummary :=
  sort_values key_24m_geb
    (flat_map (segment_summary_entry segment_df)
       (unique String.eqb (map segment_value segment_df))).

Definition create_segment_summary
    (segmented_results : list (string * list SegmentPoint))
    : list (string * list SegmentSummary) :=
  map (fun item => (fst item, summary_data (snd item))) segmented_results.

End Claude_retention_analysis.

(* ================================================================== *)
(** ** The gemini/ pipelines *)

(** The row the gemini pipelines work on: one subscription, as left by
    the aggregation per [subscription_id], with its two date columns
    already passed through [pd.to_datetime(..., errors='coerce')].  Every row
    has a customer: rows without one fall out of the groups of [groupby] and
    are not modelled.

    The column [frequence] is a column of texts and missing cells, of dtype
    object.  lancer_analyse, analyse_abo_court and rapport_final ask the
    column for its accessor [.str], which an object column has whatever the
    cells of the rows at hand.  A column read from a file where every cell
    of it is missing has dtype float64 and no [.str]: there the three
    scripts raise an AttributeError where they ask for it, and the
    definitions below do not cover that frame. *)
Module Gemini.
Import Pandas.

Record Abonnement : Type := mkAbonnement {
  customer_id : Z;
  subscription_id : Z;
  order_date : option Timestamp;
  ECHEANCE_date : option Timestamp;
  order_date_Annee : option Z;
  order_date_Mois : option Z;
  order_date_Jour_du_mois : option Z;
  ECHEANCE_annee : option Z;
  ECHEANCE_mois : option Z;
  ECHEANCE_jour : option Z;
  frequence : option string;
  consolidated_revenues_ht_euro : Cell
}.

(** Order of [sort_values(by=['customer_id', 'order_date'])]. *)
Definition sort_key_leb (a b : Abonnement) : bool :=
  (customer_id a <? customer_id b)
  || ((customer_id a =? customer_id b)
      && nat_last_leb (order_date a) (order_date b)).

(** [pd.to_datetime(df[['year', 'month', 'day']], errors='coerce')] on one
    row: missing when a part is missing or the parts name no calendar day
    (the bounds of the years a Timestamp can hold are left aside). *)
Definition to_datetime_ymd (y m d : option Z) : option Timestamp :=
  match y, m, d with
  | Some y', Some m', Some d' =>
      let t := mkTs y' m' d' in
      if valid_tsb t then Some t else None
  | _, _, _ => None
  end.

Definition isna {A} (c : option A) : bool :=
  match c with
  | Some _ => false
  | None => true
  end.

Definition notna {A} (c : option A) : bool := negb (isna c).

(** [(gap.isna()) | (gap >= seuil)] *)
Definition nouveau_parcours_of (gap : option Z) (seuil : Z) : bool :=
  match gap with
  | None => true
  | Some g => seuil <=? g
  end.

Definition echeance_precedente (df_sorted : list Abonnement)
    : list (option Timestamp) :=
  groupby_shift (map (fun r => (customer_id r, ECHEANCE_date r)) df_sorted).

Definition duree_trou_jours (df_sorted : list Abonnement)
    : list (option Z) :=
  map (fun rp => dt_days (order_date (fst rp)) (snd rp))
    (combine df_sorted (echeance_precedente df_sorted)).

End Gemini.

(** *** gemini/pipeline_JA.py *)

Module pipeline_JA.
Import Pandas Gemini.

Record MonthlyRow : Type := mkMonthlyRow {
  source : Abonnement;
  month_ : Timestamp;
  month_relatif : Z;
  is_first_subscription : bool;
  Montant : Float
}.

Definition nouveau_parcours (df_sorted : list Abonnement) : list bool :=
  map (fun gap => nouveau_parcours_of gap 90) (duree_trou_jours df_sorted).

Definition parcours_numero (df_sorted : list Abonnement) : list Z :=
  groupby_cumsum
    (combine (map customer_id df_sorted) (nouveau_parcours df_sorted)).

(** The [try] block computing [montant_mensuel]. *)
Definition montant_mensuel (row : Abonnement) : Float :=
  match consolidated_revenues_ht_euro row with
  | Text _ => Some 0%Q
  | cell =>
      let revenue : Float :=
        match cell with Number q => Some q | _ => None end in
      let frequence_str := lower (str_of_cell (frequence row)) in
      if contains "annuel" frequence_str then float_div revenue 12
      else if contains "mensuel" frequence_str then revenue
      else Some 0%Q
  end.

(** The body of [for row in df_sorted.itertuples(index=False)]. *)
Definition expand_row (row : Abonnement) (numero : Z) : list MonthlyRow :=
  match order_date row, ECHEANCE_date row with
  | Some order, Some echeance =>
      let date_range := date_range_MS order echeance in
      let date_range :=
        match date_range with
        | [] => [month_start order]
        | _ => date_range
        end in
      map (fun month_date =>
             {| source := row;
                month_ := month_date;
                month_relatif :=
                  (year month_date - year order) * 12
                  + (month month_date - month order);
                is_first_subscription := numero =? 1;
                Montant := montant_mensuel row |})
          date_range
  | _, _ => []
  end.

Definition create_monthly_report (df_sub : list Abonnement)
    : list MonthlyRow :=
  let df_sorted := sort_values sort_key_leb df_sub in
  flat_map (fun rn => expand_row (fst rn) (snd rn))
    (combine df_sorted (parcours_numero df_sorted)).

End pipeline_JA.

(** *** gemini/analyse_abo_court.py *)

Module analyse_abo_court.
Import Pandas Gemini.

(** The [try] block computing [montant_mensuel]. *)
Definition montant_mensuel (row : Abonnement) : Float :=
  match consolidated_revenues_ht_euro row with
  | Text _ => Some 0%Q
  | cell =>
      let revenue : Float :=
        match cell with Number q => Some q | _ => None end in
      let frequence := lower (str_of_cell (frequence row)) in
      if contains "annual" frequence then float_div revenue 12
      else if contains "monthly" frequence then revenue
      else Some 0%Q
  end.

End analyse_abo_court.

(** *** gemini/lancer_analyse.py *)

Module lancer_analyse.
Import Pandas Gemini.

(** A row of [df_grouped] during the repair. *)
Record Repare : Type := mkRepare {
  abo : Abonnement;
  methode_reparation_date : string;
  order_date_dt : option Timestamp;
  ECHEANCE_date_dt : option Timestamp
}.

Definition Originale : string := "Originale".
Definition Reconstruite : string := "Reconstruite".
Definition Imputee : string := "Imputée (+30j)".

(** Phase 1: the default label and the parsed dates. *)
Definition phase_parse (a : Abonnement) : Repare :=
  {| abo := a;
     methode_reparation_date := Originale;
     order_date_dt := order_date a;
     ECHEANCE_date_dt := ECHEANCE_date a |}.

(** Phase 2, order date: rows of the mask [to_reconstruct_order] get the
    rebuilt date, and every row of the mask gets the label (the label is
    assigned on [reconstructed_dates.notna().index], the whole index of the
    rebuilt column). *)
Definition phase_reconstruct_order (r : Repare) : Repare :=
  if isna (order_date_dt r) then
    {| abo := abo r;
       methode_reparation_date := Reconstruite;
       order_date_dt :=
         to_datetime_ymd (order_date_Annee (abo r)) (order_date_Mois (abo r))
           (order_date_Jour_du_mois (abo r));
       ECHEANCE_date_dt := ECHEANCE_date_dt r |}
  else r.

(** Phase 2, due date. *)
Definition phase_reconstruct_echeance (r : Repare) : Repare :=
  if isna (ECHEANCE_date_dt r) then
    {| abo := abo r;
       methode_reparation_date := Reconstruite;
       order_date_dt := order_date_dt r;
       ECHEANCE_date_dt :=
         to_datetime_ymd (ECHEANCE_annee (abo r)) (ECHEANCE_mois (abo r))
           (ECHEANCE_jour (abo r)) |}
  else r.

Definition condition_fix_echeance (r : Repare) : bool :=
  str_lower_contains "monthly" (frequence (abo r))
  && isna (ECHEANCE_date_dt r) && notna (order_date_dt r).

(** Phase 3: imputation. *)
Definition phase_impute (r : Repare) : Repare :=
  if condition_fix_echeance r then
    {| abo := abo r;
       methode_reparation_date := Imputee;
       order_date_dt := order_date_dt r;
       ECHEANCE_date_dt :=
         match order_date_dt r with
         | Some d => Some (add_days d 30)
         | None => None
         end |}
  else r.

(** [order_date] and [ECHEANCE_date] take the repaired dates. *)
Definition phase_store (r : Repare) : Repare :=
  {| abo :=
       {| customer_id := customer_id (abo r);
          subscription_id := subscription_id (abo r);
          order_date := order_date_dt r;
          ECHEANCE_date := ECHEANCE_date_dt r;
          order_date_Annee := order_date_Annee (abo r);
          order_date_Mois := order_date_Mois (abo r);
          order_date_Jour_du_mois := order_date_Jour_du_mois (abo r);
          ECHEANCE_annee := ECHEANCE_annee (abo r);
          ECHEANCE_mois := ECHEANCE_mois (abo r);
          ECHEANCE_jour := ECHEANCE_jour (abo r);
          frequence := frequence (abo r);
          consolidated_revenues_ht_euro :=
            consolidated_revenues_ht_euro (abo r) |};
     methode_reparation_date := methode_reparation_date r;
     order_date_dt := order_date_dt r;
     ECHEANCE_date_dt := ECHEANCE_date_dt r |}.

Definition repair (a : Abonnement) : Repare :=
  phase_store
    (phase_impute
       (phase_reconstruct_echeance
          (phase_reconstruct_order (phase_parse a)))).

(** [dropna(subset=['order_date', 'ECHEANCE_date'])] *)
Definition usable (r : Repare) : bool :=
  notna (order_date (abo r)) && notna (ECHEANCE_date (abo r)).

(** [group_and_repair_data], from the aggregated frame on, its column
    [frequence] being of dtype object. *)
Definition group_and_repair_data (df_grouped : list Abonnement)
    : list Repare :=
  filter usable (map repair df_grouped).

(** *** create_monthly_report: the journeys *)

Definition seuil_churn_jours (row : Abonnement) : Z :=
  if str_lower_contains "monthly" (frequence row) then 35 else 90.

Definition nouveau_parcours (df_sorted : list Abonnement) : list bool :=
  map (fun rg => nouveau_parcours_of (snd rg) (seuil_churn_jours (fst rg)))
    (combine df_sorted (duree_trou_jours df_sorted)).

(** [customer_id.astype(str) + '_' + nouveau_parcours.cumsum().astype(str)],
    kept as the pair the text spells: the running count is made of digits,
    so the text determines both parts. *)
Definition id_parcours (df_sorted : list Abonnement) : list (Z * Z) :=
  combine (map customer_id df_sorted) (cumsum (nouveau_parcours df_sorted)).

(** A row of [df_sorted] with the journey columns. *)
Record Parcours : Type := mkParcours {
  row : Abonnement;
  p_nouveau_parcours : bool;
  p_id_parcours : Z * Z
}.

(** The journey columns of [create_monthly_report]. *)
Definition journeys (df_sub : list Abonnement) : list Parcours :=
  let df_sorted := sort_values sort_key_leb df_sub in
  map (fun x => {| row := fst (fst x);
                   p_nouveau_parcours := snd (fst x);
                   p_id_parcours := snd x |})
    (combine (combine df_sorted (nouveau_parcours df_sorted))
       (id_parcours df_sorted)).


(** *** create_monthly_report: the expansion *)

Definition id_eqb (a b : Z * Z) : bool :=
  (fst a =? fst b) && (snd a =? snd b).

(** [df_sorted.groupby('id_parcours')['order_date'].transform('min')] on
    the rows of one journey; [min] skips missing dates. *)
Definition journey_start_date_of (df_sorted : list Parcours) (id : Z * Z)
    : option Timestamp :=
  Claude_retention_analysis.series_min
    (dropna
       (map (fun x => order_date (row x))
          (filter (fun x => id_eqb (p_id_parcours x) id) df_sorted))).

(** The [try] block computing [montant_mensuel]. *)
Definition montant_mensuel (row : Abonnement) : Float :=
  match consolidated_revenues_ht_euro row with
  | Text _ => Some 0%Q
  | cell =>
      let revenue : Float :=
        match cell with Number q => Some q | _ => None end in
      let frequence := lower (str_of_cell (frequence row)) in
      if contains "annual" frequence then float_div revenue 12
      else if contains "monthly" frequence then revenue
      else Some 0%Q
  end.

(** A row of the monthly report. *)
Record MonthlyRow : Type := mkMonthlyRow {
  parcours : Parcours;
  journey_start_date : Timestamp;
  month_ : Timestamp;
  month_relatif : Z;
  Montant : Float
}.

(** The body of [for row in df_sorted.itertuples(index=False)].  A
    missing date has no [to_period].  The journey of a row whose order
    date is present has a start date (lemma [journey_start_date_present]),
    so the last branch is never taken on the rows of [df_sorted]. *)
Definition expand_row (df_sorted : list Parcours) (x : Parcours)
    : Res (list MonthlyRow) :=
  match order_date (row x), ECHEANCE_date (row x) with
  | Some order, Some echeance =>
      let start_month := month_start order in
      let end_month := month_start echeance in
      let date_range := date_range_MS start_month end_month in
      match journey_start_date_of df_sorted (p_id_parcours x) with
      | Some start =>
          Ok (map (fun month_date =>
                     {| parcours := x;
                        journey_start_date := start;
                        month_ := month_date;
                        month_relatif :=
                          (year month_date - year start) * 12
                          + (month month_date - month start);
                        Montant := montant_mensuel (row x) |})
                date_range)
      | None => Err NaTError
      end
  | _, _ => Err NaTError
  end.

(** [create_monthly_report] on a frame whose column [frequence] is of
    dtype object. *)
Definition create_monthly_report (df_sub : list Abonnement)
    : Res (list MonthlyRow) :=
  let df_sorted := journeys df_sub in
  Claude_retention_analysis.flat_mapM (expand_row df_sorted) df_sorted.

(** The first two calls of [main] after the load: the repair, then the
    report. *)
Definition monthly_report_of (df_grouped : list Abonnement)
    : Res (list MonthlyRow) :=
  create_monthly_report (map abo (group_and_repair_data df_grouped)).

(** *** analyze_churn_characteristics *)

(** [df.groupby('id_parcours')['month_relatif'].transform('max')] on one
    row; the group holds the row itself. *)
Definition duree_parcours (df : list MonthlyRow) (r : MonthlyRow) : Z :=
  match series_max
          (map month_relatif
             (filter (fun x => id_eqb (p_id_parcours (parcours x))
                                 (p_id_parcours (parcours r))) df)) with
  | Some m => m
  | None => month_relatif r
  end.

Definition df_churners (df : list MonthlyRow) : list MonthlyRow :=
  filter (fun r => duree_parcours df r <=? 2) df.

Definition df_retained (df : list MonthlyRow) : list MonthlyRow :=
  filter (fun r => 2 <? duree_parcours df r) df.

Definition initial_state (rows : list MonthlyRow) : list MonthlyRow :=
  drop_duplicates id_eqb (fun r => p_id_parcours (parcours r))
    (filter (fun r => month_relatif r =? 0) rows).

Definition churners_initial (df : list MonthlyRow) : list MonthlyRow :=
  initial_state (df_churners df).

Definition retained_initial (df : list MonthlyRow) : list MonthlyRow :=
  initial_state (df_retained df).

(** The two counts the function prints. *)
Definition churn_counts (df : list MonthlyRow) : Z * Z :=
  (nunique Z.eqb (map (fun r => customer_id (row (parcours r)))
                    (df_churners df)),
   nunique Z.eqb (map (fun r => customer_id (row (parcours r)))
                    (df_retained df))).

End lancer_analyse.

(** *** gemini/analyse_abo_court.py: the monthly report *)

(** The journey columns of its [create_monthly_report] (the sort, the
    previous due date, the gap, the 35/90 threshold, the running count and
    the journey start date) are computed as in [lancer_analyse]; the row
    loop skips a subscription that lacks a date. *)
Module analyse_abo_court_report.
Import Pandas Gemini.

(** The body of [for row in df_sorted.itertuples(index=False)]; as in
    [lancer_analyse], the journey of a row whose order date is present
    has a start date. *)
Definition expand_row (df_sorted : list lancer_analyse.Parcours)
    (x : lancer_analyse.Parcours) : list lancer_analyse.MonthlyRow :=
  match order_date (lancer_analyse.row x),
        ECHEANCE_date (lancer_analyse.row x) with
  | Some order, Some echeance =>
      let start_month := month_start order in
      let end_month := month_start echeance in
      let date_range := date_range_MS start_month end_month in
      match lancer_analyse.journey_start_date_of df_sorted
              (lancer_analyse.p_id_parcours x) with
      | Some start =>
          map (fun month_date =>
                 {| lancer_analyse.parcours := x;
                    lancer_analyse.journey_start_date := start;
                    lancer_analyse.month_ := month_date;
                    lancer_analyse.month_relatif :=
                      (year month_date - year start) * 12
                      + (month month_date - month start);
                    lancer_analyse.Montant :=
                      analyse_abo_court.montant_mensuel
                        (lancer_analyse.row x) |})
            date_range
      | None => []
      end
  | _, _ => []
  end.

Definition create_monthly_report (df_sub : list Abonnement)
    : list lancer_analyse.MonthlyRow :=
  let df_sorted := lancer_analyse.journeys df_sub in
  flat_map (expand_row df_sorted) df_sorted.

End analyse_abo_court_report.

(** *** gemini/rapport_final.py *)

Module rapport_final.
Import Pandas Gemini.

Definition set_order_date (a : Abonnement) (d : option Timestamp)
    : Abonnement :=
  {| customer_id := customer_id a;
     subscription_id := subscription_id a;
     order_date := d;
     ECHEANCE_date := ECHEANCE_date a;
     order_date_Annee := order_date_Annee a;
     order_date_Mois := order_date_Mois a;
     order_date_Jour_du_mois := order_date_Jour_du_mois a;
     ECHEANCE_annee := ECHEANCE_annee a;
     ECHEANCE_mois := ECHEANCE_mois a;
     ECHEANCE_jour := ECHEANCE_jour a;
     frequence := frequence a;
     consolidated_revenues_ht_euro := consolidated_revenues_ht_euro a |}.

Definition set_ECHEANCE_date (a : Abonnement) (d : option Timestamp)
    : Abonnement :=
  {| customer_id := customer_id a;
     subscription_id := subscription_id a;
     order_date := order_date a;
     ECHEANCE_date := d;
     order_date_Annee := order_date_Annee a;
     order_date_Mois := order_date_Mois a;
     order_date_Jour_du_mois := order_date_Jour_du_mois a;
     ECHEANCE_annee := ECHEANCE_annee a;
     ECHEANCE_mois := ECHEANCE_mois a;
     ECHEANCE_jour := ECHEANCE_jour a;
     frequence := frequence a;
     consolidated_revenues_ht_euro := consolidated_revenues_ht_euro a |}.

Definition reconstruct_order (a : Abonnement) : Abonnement :=
  if isna (order_date a)
  then set_order_date a
         (to_datetime_ymd (order_date_Annee a) (order_date_Mois a)
            (order_date_Jour_du_mois a))
  else a.

Definition reconstruct_echeance (a : Abonnement) : Abonnement :=
  if isna (ECHEANCE_date a)
  then set_ECHEANCE_date a
         (to_datetime_ymd (ECHEANCE_annee a) (ECHEANCE_mois a)
            (ECHEANCE_jour a))
  else a.

Definition condition_fix_echeance (a : Abonnement) : bool :=
  str_lower_contains "monthly" (frequence a)
  && isna (ECHEANCE_date a) && notna (order_date a).

Definition impute (a : Abonnement) : Abonnement :=
  if condition_fix_echeance a
  then set_ECHEANCE_date a
         match order_date a with
         | Some d => Some (add_days d 30)
         | None => None
         end
  else a.

Definition repair (a : Abonnement) : Abonnement :=
  impute (reconstruct_echeance (reconstruct_order a)).

Definition usable (a : Abonnement) : bool :=
  notna (order_date a) && notna (ECHEANCE_date a).

(** [group_and_repair_data], from the aggregated frame on. *)
Definition group_and_repair_data (df_grouped : list Abonnement)
    : list Abonnement :=
  filter usable (map repair df_grouped).


(** *** calculate_retention_tables *)

(** The columns of the monthly report that the analyses read. *)
Record ReportRow : Type := mkReportRow {
  r_customer_id : Z;
  r_id_parcours : Z * Z;
  r_month_relatif : Z;
  nom_offre : option string;
  r_frequence : option string;
  psp : option string;
  payment_origin : option string
}.

Definition id_eqb (a b : Z * Z) : bool :=
  (fst a =? fst b) && (snd a =? snd b).

(** [df.groupby('month_relatif')['customer_id'].nunique()]: one entry per
    relative month of the frame, in increasing order. *)
Definition retained_count (df : list ReportRow) : list (Z * Z) :=
  map (fun m =>
         (m, nunique Z.eqb
               (map r_customer_id
                  (filter (fun r => r_month_relatif r =? m) df))))
      (sort_values Z.leb (unique Z.eqb (map r_month_relatif df))).

Definition rate_of (initial : Z) (retained : list (Z * Z)) : list (Z * Q) :=
  map (fun mn => (fst mn, (inject_Z (snd mn) / inject_Z initial)%Q)) retained.

(** [results['Retention_Globale']], absent when no row is at month 0. *)
Definition Retention_Globale (df : list ReportRow) : option (list (Z * Q)) :=
  let initial_customers_global :=
    nunique Z.eqb
      (map r_customer_id (filter (fun r => r_month_relatif r =? 0) df)) in
  if 0 <? initial_customers_global
  then Some (rate_of initial_customers_global (retained_count df))
  else None.

Definition df_initial_state (df : list ReportRow) : list ReportRow :=
  drop_duplicates id_eqb r_id_parcours
    (filter (fun r => r_month_relatif r =? 0) df).

Definition cell_is (v : string) (c : option string) : bool :=
  match c with
  | Some s => String.eqb s v
  | None => false
  end.

Definition cohort_ids (df : list ReportRow) (char : ReportRow -> option string)
    (segment : string) : list Z :=
  unique Z.eqb
    (map r_customer_id
       (filter (fun r => cell_is segment (char r)) (df_initial_state df))).

(** The body of [for segment in top_segments]: the entry stored in
    [retention_by_segment], none when the loop takes [continue]. *)
Definition segment_rate (df : list ReportRow)
    (char : ReportRow -> option string) (segment : string)
    : option (list (Z * Q)) :=
  let cohort_ids := cohort_ids df char segment in
  let initial_count := Z.of_nat (List.length cohort_ids) in
  if initial_count =? 0 then None
  else
    let df_cohort :=
      filter (fun r => isin Z.eqb (r_customer_id r) cohort_ids) df in
    Some (rate_of initial_count (retained_count df_cohort)).

(** The segments [value_counts()] lists for a characteristic, from which
    [nlargest(7)] takes its seven. *)
Definition segments_of (df : list ReportRow)
    (char : ReportRow -> option string) : list string :=
  unique String.eqb (dropna (map char (df_initial_state df))).

(** [retention_by_segment] for a choice [top_segments] of segments. *)
Definition retention_by_segment (df : list ReportRow)
    (char : ReportRow -> option string) (top_segments : list string)
    : list (string * list (Z * Q)) :=
  flat_map (fun segment =>
              match segment_rate df char segment with
              | Some rate => [(segment, rate)]
              | None => []
              end)
    top_segments.

(** A cell of [pd.DataFrame(retention_by_segment).fillna(0)]. *)
Definition filled_rate (rate : list (Z * Q)) (m : Z) : Q :=
  match assoc m rate with
  | Some q => q
  | None => 0%Q
  end.

(** *** characterize_cohorts *)

Definition duree_parcours (df : list ReportRow) (r : ReportRow) : Z :=
  match series_max
          (map r_month_relatif
             (filter (fun x => id_eqb (r_id_parcours x) (r_id_parcours r))
                df)) with
  | Some m => m
  | None => r_month_relatif r
  end.

Definition df_early_churn (df : list ReportRow) : list ReportRow :=
  filter (fun r => duree_parcours df r <=? 2) df.

Definition df_standard (df : list ReportRow) : list ReportRow :=
  filter (fun r => (2 <? duree_parcours df r) && (duree_parcours df r <=? 12))
    df.

Definition df_super_loyal (df : list ReportRow) : list ReportRow :=
  filter (fun r => 12 <? duree_parcours df r) df.

Definition initial_of (rows : list ReportRow) : list ReportRow :=
  drop_duplicates id_eqb r_id_parcours
    (filter (fun r => r_month_relatif r =? 0) rows).

Definition churn_initial (df : list ReportRow) : list ReportRow :=
  initial_of (df_early_churn df).

Definition standard_initial (df : list ReportRow) : list ReportRow :=
  initial_of (df_standard df).

Definition loyal_initial (df : list ReportRow) : list ReportRow :=
  initial_of (df_super_loyal df).

End rapport_final.

(* ================================================================== *)
(** ** dashboard_retention.py *)

Module dashboard_retention.
Import Pandas.
Import Claude_retention_analysis.

Definition sum_Z (l : list Z) : Z := fold_right Z.add 0 l.

Definition rows_at (segment_df : list SegmentPoint) (value : string)
    (m : Z) : list SegmentPoint :=
  filter (fun p => String.eqb (segment_value p) value
                   && (s_mois_relatif p =? m))
    segment_df.

(** The value stored in [month_data[str(segment_value)]] by
    [prepare_segment_evolution_data]; [None] is Python's [None]. *)
Definition segment_month_rate (segment_df : list SegmentPoint)
    (value : string) (month : Z) : option Q :=
  let initial_data := rows_at segment_df value 0 in
  match initial_data with
  | [] => None
  | _ =>
      let total_initial := sum_Z (map s_clients_initiaux initial_data) in
      let month_data_seg := rows_at segment_df value month in
      match month_data_seg with
      | [] => None
      | _ =>
          let total_active := sum_Z (map s_clients_actifs month_data_seg) in
          if 0 <? total_initial then
            let retention_rate :=
              (inject_Z total_active / inject_Z total_initial * 100)%Q in
            let retention_rate := Qmin retention_rate 100 in
            let retention_rate :=
              if month =? 0 then 100%Q else retention_rate in
            Some (round1 retention_rate)
          else None
      end
  end.


(** *** prepare_retention_chart_data *)

(** The entry of one month besides its key [mois_relatif]: the value
    stored under [retention_moyenne] or under the cohort's name, none when
    the month has no row.  [selected_cohort] is [None] for ['all']. *)
Definition chart_value (retention_df : list RetentionPoint)
    (selected_cohort : option Mois) (month : Z) : Float :=
  match selected_cohort with
  | None =>
      let cohort_data :=
        filter (fun p => r_mois_relatif p =? month) retention_df in
      round2_float (series_mean (map taux_retention cohort_data))
  | Some c =>
      let cohort_data :=
        filter (fun p => mois_eqb (cohorte p) c
                         && (r_mois_relatif p =? month))
          retention_df in
      match cohort_data with
      | [] => None
      | p :: _ => Some (taux_retention p)
      end
  end.

Definition prepare_retention_chart_data (retention_df : list RetentionPoint)
    (selected_cohort : option Mois) : list (Z * Float) :=
  match retention_df with
  | [] => []
  | _ =>
      map (fun month => (month, chart_value retention_df selected_cohort month))
        (range 26)
  end.

(** *** prepare_segment_evolution_data *)

(** [pd.to_datetime(cohorte, format='%m/%Y')]: no date when the text
    names no month. *)
Definition cohorte_date (c : Mois) : option Timestamp :=
  if (1 <=? fst c) && (fst c <=? 12) then Some (mkTs (snd c) (fst c) 1)
  else None.

Definition cutoff_date (cohort_filter : string) : Timestamp :=
  if String.eqb cohort_filter "2023-12" then mkTs 2023 12 1
  else if String.eqb cohort_filter "2023-06" then mkTs 2023 6 1
  else if String.eqb cohort_filter "2022-12" then mkTs 2022 12 1
  else if String.eqb cohort_filter "2022-06" then mkTs 2022 6 1
  else mkTs 2099 12 1.

(** Step 1: the cohorts up to the cutoff; a cohort text that cannot be
    parsed raises inside the [try], which leaves the frame as it was. *)
Definition filter_cohorts (cohort_filter : string)
    (segment_df : list SegmentPoint) : list SegmentPoint :=
  if String.eqb cohort_filter "all" then segment_df
  else if forallb (fun p => match cohorte_date (s_cohorte p) with
                            | Some _ => true
                            | None => false
                            end) segment_df
  then filter (fun p => match cohorte_date (s_cohorte p) with
                        | Some d => ts_leb d (cutoff_date cohort_filter)
                        | None => false
                        end) segment_df
  else segment_df.

Definition max_months : Z := 25.

(** Step 2: the cleaning. *)
Definition clean (segment_df : list SegmentPoint) : list SegmentPoint :=
  filter (fun p => s_mois_relatif p <=? max_months)
    (filter (fun p => 0 <=? s_clients_actifs p)
       (filter (fun p => 0 <? s_clients_initiaux p) segment_df)).

(** [segment_sizes[seg]] *)
Definition segment_size (segment_df : list SegmentPoint) (value : string)
    : Z :=
  sum_Z (map s_clients_initiaux (rows_at segment_df value 0)).

(** Step 4, for the segments [main_segments] chosen in step 3. *)
Definition evolution_data (segment_df : list SegmentPoint)
    (main_segments : list string) : list (Z * list (string * option Q)) :=
  map (fun month =>
         (month,
          map (fun value => (value, segment_month_rate segment_df value month))
            main_segments))
      (range (Z.to_nat (max_months + 1))).

(** [prepare_segment_evolution_data], given the choice step 3 makes among
    the segment values that have a row at month 0. *)
Definition prepare_segment_evolution_data
    (top3 : list SegmentPoint -> list string)
    (segment_df : list SegmentPoint) (cohort_filter : string)
    : list (Z * list (string * option Q)) * list string :=
  let segment_df := clean (filter_cohorts cohort_filter segment_df) in
  match top3 segment_df with
  | [] => ([], [])
  | main_segments => (evolution_data segment_df main_segments, main_segments)
  end.

End dashboard_retention.

(* ================================================================== *)
(** ** Sample frames *)

Module Examples.
Import Pandas.

Definition rows_of {A} (r : Res (list A)) : list A :=
  match r with
  | Ok l => l
  | Err _ => []
  end.

(** *** Frames of the main script *)

Definition tx (cid sub : Z) (o e : Timestamp) (freq : string)
    : Claude_retention_analysis.Transaction :=
  Claude_retention_analysis.mkTransaction cid (Some sub) o e (Some freq)
    None None None None None None (Some 10%Q).

(** Two customers who start in 01/2023; one stays until 03/2023. *)
Definition df_small : list Claude_retention_analysis.Transaction :=
  [ tx 1 11 (mkTs 2023 1 10) (mkTs 2023 3 5) "monthly";
    tx 2 21 (mkTs 2023 1 20) (mkTs 2023 1 25) "monthly" ].

Definition monthly_small : list Claude_retention_analysis.MonthlyRow :=
  Eval vm_compute in
    rows_of (Claude_retention_analysis.create_monthly_retention_table
               df_small).

Definition points_small : list Claude_retention_analysis.RetentionPoint :=
  Eval vm_compute in
    rows_of (Claude_retention_analysis.calculate_cohort_retention
               monthly_small).

(** The point of that cohort one month after the start. *)
Definition point_small_1 : Claude_retention_analysis.RetentionPoint :=
  Eval vm_compute in
    nth 1 points_small
      (Claude_retention_analysis.mkRetentionPoint (0, 0) 0 0 0 0).

(** One customer with two overlapping subscriptions. *)
Definition df_overlap : list Claude_retention_analysis.Transaction :=
  [ tx 1 11 (mkTs 2023 1 10) (mkTs 2023 3 5) "monthly";
    tx 1 12 (mkTs 2023 2 15) (mkTs 2023 4 20) "annual" ].

Definition monthly_overlap : list Claude_retention_analysis.MonthlyRow :=
  Eval vm_compute in
    rows_of (Claude_retention_analysis.create_monthly_retention_table
               df_overlap).

(** One customer who comes back after ten months without a subscription. *)
Definition df_gap : list Claude_retention_analysis.Transaction :=
  [ tx 1 11 (mkTs 2023 1 10) (mkTs 2023 2 9) "monthly";
    tx 1 12 (mkTs 2024 1 3) (mkTs 2024 2 2) "monthly" ].

Definition monthly_gap : list Claude_retention_analysis.MonthlyRow :=
  Eval vm_compute in
    rows_of (Claude_retention_analysis.create_monthly_retention_table
               df_gap).

(** Customers 2 and 3 open with a transaction whose due date lies in the
    month before its start date. *)
Definition df_reversed : list Claude_retention_analysis.Transaction :=
  [ tx 1 11 (mkTs 2023 1 5) (mkTs 2023 1 25) "monthly";
    tx 2 21 (mkTs 2023 1 10) (mkTs 2022 12 1) "monthly";
    tx 2 22 (mkTs 2023 2 1) (mkTs 2023 3 1) "monthly";
    tx 3 31 (mkTs 2023 1 12) (mkTs 2022 12 1) "monthly";
    tx 3 32 (mkTs 2023 2 1) (mkTs 2023 3 1) "monthly" ].

Definition monthly_reversed : list Claude_retention_analysis.MonthlyRow :=
  Eval vm_compute in
    rows_of (Claude_retention_analysis.create_monthly_retention_table
               df_reversed).

(** Ten customers on an annual subscription from 01/2023 to 02/2023, and
    two who start on a monthly one in 01/2023 and take an annual one in
    02/2023.  Every due date follows its start date. *)
Definition df_segments : list Claude_retention_analysis.Transaction :=
  flat_map (fun c => [tx c (10 * c + 1) (mkTs 2023 1 5) (mkTs 2023 2 5)
                        "annual"])
    [1; 2; 3; 4; 5; 6; 7; 8; 9; 10]
  ++ flat_map (fun c => [tx c (10 * c + 1) (mkTs 2023 1 5) (mkTs 2023 1 25)
                           "monthly";
                         tx c (10 * c + 2) (mkTs 2023 2 1) (mkTs 2023 2 20)
                           "annual"])
       [11; 12].

Definition monthly_segments : list Claude_retention_analysis.MonthlyRow :=
  Eval vm_compute in
    rows_of (Claude_retention_analysis.create_monthly_retention_table
               df_segments).

(** A due date earlier in the month of the start date. *)
Definition tx_same_month : Claude_retention_analysis.Transaction :=
  tx 1 11 (mkTs 2023 1 20) (mkTs 2023 1 5) "monthly".

(** A due date two months before the start date. *)
Definition tx_earlier_month : Claude_retention_analysis.Transaction :=
  tx 1 11 (mkTs 2023 3 15) (mkTs 2023 1 10) "monthly".

(** *** Frames of the gemini pipelines *)

Definition abo (cid sub : Z) (o e : option Timestamp) (freq : string)
    : Gemini.Abonnement :=
  Gemini.mkAbonnement cid sub o e None None None None None None
    (Some freq) (Number 10).

(** A subscription from the middle of 01/2023 into 03/2023. *)
Definition abo_mid_month : Gemini.Abonnement :=
  abo 1 11 (Some (mkTs 2023 1 15)) (Some (mkTs 2023 3 10)) "monthly".

(** The same dates in the main script. *)
Definition tx_mid_month : Claude_retention_analysis.Transaction :=
  tx 1 11 (mkTs 2023 1 15) (mkTs 2023 3 10) "monthly".

(** The due date two months before the start date. *)
Definition abo_earlier_month : Gemini.Abonnement :=
  abo 1 11 (Some (mkTs 2023 3 15)) (Some (mkTs 2023 1 10)) "monthly".

(** Two subscriptions of one customer, the second starting 40 days after
    the first falls due. *)
Definition gap40_first (freq : string) : Gemini.Abonnement :=
  abo 1 11 (Some (mkTs 2023 1 1)) (Some (mkTs 2023 1 31)) freq.

Definition gap40_second (freq : string) : Gemini.Abonnement :=
  abo 1 12 (Some (mkTs 2023 3 12)) (Some (mkTs 2023 4 11)) freq.

Definition df_gap40 (freq : string) : list Gemini.Abonnement :=
  [gap40_first freq; gap40_second freq].

(** A monthly subscription with its due date, and the same without. *)
Definition abo_parsed : Gemini.Abonnement :=
  abo 1 11 (Some (mkTs 2023 1 1)) (Some (mkTs 2023 1 31)) "monthly".

Definition abo_missing : Gemini.Abonnement :=
  abo 1 11 (Some (mkTs 2023 1 1)) None "monthly".

(** A long subscription, a short one inside it, and a third one that
    starts 111 days after the short one falls due. *)
Definition df_inside : list Gemini.Abonnement :=
  [ abo 1 11 (Some (mkTs 2023 1 1)) (Some (mkTs 2024 12 31)) "annual";
    abo 1 12 (Some (mkTs 2023 2 1)) (Some (mkTs 2023 2 10)) "annual";
    abo 1 13 (Some (mkTs 2023 6 1)) (Some (mkTs 2023 6 30)) "annual" ].


(** *** Frames of the further properties *)

(** The raw row a transaction comes from. *)
Definition raw_of (t : Claude_retention_analysis.Transaction)
    : Claude_retention_analysis.RawTransaction :=
  Claude_retention_analysis.mkRawTransaction
    (Some (Claude_retention_analysis.customer_id t))
    (Claude_retention_analysis.subscription_id t)
    (Some (Claude_retention_analysis.order_date t))
    (Some (Claude_retention_analysis.echeance_date t))
    (Claude_retention_analysis.frequence t)
    (Claude_retention_analysis.type_ t)
    (Claude_retention_analysis.payment_origin t)
    (Claude_retention_analysis.psp t)
    (Claude_retention_analysis.tm_source t)
    (Claude_retention_analysis.tm_medium t)
    (Claude_retention_analysis.tm_campaign t)
    (Claude_retention_analysis.consolidated_revenues_ht_euro t).

(** The two overlapping subscriptions in the reverse order, after a row
    without a due date. *)
Definition raw_overlap : list Claude_retention_analysis.RawTransaction :=
  [ Claude_retention_analysis.mkRawTransaction (Some 1) (Some 10)
      (Some (mkTs 2022 12 1)) None (Some "monthly"%string)
      None None None None None None (Some 10%Q);
    raw_of (tx 1 12 (mkTs 2023 2 15) (mkTs 2023 4 20) "annual");
    raw_of (tx 1 11 (mkTs 2023 1 10) (mkTs 2023 3 5) "monthly") ].

(** The row of customer 1 for 02/2023. *)
Definition row_overlap_feb : Claude_retention_analysis.MonthlyRow :=
  Eval vm_compute in
    nth 1 monthly_overlap
      (Claude_retention_analysis.mkMonthlyRow 0 None (0, 0) 0 (0, 0)
         None None None None None None None None).

(** Sixty customers on an annual subscription from 01/2023 to 03/2023. *)
Definition df_large : list Claude_retention_analysis.Transaction :=
  flat_map (fun c => [tx c (10 * c + 1) (mkTs 2023 1 5) (mkTs 2023 3 5)
                        "annual"])
    (map Z.of_nat (seq 1 60)).

Definition monthly_large : list Claude_retention_analysis.MonthlyRow :=
  Eval vm_compute in
    rows_of (Claude_retention_analysis.create_monthly_retention_table
               df_large).

Definition points_large : list Claude_retention_analysis.RetentionPoint :=
  Eval vm_compute in
    rows_of (Claude_retention_analysis.calculate_cohort_retention
               monthly_large).

Definition segments_large
    : list (string * list Claude_retention_analysis.SegmentPoint) :=
  Eval vm_compute in
    Claude_retention_analysis.calculate_segmented_retention monthly_large.

(** The table of the segment [frequence]. *)
Definition frequence_large : list Claude_retention_analysis.SegmentPoint :=
  Eval vm_compute in
    match segments_large with
    | (_, points) :: _ => points
    | [] => []
    end.

Definition summaries_large
    : list Claude_retention_analysis.SegmentSummary :=
  Eval vm_compute in
    Claude_retention_analysis.summary_data frequence_large.

(** A report of three journeys: customer 1 stays three months and
    customer 2 one month on a monthly offer, customer 3 two months on an
    annual one. *)
Definition rapport_row (c m : Z) (freq : string) : rapport_final.ReportRow :=
  rapport_final.mkReportRow c (c, c) m None (Some freq) None None.

Definition report_small : list rapport_final.ReportRow :=
  [ rapport_row 1 0 "monthly"; rapport_row 1 1 "monthly";
    rapport_row 1 2 "monthly"; rapport_row 2 0 "monthly";
    rapport_row 3 0 "annual"; rapport_row 3 1 "annual" ].

(** One customer who starts in 12/2022 and one who starts in 01/2023. *)
Definition df_two_cohorts : list Claude_retention_analysis.Transaction :=
  [ tx 1 11 (mkTs 2022 12 5) (mkTs 2023 1 5) "monthly";
    tx 2 21 (mkTs 2023 1 7) (mkTs 2023 2 7) "monthly" ].

Definition monthly_two_cohorts : list Claude_retention_analysis.MonthlyRow :=
  Eval vm_compute in
    rows_of (Claude_retention_analysis.create_monthly_retention_table
               df_two_cohorts).

(** A journey of one month and, four months later, one of seven months,
    both of customer 1. *)
Definition df_two_journeys : list Gemini.Abonnement :=
  [ abo 1 11 (Some (mkTs 2023 1 1)) (Some (mkTs 2023 1 31)) "monthly";
    abo 1 12 (Some (mkTs 2023 6 1)) (Some (mkTs 2023 12 31)) "annual" ].

Definition report_two_journeys : list lancer_analyse.MonthlyRow :=
  Eval vm_compute in
    rows_of (lancer_analyse.create_monthly_report df_two_journeys).

Definition report_inside : list lancer_analyse.MonthlyRow :=
  Eval vm_compute in
    rows_of (lancer_analyse.create_monthly_report df_inside).

End Examples.

(* ================================================================== *)
(** * Properties *)

(** ** Facts on the pandas operations *)

Section SeriesFacts.
Import Pandas.
Context {A K : Type}.
Variable key_eqb : K -> K -> bool.
Hypothesis key_eqb_spec : forall a b, key_eqb a b = true <-> a = b.
Variable key : A -> K.

Lemma isin_In (k : K) (seen : list K) :
  isin key_eqb k seen = true <-> In k seen.
Proof.
  unfold isin. rewrite existsb_exists. split.
  - intros [x [Hx Hk]]. apply key_eqb_spec in Hk. now subst.
  - intros H. exists k. split; [assumption | now apply key_eqb_spec].
Qed.

Lemma isin_false (k : K) (seen : list K) :
  isin key_eqb k seen = false <-> ~ In k seen.
Proof.
  rewrite <- isin_In. destruct (isin key_eqb k seen); split; congruence.
Qed.

Lemma first_seen_In (x : A) (l : list A) : forall seen,
  In x (first_seen key_eqb key seen l) -> In x l /\ ~ In (key x) seen.
Proof.
  induction l as [|y t IH]; intros seen H; simpl in *; [contradiction|].
  destruct (isin key_eqb (key y) seen) eqn:E.
  - apply IH in H. tauto.
  - destruct H as [-> | H].
    + split; [now left | now apply isin_false].
    + apply IH in H. destruct H as [H1 H2]. split; [now right|].
      intros H3. apply H2. now right.
Qed.

Lemma first_seen_keys (x : A) (l : list A) : forall seen,
  In x l -> ~ In (key x) seen ->
  exists y, In y (first_seen key_eqb key seen l) /\ key y = key x.
Proof.
  induction l as [|z t IH]; intros seen H Hs; simpl in *; [contradiction|].
  destruct (isin key_eqb (key z) seen) eqn:E.
  - destruct H as [-> | H].
    + apply isin_In in E. contradiction.
    + now apply IH.
  - destruct H as [-> | H].
    + exists x. split; [now left | reflexivity].
    + destruct (key_eqb (key z) (key x)) eqn:Ek.
      * apply key_eqb_spec in Ek. exists z. split; [now left | assumption].
      * destruct (IH (key z :: seen) H) as [y [Hy Hk]].
        { intros [Hc | Hc]; [|contradiction].
          apply key_eqb_spec in Hc. congruence. }
        exists y. split; [now right | assumption].
Qed.

Lemma first_seen_NoDup (l : list A) : forall seen,
  NoDup (map key (first_seen key_eqb key seen l)).
Proof.
  induction l as [|x t IH]; intros seen; simpl; [constructor|].
  destruct (isin key_eqb (key x) seen); [apply IH|].
  simpl. constructor; [|apply IH].
  rewrite in_map_iff. intros [y [Hk Hy]].
  apply first_seen_In in Hy. destruct Hy as [_ Hn].
  apply Hn. left. now symmetry.
Qed.

(** Rows met again, or whose key is already known, change nothing. *)
Lemma first_seen_skip (l : list A) : forall seen,
  (forall x, In x l -> In (key x) seen) ->
  first_seen key_eqb key seen l = [].
Proof.
  induction l as [|x t IH]; intros seen H; simpl; [reflexivity|].
  assert (E : isin key_eqb (key x) seen = true).
  { apply isin_In, H. now left. }
  rewrite E. apply IH. intros y Hy. apply H. now right.
Qed.

Lemma first_seen_app (l l' : list A) : forall seen,
  first_seen key_eqb key seen (l ++ l')
  = first_seen key_eqb key seen l
    ++ first_seen key_eqb key (rev (map key (first_seen key_eqb key seen l))
                               ++ seen) l'.
Proof.
  induction l as [|x t IH]; intros seen; simpl; [reflexivity|].
  destruct (isin key_eqb (key x) seen) eqn:E; [apply IH|].
  simpl. rewrite IH. f_equal. f_equal.
  rewrite <- app_assoc. reflexivity.
Qed.

Lemma first_seen_fixed (l : list A) : forall seen,
  first_seen key_eqb key seen (first_seen key_eqb key seen l)
  = first_seen key_eqb key seen l.
Proof.
  induction l as [|x t IH]; intros seen; simpl; [reflexivity|].
  destruct (isin key_eqb (key x) seen) eqn:E; [apply IH|].
  simpl. rewrite E. f_equal.
  apply IH.
Qed.

(** What is kept is the first row of its key. *)
Lemma first_seen_first (x : A) (l : list A) : forall seen,
  In x (first_seen key_eqb key seen l) ->
  exists l1 l2, l = l1 ++ x :: l2
                /\ forall y, In y l1 -> key y <> key x.
Proof.
  induction l as [|z t IH]; intros seen H; simpl in *; [contradiction|].
  destruct (isin key_eqb (key z) seen) eqn:E.
  - destruct (IH _ H) as [l1 [l2 [-> Hl]]].
    exists (z :: l1), l2. split; [reflexivity|].
    intros y [<- | Hy]; [|now apply Hl].
    apply first_seen_In in H. destruct H as [_ Hn].
    apply isin_In in E. congruence.
  - destruct H as [-> | H].
    + exists [], t. split; [reflexivity | intros y []].
    + destruct (IH _ H) as [l1 [l2 [-> Hl]]].
      exists (z :: l1), l2. split; [reflexivity|].
      intros y [<- | Hy]; [|now apply Hl].
      apply first_seen_In in H. destruct H as [_ Hn].
      intros Hk. apply Hn. now left.
Qed.

Lemma drop_duplicates_In (x : A) (l : list A) :
  In x (drop_duplicates key_eqb key l) -> In x l.
Proof. intros H. now apply first_seen_In in H. Qed.

Lemma drop_duplicates_keys (x : A) (l : list A) :
  In x l -> exists y, In y (drop_duplicates key_eqb key l) /\ key y = key x.
Proof. intros H. apply first_seen_keys; [assumption | intros []]. Qed.

Lemma drop_duplicates_twice (l : list A) :
  drop_duplicates key_eqb key (l ++ l) = drop_duplicates key_eqb key l.
Proof.
  unfold drop_duplicates. rewrite first_seen_app.
  rewrite (first_seen_skip l (rev (map key (first_seen key_eqb key [] l))
                              ++ [])); [now rewrite app_nil_r|].
  intros x Hx. rewrite app_nil_r, <- in_rev.
  destruct (first_seen_keys x l [] Hx) as [y [Hy Hk]]; [intros []|].
  rewrite <- Hk. now apply in_map.
Qed.
End SeriesFacts.

Section UniqueFacts.
Import Pandas.
Context {K : Type}.
Variable key_eqb : K -> K -> bool.
Hypothesis key_eqb_spec : forall a b, key_eqb a b = true <-> a = b.

Lemma unique_In (k : K) (l : list K) : In k (unique key_eqb l) <-> In k l.
Proof.
  unfold unique. split.
  - apply (drop_duplicates_In key_eqb key_eqb_spec).
  - intros H.
    destruct (drop_duplicates_keys key_eqb key_eqb_spec (fun k => k) k l H)
      as [y [Hy Hk]].
    simpl in Hk. now subst.
Qed.

Lemma unique_NoDup (l : list K) : NoDup (unique key_eqb l).
Proof.
  unfold unique, drop_duplicates.
  rewrite <- (map_id (first_seen key_eqb (fun k => k) [] l)).
  apply (first_seen_NoDup key_eqb key_eqb_spec).
Qed.

(** Fewer distinct values in a column whose values all occur in the
    other. *)
Lemma nunique_incl (l l' : list K) :
  incl l l' -> nunique key_eqb l <= nunique key_eqb l'.
Proof.
  intros H. unfold nunique. apply inj_le.
  apply NoDup_incl_length; [apply unique_NoDup|].
  intros k Hk. apply unique_In, H. exact (proj1 (unique_In k l) Hk).
Qed.

Lemma nunique_pos (k : K) (l : list K) : In k l -> 0 < nunique key_eqb l.
Proof.
  intros H. apply unique_In in H. unfold nunique.
  destruct (unique key_eqb l); [contradiction | simpl; lia].
Qed.

Lemma nunique_zero (l : list K) : nunique key_eqb l = 0 -> l = [].
Proof.
  intros H. destruct l as [|k t]; [reflexivity|].
  assert (0 < nunique key_eqb (k :: t)) by (apply (nunique_pos k); now left).
  lia.
Qed.
End UniqueFacts.

Section SortFacts.
Import Pandas.
Context {A : Type}.
Variable leb : A -> A -> bool.

Lemma insert_sorted_perm (x : A) (l : list A) :
  Permutation (x :: l) (insert_sorted leb x l).
Proof.
  induction l as [|y t IH]; simpl; [reflexivity|].
  destruct (leb x y); [reflexivity|].
  rewrite perm_swap. now apply perm_skip.
Qed.

Lemma sort_values_perm (l : list A) : Permutation l (sort_values leb l).
Proof.
  induction l as [|x t IH]; simpl; [reflexivity|].
  rewrite <- insert_sorted_perm. now apply perm_skip.
Qed.

Lemma sort_values_In (x : A) (l : list A) :
  In x (sort_values leb l) <-> In x l.
Proof.
  split; apply Permutation_in;
    [symmetry|]; apply sort_values_perm.
Qed.

Hypothesis leb_total : forall a b, leb a b = true \/ leb b a = true.
Hypothesis leb_trans :
  forall a b c, leb a b = true -> leb b c = true -> leb a c = true.

Let le (a b : A) : Prop := leb a b = true.

Lemma insert_sorted_sorted (x : A) (l : list A) :
  StronglySorted le l -> StronglySorted le (insert_sorted leb x l).
Proof.
  induction 1 as [|y t Ht IH Hy]; simpl.
  - constructor; constructor.
  - destruct (leb x y) eqn:E.
    + constructor; [constructor; assumption|].
      constructor; [exact E|].
      rewrite Forall_forall in *. intros z Hz.
      eapply leb_trans; [exact E | now apply Hy].
    + constructor; [assumption|].
      rewrite Forall_forall in *. intros z Hz.
      apply (Permutation_in _ (Permutation_sym (insert_sorted_perm x t)))
        in Hz.
      destruct Hz as [<- | Hz]; [|now apply Hy].
      destruct (leb_total x y) as [H' | H']; [congruence | exact H'].
Qed.

Lemma sort_values_sorted (l : list A) :
  StronglySorted le (sort_values leb l).
Proof.
  induction l as [|x t IH]; simpl; [constructor|].
  now apply insert_sorted_sorted.
Qed.
End SortFacts.

(** ** Rounding *)

Section RoundingFacts.
Import Pandas.

Lemma round_half_even_le (x : Q) (n : Z) :
  (x <= inject_Z n)%Q -> round_half_even x <= n.
Proof.
  intros H. unfold round_half_even.
  assert (Hf : Qfloor x <= n).
  { rewrite <- (Qfloor_Z n). now apply Qfloor_resp_le. }
  assert (Hn : Qfloor x = n -> (x - inject_Z (Qfloor x) ?= 1 # 2)%Q = Lt).
  { intros E. rewrite E. apply (proj1 (Qlt_alt _ _)).
    revert H. generalize (inject_Z n). intros q H. lra. }
  destruct (Z.eq_dec (Qfloor x) n) as [E | E].
  - rewrite (Hn E). lia.
  - destruct (x - inject_Z (Qfloor x) ?= 1 # 2)%Q;
      [destruct (Z.even (Qfloor x))|..]; lia.
Qed.

Lemma round_half_even_inject (x : Q) (n : Z) :
  (x == inject_Z n)%Q -> round_half_even x = n.
Proof.
  intros H. unfold round_half_even.
  assert (Hf : Qfloor x = n).
  { rewrite <- (Qfloor_Z n). now apply Qfloor_comp. }
  rewrite Hf.
  assert (E : (x - inject_Z n ?= 1 # 2)%Q = Lt).
  { apply (proj1 (Qlt_alt _ _)).
    revert H. generalize (inject_Z n). intros q H. lra. }
  now rewrite E.
Qed.

Lemma round2_100 (x : Q) : (x == 100)%Q -> (round2 x == 100)%Q.
Proof.
  intros H. unfold round2.
  rewrite (round_half_even_inject (x * 100) 10000).
  - reflexivity.
  - rewrite H. reflexivity.
Qed.

Lemma round2_le_100 (x : Q) : (x <= 100)%Q -> (round2 x <= 100)%Q.
Proof.
  intros H. unfold round2.
  assert (Hr : round_half_even (x * 100) <= 10000).
  { apply round_half_even_le. change (inject_Z 10000) with 10000%Q. lra. }
  apply Qle_shift_div_r; [reflexivity|].
  change (100 * 100)%Q with (inject_Z 10000).
  now rewrite <- Zle_Qle.
Qed.

Lemma round1_le_100 (x : Q) : (x <= 100)%Q -> (round1 x <= 100)%Q.
Proof.
  intros H. unfold round1.
  assert (Hr : round_half_even (x * 10) <= 1000).
  { apply round_half_even_le. change (inject_Z 1000) with 1000%Q. lra. }
  apply Qle_shift_div_r; [reflexivity|].
  change (100 * 10)%Q with (inject_Z 1000).
  now rewrite <- Zle_Qle.
Qed.

Lemma Qmin_le_r (a b : Q) : (Qmin a b <= b)%Q.
Proof.
  unfold Qmin. destruct (Qle_bool a b) eqn:E.
  - now apply Qle_bool_iff.
  - apply Qle_refl.
Qed.

(** The rate of a full population. *)
Lemma rate_full (n : Z) :
  n <> 0 -> (inject_Z n / inject_Z n * 100 == 100)%Q.
Proof.
  intros H. field. intros E.
  apply H. rewrite <- (Qfloor_Z n). rewrite E. reflexivity.
Qed.

Lemma rate_le_100 (a n : Z) :
  0 < n -> a <= n -> (inject_Z a / inject_Z n * 100 <= 100)%Q.
Proof.
  intros Hn Ha.
  assert (H1 : (inject_Z a / inject_Z n <= 1)%Q).
  { apply Qle_shift_div_r.
    - change 0%Q with (inject_Z 0). now rewrite <- Zlt_Qlt.
    - rewrite Qmult_1_l. now rewrite <- Zle_Qle. }
  lra.
Qed.
End RoundingFacts.

(** ** Claude_retention_analysis.py: the retention calculator *)

Section CohortRetention.
Import Pandas Claude_retention_analysis.

Lemma mois_eqb_spec (a b : Mois) : mois_eqb a b = true <-> a = b.
Proof.
  destruct a as [a1 a2], b as [b1 b2]. unfold mois_eqb. simpl.
  rewrite andb_true_iff, !Z.eqb_eq. split.
  - intros [-> ->]. reflexivity.
  - intros E. injection E as -> ->. split; reflexivity.
Qed.

(** Every customer active at offset [m] of [data] is also among those
    active at offset 0. *)
Definition covered (data : list MonthlyRow) (m : Z) : Prop :=
  forall r, In r data -> mois_relatif r = m ->
    exists r0, In r0 data /\ m_customer_id r0 = m_customer_id r
               /\ mois_relatif r0 = 0.

Lemma customers_at_le (data : list MonthlyRow) (m : Z) :
  covered data m -> customers_at data m <= customers_at data 0.
Proof.
  intros H. unfold customers_at.
  apply (nunique_incl Z.eqb Z.eqb_eq).
  intros c Hc. apply in_map_iff in Hc. destruct Hc as [r [<- Hr]].
  apply filter_In in Hr. destruct Hr as [Hr Hm].
  apply Z.eqb_eq in Hm.
  destruct (H r Hr Hm) as [r0 [H0 [Hc H0m]]].
  rewrite <- Hc. apply in_map. apply filter_In. split; [assumption|].
  now apply Z.eqb_eq.
Qed.

Lemma customers_at_nonzero (data : list MonthlyRow) (m : Z) :
  customers_at data m <> 0 <-> exists r, In r data /\ mois_relatif r = m.
Proof.
  unfold customers_at. split.
  - intros H.
    destruct (filter (fun r => mois_relatif r =? m) data) as [|r t] eqn:E.
    + exfalso. apply H. reflexivity.
    + exists r. assert (Hr : In r (r :: t)) by now left.
      rewrite <- E in Hr. apply filter_In in Hr.
      destruct Hr as [Hr Hm]. split; [assumption | now apply Z.eqb_eq].
  - intros [r [Hr Hm]] E.
    apply (nunique_zero Z.eqb Z.eqb_eq) in E.
    assert (Hin : In (m_customer_id r)
                    (map m_customer_id
                       (filter (fun r => mois_relatif r =? m) data))).
    { apply in_map, filter_In. split; [assumption | now apply Z.eqb_eq]. }
    rewrite E in Hin. contradiction.
Qed.

Lemma customers_at_nonneg (data : list MonthlyRow) (m : Z) :
  0 <= customers_at data m.
Proof. unfold customers_at, nunique. lia. Qed.

(** The points computed for one cohort. *)
Lemma cohort_points_In (monthly_df : list MonthlyRow) (cohort : Mois)
    (p : RetentionPoint) :
  In p (cohort_points monthly_df cohort) <->
  let data := cohort_rows monthly_df cohort in
  customers_at data 0 <> 0
  /\ In (r_mois_relatif p) (map mois_relatif data)
  /\ p = {| cohorte := cohort;
            r_mois_relatif := r_mois_relatif p;
            clients_initiaux := customers_at data 0;
            clients_actifs := customers_at data (r_mois_relatif p);
            taux_retention :=
              round2 (inject_Z (customers_at data (r_mois_relatif p))
                      / inject_Z (customers_at data 0) * 100) |}.
Proof.
  unfold cohort_points. cbv zeta.
  destruct (customers_at (cohort_rows monthly_df cohort) 0 =? 0) eqn:E.
  - apply Z.eqb_eq in E. split; [intros [] | intros [H _]; contradiction].
  - apply Z.eqb_neq in E. rewrite in_map_iff. split.
    + intros [m [<- Hm]]. simpl.
      rewrite sort_values_In, (unique_In Z.eqb Z.eqb_eq) in Hm.
      repeat split; assumption.
    + intros [_ [Hm Hp]]. exists (r_mois_relatif p).
      split; [now symmetry|].
      now rewrite sort_values_In, (unique_In Z.eqb Z.eqb_eq).
Qed.

Lemma retention_results_In (monthly_df : list MonthlyRow)
    (p : RetentionPoint) :
  In p (retention_results monthly_df) <->
  In (cohorte p) (map date_debut_parcours monthly_df)
  /\ In p (cohort_points monthly_df (cohorte p)).
Proof.
  unfold retention_results. rewrite in_flat_map. split.
  - intros [c [Hc Hp]]. rewrite (unique_In mois_eqb mois_eqb_spec) in Hc.
    assert (E : cohorte p = c).
    { apply cohort_points_In in Hp. destruct Hp as [_ [_ ->]]. reflexivity. }
    rewrite E. split; assumption.
  - intros [Hc Hp]. exists (cohorte p).
    split; [now rewrite (unique_In mois_eqb mois_eqb_spec) | assumption].
Qed.

Lemma calculate_cohort_retention_In (monthly_df : list MonthlyRow)
    (points : list RetentionPoint) (p : RetentionPoint) :
  calculate_cohort_retention monthly_df = Ok points ->
  (In p points <-> In p (retention_results monthly_df)).
Proof.
  unfold calculate_cohort_retention.
  destruct (retention_results monthly_df) as [|q t] eqn:E; [discriminate|].
  intros H. injection H as <-.
  exact (sort_values_In point_leb p (q :: t)).
Qed.

(** The function raises only when no cohort has a customer at offset 0. *)
Lemma calculate_cohort_retention_Ok (monthly_df : list MonthlyRow) :
  (exists r, In r monthly_df /\ mois_relatif r = 0) ->
  exists points, calculate_cohort_retention monthly_df = Ok points.
Proof.
  intros [r [Hr Hm]]. unfold calculate_cohort_retention.
  destruct (retention_results monthly_df) as [|q t] eqn:E;
    [|eexists; reflexivity].
  exfalso.
  set (c := date_debut_parcours r).
  set (data := cohort_rows monthly_df c).
  assert (Hd : In r data).
  { apply filter_In. split; [assumption | now apply mois_eqb_spec]. }
  assert (H0 : customers_at data 0 <> 0).
  { apply customers_at_nonzero. now exists r. }
  set (p := {| cohorte := c; r_mois_relatif := 0;
               clients_initiaux := customers_at data 0;
               clients_actifs := customers_at data 0;
               taux_retention :=
                 round2 (inject_Z (customers_at data 0)
                         / inject_Z (customers_at data 0) * 100) |}).
  assert (Hp : In p (retention_results monthly_df)).
  { apply retention_results_In. split.
    - simpl. now apply in_map.
    - apply cohort_points_In. simpl. repeat split; [assumption|].
      rewrite <- Hm. now apply in_map. }
  rewrite E in Hp. contradiction.
Qed.

(** C1. Every retention point at relative month 0 that
    [calculate_cohort_retention] emits counts as active exactly the initial
    population and carries the rate 100; and every cohort of the table
    whose initial population is not zero has such a point. *)
Theorem retention_at_month_zero (monthly_df : list MonthlyRow)
    (points : list RetentionPoint) :
  calculate_cohort_retention monthly_df = Ok points ->
  (forall p, In p points -> r_mois_relatif p = 0 ->
     clients_actifs p = clients_initiaux p
     /\ (taux_retention p == 100)%Q)
  /\ (forall cohort,
        In cohort (map date_debut_parcours monthly_df) ->
        customers_at (cohort_rows monthly_df cohort) 0 <> 0 ->
        exists p, In p points /\ cohorte p = cohort /\ r_mois_relatif p = 0
                  /\ clients_initiaux p
                     = customers_at (cohort_rows monthly_df cohort) 0
                  /\ (taux_retention p == 100)%Q).
Proof.
  intros Hok. split.
  - intros p Hp H0.
    apply (calculate_cohort_retention_In _ _ _ Hok) in Hp.
    apply retention_results_In in Hp. destruct Hp as [_ Hp].
    apply cohort_points_In in Hp. cbv zeta in Hp.
    destruct Hp as [Hn [_ Hp]]. rewrite H0 in Hp. rewrite Hp. simpl.
    split; [reflexivity|].
    apply round2_100, rate_full. assumption.
  - intros cohort Hc Hn.
    set (data := cohort_rows monthly_df cohort).
    set (p := {| cohorte := cohort; r_mois_relatif := 0;
                 clients_initiaux := customers_at data 0;
                 clients_actifs := customers_at data 0;
                 taux_retention :=
                   round2 (inject_Z (customers_at data 0)
                           / inject_Z (customers_at data 0) * 100) |}).
    exists p. simpl. repeat split.
    + apply (calculate_cohort_retention_In _ _ _ Hok).
      apply retention_results_In. split; [assumption|].
      apply cohort_points_In. simpl. repeat split; [assumption|].
      apply customers_at_nonzero in Hn. destruct Hn as [r [Hr Hm]].
      rewrite <- Hm. now apply in_map.
    + apply round2_100, rate_full. assumption.
Qed.
End CohortRetention.

Section SegmentedRetention.
Import Pandas Claude_retention_analysis.

Lemma cohort_segment_points_In (name value : string)
    (segment_data : list MonthlyRow) (cohort : Mois) (p : SegmentPoint) :
  In p (cohort_segment_points name value segment_data cohort) ->
  let data := cohort_rows segment_data cohort in
  10 <= customers_at data 0
  /\ segment_value p = value /\ s_cohorte p = cohort
  /\ s_clients_initiaux p = customers_at data 0
  /\ s_clients_actifs p = customers_at data (s_mois_relatif p)
  /\ s_taux_retention p
     = round2 (inject_Z (customers_at data (s_mois_relatif p))
               / inject_Z (customers_at data 0) * 100).
Proof.
  unfold cohort_segment_points. cbv zeta.
  destruct (customers_at (cohort_rows segment_data cohort) 0 <? 10) eqn:E;
    [intros []|].
  apply Z.ltb_ge in E. rewrite in_map_iff.
  intros [m [<- _]]. simpl. repeat split. assumption.
Qed.

Lemma segment_retention_In (name : string)
    (column : MonthlyRow -> option string) (monthly_df : list MonthlyRow)
    (p : SegmentPoint) :
  In p (segment_retention name column monthly_df) ->
  In p (cohort_segment_points name (segment_value p)
          (segment_rows column monthly_df (segment_value p)) (s_cohorte p)).
Proof.
  unfold segment_retention. rewrite in_flat_map.
  intros [value [_ Hp]]. rewrite in_flat_map in Hp.
  destruct Hp as [cohort [_ Hp]].
  destruct (cohort_segment_points_In _ _ _ _ _ Hp) as [_ [Hv [Hc _]]].
  rewrite Hv, Hc. assumption.
Qed.

Lemma calculate_segmented_retention_In (monthly_df : list MonthlyRow)
    (name : string) (points : list SegmentPoint) :
  In (name, points) (calculate_segmented_retention monthly_df) ->
  exists column, In (name, column) segments
                 /\ points = segment_retention name column monthly_df.
Proof.
  unfold calculate_segmented_retention. rewrite in_flat_map.
  intros [[n column] [Hs Hp]]. simpl in Hp.
  destruct (segment_retention n column monthly_df) eqn:E; [contradiction|].
  destruct Hp as [Hp | []]. injection Hp as -> <-.
  exists column. split; [assumption | now symmetry].
Qed.

Lemma segments_column (name : string)
    (c c' : MonthlyRow -> option string) :
  In (name, c) segments -> In (name, c') segments -> c = c'.
Proof.
  unfold segments. simpl. intros H H'.
  destruct H as [H | [H | [H | [H | [H | []]]]]];
    destruct H' as [H' | [H' | [H' | [H' | [H' | []]]]]];
    inversion H; inversion H'; subst; try reflexivity; discriminate.
Qed.

Lemma segment_month_rate_le (segment_df : list SegmentPoint)
    (value : string) (month : Z) (q : Q) :
  dashboard_retention.segment_month_rate segment_df value month = Some q ->
  (q <= 100)%Q.
Proof.
  unfold dashboard_retention.segment_month_rate. cbv zeta.
  destruct (dashboard_retention.rows_at segment_df value 0); [discriminate|].
  destruct (dashboard_retention.rows_at segment_df value month);
    [discriminate|].
  match goal with |- context [0 <? ?t] => destruct (0 <? t) end;
    [|discriminate].
  intros H. injection H as <-. apply round1_le_100.
  destruct (month =? 0); [apply Qle_refl | apply Qmin_le_r].
Qed.

End SegmentedRetention.

(** ** Calendar facts *)

Section CalendarFacts.
Import Pandas.

Definition valid_month (t : Timestamp) : Prop := 1 <= month t <= 12.

Lemma valid_ts_month (t : Timestamp) : valid_ts t -> valid_month t.
Proof. intros [H _]. exact H. Qed.

Lemma ts_ltb_iff (a b : Timestamp) :
  ts_ltb a b = true <->
  year a < year b
  \/ (year a = year b
      /\ (month a < month b \/ (month a = month b /\ day a < day b))).
Proof.
  unfold ts_ltb.
  rewrite !orb_true_iff, !andb_true_iff, !orb_true_iff, !andb_true_iff,
    !Z.ltb_lt, !Z.eqb_eq.
  reflexivity.
Qed.

Lemma ts_leb_iff (a b : Timestamp) :
  ts_leb a b = true <->
  year a < year b
  \/ (year a = year b
      /\ (month a < month b \/ (month a = month b /\ day a <= day b))).
Proof.
  unfold ts_leb. rewrite negb_true_iff, <- not_true_iff_false, ts_ltb_iff.
  lia.
Qed.

Lemma ts_leb_refl (a : Timestamp) : ts_leb a a = true.
Proof. apply ts_leb_iff. lia. Qed.

Lemma ts_leb_trans (a b c : Timestamp) :
  ts_leb a b = true -> ts_leb b c = true -> ts_leb a c = true.
Proof. rewrite !ts_leb_iff. lia. Qed.

Lemma ts_leb_total (a b : Timestamp) :
  ts_leb a b = true \/ ts_leb b a = true.
Proof. rewrite !ts_leb_iff. lia. Qed.

Lemma ts_ltb_leb (a b : Timestamp) :
  ts_ltb a b = true -> ts_leb a b = true.
Proof. rewrite ts_ltb_iff, ts_leb_iff. lia. Qed.

Lemma ts_ltb_false_leb (a b : Timestamp) :
  ts_ltb a b = false -> ts_leb b a = true.
Proof. unfold ts_leb. intros ->. reflexivity. Qed.

(** On first days of month, the order of timestamps is the order of months. *)
Lemma ts_leb_months (a b : Timestamp) :
  valid_month a -> valid_month b -> day a = day b ->
  (ts_leb a b = true <-> 0 <= months_from a b).
Proof.
  unfold valid_month, months_from. intros Ha Hb Hd.
  rewrite ts_leb_iff. lia.
Qed.

Lemma ts_leb_months_false (a b : Timestamp) :
  valid_month a -> valid_month b -> day a = day b ->
  (ts_leb a b = false <-> months_from a b < 0).
Proof.
  intros Ha Hb Hd. rewrite <- not_true_iff_false, ts_leb_months by assumption.
  lia.
Qed.

Lemma next_month_valid (t : Timestamp) :
  valid_month t -> valid_month (next_month t).
Proof.
  unfold valid_month, next_month. intros H.
  destruct (month t =? 12) eqn:E; simpl; [lia|].
  apply Z.eqb_neq in E. lia.
Qed.

Lemma next_month_day (t : Timestamp) : day (next_month t) = day t.
Proof. unfold next_month. destruct (month t =? 12); reflexivity. Qed.

Lemma months_from_next (a b : Timestamp) :
  months_from (next_month a) b = months_from a b - 1.
Proof.
  unfold months_from, next_month.
  destruct (month a =? 12) eqn:E; cbn [year month];
    [apply Z.eqb_eq in E|]; lia.
Qed.

(** Two timestamps of the same month and day are the same. *)
Lemma months_from_zero (a b : Timestamp) :
  valid_month a -> valid_month b -> day a = day b ->
  months_from a b = 0 -> a = b.
Proof.
  destruct a as [ya ma da], b as [yb mb db].
  unfold valid_month, months_from. simpl. intros Ha Hb Hd H.
  assert (ya = yb) by lia. assert (ma = mb) by lia. congruence.
Qed.

(** The months of a range: those of the same day of month that lie
    0, 1, ..., n - 1 months after the first. *)
Lemma iter_months_In (n : nat) : forall (t ts : Timestamp),
  valid_month t ->
  (In ts (iter_months t n) <->
   valid_month ts /\ day ts = day t
   /\ 0 <= months_from t ts < Z.of_nat n).
Proof.
  induction n as [|n IH]; intros t ts Ht; simpl iter_months.
  - split; [intros [] | lia].
  - simpl In. rewrite (IH (next_month t) ts (next_month_valid t Ht)).
    rewrite next_month_day, months_from_next. split.
    + intros [<- | [Hv [Hd Hm]]].
      * split; [assumption | split; [reflexivity|]].
        unfold months_from. lia.
      * split; [assumption | split; [assumption | lia]].
    + intros [Hv [Hd Hm]].
      destruct (Z.eq_dec (months_from t ts) 0) as [E | E].
      * left. symmetry in Hd. now apply months_from_zero.
      * right. split; [assumption | split; [assumption | lia]].
Qed.

Lemma iter_months_NoDup (n : nat) : forall t,
  valid_month t -> NoDup (iter_months t n).
Proof.
  induction n as [|n IH]; intros t Ht; simpl; constructor.
  - rewrite (iter_months_In n (next_month t) t (next_month_valid t Ht)).
    rewrite months_from_next. unfold months_from. lia.
  - apply IH, next_month_valid, Ht.
Qed.

Lemma iter_months_length (n : nat) (t : Timestamp) :
  List.length (iter_months t n) = n.
Proof. revert t. induction n; intros t; simpl; congruence. Qed.

(** The k-th month of a range lies k months after the first. *)
Lemma iter_months_nth (n : nat) : forall (t : Timestamp) (k : nat),
  (k < n)%nat ->
  months_from t (nth k (iter_months t n) t) = Z.of_nat k.
Proof.
  induction n as [|n IH]; intros t k Hk; [lia|].
  destruct k as [|k]; simpl.
  - unfold months_from. lia.
  - rewrite (nth_indep _ t (next_month t))
      by (rewrite iter_months_length; lia).
    pose proof (IH (next_month t) k ltac:(lia)) as H.
    rewrite months_from_next in H. lia.
Qed.

Lemma strftime_mY_inj (a b : Timestamp) :
  day a = day b -> strftime_mY a = strftime_mY b -> a = b.
Proof.
  destruct a, b. unfold strftime_mY. simpl. intros -> E.
  injection E as -> ->. reflexivity.
Qed.
(** *** Day numbers *)

Lemma is_leap_iff (y : Z) :
  _is_leap y = true <-> (y mod 4 = 0 /\ (y mod 100 <> 0 \/ y mod 400 = 0)).
Proof.
  unfold _is_leap.
  rewrite andb_true_iff, orb_true_iff, negb_true_iff, !Z.eqb_eq, Z.eqb_neq.
  reflexivity.
Qed.

Lemma days_before_year_succ (y : Z) :
  _days_before_year (y + 1)
  = _days_before_year y + 365 + (if _is_leap y then 1 else 0).
Proof.
  unfold _days_before_year. cbv zeta.
  replace (y + 1 - 1) with y by lia.
  destruct (_is_leap y) eqn:L.
  - apply is_leap_iff in L. Z.div_mod_to_equations. lia.
  - apply not_true_iff_false in L. rewrite is_leap_iff in L.
    Z.div_mod_to_equations. lia.
Qed.

(** The day after a calendar day is a calendar day, numbered one more. *)
Lemma next_day_toordinal (t : Timestamp) :
  valid_ts t ->
  valid_ts (next_day t) /\ toordinal (next_day t) = toordinal t + 1.
Proof.
  destruct t as [y m d]. unfold valid_ts, next_day, toordinal.
  cbn [year month day]. intros [Hm Hd].
  destruct (d <? _days_in_month y m) eqn:E.
  - apply Z.ltb_lt in E. cbn [year month day]. lia.
  - apply Z.ltb_ge in E. assert (Hd' : d = _days_in_month y m) by lia.
    destruct (m <? 12) eqn:E12.
    + apply Z.ltb_lt in E12. cbn [year month day].
      assert (Hc : m = 1 \/ m = 2 \/ m = 3 \/ m = 4 \/ m = 5 \/ m = 6
                   \/ m = 7 \/ m = 8 \/ m = 9 \/ m = 10 \/ m = 11) by lia.
      unfold _days_before_month.
      destruct Hc
        as [-> | [-> | [-> | [-> | [-> | [-> | [-> | [-> | [-> | [-> | ->]]]]]]]]]];
        subst d; cbn; destruct (_is_leap y); cbn; lia.
    + apply Z.ltb_ge in E12. assert (m = 12) by lia. subst m.
      cbn [year month day]. rewrite days_before_year_succ.
      subst d. unfold _days_before_month. cbn.
      destruct (_is_leap y); cbn; lia.
Qed.

(** [t + pd.Timedelta(days=n)] is the calendar day [n] days after [t]. *)
Lemma add_days_toordinal (n : nat) : forall t,
  valid_ts t ->
  valid_ts (add_days t n)
  /\ days_between (add_days t n) t = Z.of_nat n.
Proof.
  unfold days_between.
  induction n as [|n IH]; intros t Ht; cbn [add_days].
  - split; [assumption | lia].
  - destruct (next_day_toordinal t Ht) as [Hv Hn].
    destruct (IH (next_day t) Hv) as [Hv' Hd].
    split; [assumption | lia].
Qed.
End CalendarFacts.

(** ** Claude_retention_analysis.py: the monthly expander *)

Section Expander.
Import Pandas Claude_retention_analysis.

Definition valid_transaction (t : Transaction) : Prop :=
  valid_ts (order_date t) /\ valid_ts (echeance_date t).

(** The first days of the months a transaction covers. *)
Definition months_of (t : Transaction) : list Timestamp :=
  iter_months (month_start (order_date t))
    (loop_bound (month_start (order_date t))
       (month_start (echeance_date t))).

Lemma flat_mapM_Ok {A B} (f : A -> Res (list B)) (g : A -> list B)
    (l : list A) :
  (forall x, In x l -> f x = Ok (g x)) ->
  flat_mapM f l = Ok (flat_map g l).
Proof.
  induction l as [|x t IH]; intros H; simpl; [reflexivity|].
  rewrite (H x) by now left. simpl.
  rewrite IH by (intros y Hy; apply H; now right).
  reflexivity.
Qed.

(** The loop stops, within the bound it is given, after the month of the
    due date. *)
Lemma while_months_spec (cid : Z) (jsm : Timestamp) (t : Transaction)
    (end_month : Timestamp) (fuel : nat) : forall current_month,
  valid_month current_month -> valid_month end_month ->
  day current_month = day end_month ->
  (Z.to_nat (months_from current_month end_month + 1) <= fuel)%nat ->
  while_months fuel cid jsm t current_month end_month
  = Ok (map (monthly_entry cid jsm t)
          (iter_months current_month
             (Z.to_nat (months_from current_month end_month + 1)))).
Proof.
  induction fuel as [|fuel IH]; intros cur Hc He Hd Hf;
    cbn [while_months];
    destruct (ts_leb cur end_month) eqn:E.
  - apply ts_leb_months in E; [lia | assumption..].
  - apply ts_leb_months_false in E; [|assumption..].
    replace (Z.to_nat (months_from cur end_month + 1)) with O by lia.
    reflexivity.
  - apply ts_leb_months in E; [|assumption..].
    rewrite IH.
    + rewrite months_from_next.
      replace (Z.to_nat (months_from cur end_month + 1))
        with (S (Z.to_nat (months_from cur end_month - 1 + 1))) by lia.
      reflexivity.
    + now apply next_month_valid.
    + assumption.
    + now rewrite next_month_day.
    + rewrite months_from_next. lia.
  - apply ts_leb_months_false in E; [|assumption..].
    replace (Z.to_nat (months_from cur end_month + 1)) with O by lia.
    reflexivity.
Qed.

Lemma expand_transaction_spec (cid : Z) (jsm : Timestamp)
    (t : Transaction) :
  valid_transaction t ->
  expand_transaction cid jsm t
  = Ok (map (monthly_entry cid jsm t) (months_of t)).
Proof.
  intros [[Ho _] [He _]]. unfold expand_transaction, months_of, loop_bound.
  apply while_months_spec; try assumption; [reflexivity | lia].
Qed.

(** *** The start of the journey *)

Lemma fold_min_spec (l : list Timestamp) : forall d,
  let m := fold_left (fun acc x => if ts_ltb x acc then x else acc) l d in
  In m (d :: l) /\ forall x, In x (d :: l) -> ts_leb m x = true.
Proof.
  induction l as [|y t IH]; intros d; simpl.
  - split; [now left|]. intros x [<- | []]. apply ts_leb_refl.
  - destruct (ts_ltb y d) eqn:E.
    + destruct (IH y) as [Hin Hle]. split.
      * destruct Hin as [<- | Hin]; [right; now left | right; now right].
      * intros x [<- | [<- | Hx]].
        -- apply ts_leb_trans with y; [apply Hle; now left|].
           now apply ts_ltb_leb.
        -- apply Hle. now left.
        -- apply Hle. now right.
    + destruct (IH d) as [Hin Hle]. split.
      * destruct Hin as [<- | Hin]; [now left | right; now right].
      * intros x [<- | [<- | Hx]].
        -- apply Hle. now left.
        -- apply ts_leb_trans with d; [apply Hle; now left|].
           now apply ts_ltb_false_leb.
        -- apply Hle. now right.
Qed.

Lemma series_min_spec (l : list Timestamp) (m : Timestamp) :
  series_min l = Some m ->
  In m l /\ forall x, In x l -> ts_leb m x = true.
Proof.
  destruct l as [|d t]; [discriminate|]. simpl.
  intros H. injection H as <-. apply fold_min_spec.
Qed.

Lemma series_min_Some (l : list Timestamp) :
  l <> [] -> exists m, series_min l = Some m.
Proof. destruct l; [congruence | eexists; reflexivity]. Qed.

Definition customer_data (df : list Transaction) (cid : Z)
    : list Transaction :=
  filter (fun t => customer_id t =? cid) df.

(** The journey start of a customer: the earliest order date over all the
    customer's transactions. *)
Definition journey_start (df : list Transaction) (cid : Z)
    : option Timestamp :=
  series_min (map order_date (customer_data df cid)).

Lemma journey_start_spec (df : list Transaction) (cid : Z)
    (js : Timestamp) :
  journey_start df cid = Some js ->
  (exists t, In t df /\ customer_id t = cid /\ order_date t = js)
  /\ (forall t, In t df -> customer_id t = cid ->
        ts_leb js (order_date t) = true).
Proof.
  intros H. apply series_min_spec in H. destruct H as [Hin Hle]. split.
  - apply in_map_iff in Hin. destruct Hin as [t [<- Ht]].
    apply filter_In in Ht. destruct Ht as [Ht Hc].
    exists t. repeat split; [assumption | now apply Z.eqb_eq].
  - intros t Ht Hc. apply Hle, in_map, filter_In.
    split; [assumption | now apply Z.eqb_eq].
Qed.

Lemma journey_start_Some (df : list Transaction) (t : Transaction) :
  In t df -> exists js, journey_start df (customer_id t) = Some js.
Proof.
  intros H. apply series_min_Some. intros E.
  assert (Hin : In (order_date t)
                  (map order_date (customer_data df (customer_id t)))).
  { apply in_map, filter_In. split; [assumption | apply Z.eqb_refl]. }
  rewrite E in Hin. contradiction.
Qed.

(** The rows of one customer. *)
Definition customer_rows (df : list Transaction) (cid : Z)
    : list MonthlyRow :=
  match journey_start df cid with
  | Some js =>
      flat_map (fun t => map (monthly_entry cid (month_start js) t)
                           (months_of t))
        (customer_data df cid)
  | None => []
  end.

Definition all_valid (df : list Transaction) : Prop :=
  forall t, In t df -> valid_transaction t.

Lemma expand_customer_spec (df : list Transaction) (cid : Z) :
  all_valid df -> In cid (map customer_id df) ->
  expand_customer df cid = Ok (customer_rows df cid).
Proof.
  intros Hv Hc. apply in_map_iff in Hc. destruct Hc as [t [<- Ht]].
  destruct (journey_start_Some df t Ht) as [js Hjs].
  unfold expand_customer, customer_rows.
  fold (customer_data df (customer_id t)).
  fold (journey_start df (customer_id t)). rewrite Hjs.
  apply flat_mapM_Ok. intros x Hx.
  apply expand_transaction_spec, Hv.
  apply filter_In in Hx. tauto.
Qed.

(** The expansion returns: on real dates no loop outruns its bound. *)
Lemma monthly_data_spec (df : list Transaction) :
  all_valid df ->
  monthly_data df
  = Ok (flat_map (customer_rows df) (unique Z.eqb (map customer_id df))).
Proof.
  intros Hv. unfold monthly_data. apply flat_mapM_Ok.
  intros cid Hc. apply expand_customer_spec; [assumption|].
  now rewrite (unique_In Z.eqb Z.eqb_eq) in Hc.
Qed.

Lemma create_monthly_retention_table_spec (df : list Transaction) :
  all_valid df ->
  create_monthly_retention_table df
  = match flat_map (customer_rows df) (unique Z.eqb (map customer_id df))
    with
    | [] => Err KeyError
    | rows => Ok (drop_duplicates customer_mois_eqb customer_mois rows)
    end.
Proof.
  intros Hv. unfold create_monthly_retention_table.
  rewrite (monthly_data_spec df Hv). simpl.
  destruct (flat_map _ _); reflexivity.
Qed.
End Expander.

Section ExpanderRows.
Import Pandas Claude_retention_analysis.

Lemma months_of_In (t : Transaction) (ts : Timestamp) :
  valid_transaction t ->
  (In ts (months_of t) <->
   valid_month ts /\ day ts = 1
   /\ 0 <= months_from (order_date t) ts
      <= months_from (order_date t) (echeance_date t)).
Proof.
  intros [[Ho _] [He _]]. unfold months_of, loop_bound.
  rewrite iter_months_In by exact Ho.
  unfold months_from, month_start. cbn [year month day].
  split; intros [Hv [Hd Hr]]; (split; [exact Hv | split; [exact Hd | lia]]).
Qed.

Lemma ts_leb_months_from (a b : Timestamp) :
  valid_month a -> valid_month b -> ts_leb a b = true ->
  0 <= months_from a b.
Proof.
  unfold valid_month, months_from. rewrite ts_leb_iff. lia.
Qed.

(** Where a row of one customer comes from. *)
Lemma customer_rows_In (df : list Transaction) (cid : Z) (r : MonthlyRow) :
  In r (customer_rows df cid) <->
  exists js t ts,
    journey_start df cid = Some js /\ In t df /\ customer_id t = cid
    /\ In ts (months_of t)
    /\ r = monthly_entry cid (month_start js) t ts.
Proof.
  unfold customer_rows. destruct (journey_start df cid) as [js|].
  - rewrite in_flat_map. split.
    + intros [t [Ht Hr]]. apply in_map_iff in Hr.
      destruct Hr as [ts [<- Hts]]. apply filter_In in Ht.
      destruct Ht as [Ht Hc]. apply Z.eqb_eq in Hc.
      exists js, t, ts. repeat split; assumption.
    + intros [js' [t [ts [E [Ht [Hc [Hts ->]]]]]]]. injection E as <-.
      exists t. split.
      * apply filter_In. split; [assumption | now apply Z.eqb_eq].
      * now apply in_map.
  - split; [intros [] | intros [js [t [ts [E _]]]]; discriminate].
Qed.

Lemma monthly_rows_In (df : list Transaction) (r : MonthlyRow) :
  In r (flat_map (customer_rows df) (unique Z.eqb (map customer_id df))) <->
  In r (customer_rows df (m_customer_id r)).
Proof.
  rewrite in_flat_map. split.
  - intros [cid [_ Hr]].
    assert (E : m_customer_id r = cid).
    { apply customer_rows_In in Hr.
      destruct Hr as [js [t [ts [_ [_ [_ [_ ->]]]]]]]. reflexivity. }
    now rewrite E.
  - intros Hr. exists (m_customer_id r). split; [|assumption].
    rewrite (unique_In Z.eqb Z.eqb_eq).
    apply customer_rows_In in Hr.
    destruct Hr as [js [t [ts [_ [Ht [Hc _]]]]]].
    rewrite <- Hc. now apply in_map.
Qed.

Lemma customer_mois_eqb_spec (a b : Z * Mois) :
  customer_mois_eqb a b = true <-> a = b.
Proof.
  destruct a as [a1 a2], b as [b1 b2]. unfold customer_mois_eqb. simpl.
  rewrite andb_true_iff, Z.eqb_eq, mois_eqb_spec. split.
  - intros [-> ->]. reflexivity.
  - intros E. injection E as -> ->. split; reflexivity.
Qed.

Lemma create_monthly_retention_table_In (df : list Transaction)
    (rows : list MonthlyRow) (r : MonthlyRow) :
  all_valid df -> create_monthly_retention_table df = Ok rows ->
  In r rows -> In r (customer_rows df (m_customer_id r)).
Proof.
  intros Hv Hok Hr. rewrite (create_monthly_retention_table_spec df Hv) in Hok.
  apply monthly_rows_In.
  destruct (flat_map _ _) as [|x l] eqn:E; [discriminate|].
  injection Hok as <-.
  exact (drop_duplicates_In customer_mois_eqb customer_mois_eqb_spec
           customer_mois r (x :: l) Hr).
Qed.

Lemma strftime_mY_NoDup (l : list Timestamp) :
  NoDup l -> (forall ts, In ts l -> day ts = 1) ->
  NoDup (map (fun ts => strftime_mY ts) l).
Proof.
  induction l as [|a l IH]; intros Hnd Hd; simpl; constructor.
  - rewrite in_map_iff. intros [b [Hb Hin]].
    apply NoDup_cons_iff in Hnd. destruct Hnd as [Hna _].
    apply Hna. replace a with b; [assumption|].
    apply strftime_mY_inj; [|assumption].
    rewrite (Hd a), (Hd b); [reflexivity | now right | now left].
  - apply IH.
    + now apply NoDup_cons_iff in Hnd.
    + intros ts Hts. apply Hd. now right.
Qed.

(** The months of a transaction in the main script.  For a transaction
    whose due month is not before its start month, the expander returns one row for
    each calendar month from the start month to the due month, no month
    twice, in calendar order, each with the index counted from the journey
    start month. *)
Theorem expand_transaction_months (cid : Z) (jsm : Timestamp)
    (t : Transaction) :
  valid_transaction t ->
  0 <= months_from (order_date t) (echeance_date t) ->
  exists rows,
    expand_transaction cid jsm t = Ok rows
    /\ Z.of_nat (List.length rows)
       = months_from (order_date t) (echeance_date t) + 1
    /\ NoDup (map mois rows)
    /\ (forall y m, 1 <= m <= 12 ->
          (In (m, y) (map mois rows) <->
           0 <= months_from (order_date t) (mkTs y m 1)
             <= months_from (order_date t) (echeance_date t)))
    /\ (forall r, In r rows ->
          mois_relatif r
          = (snd (mois r) - year jsm) * 12 + (fst (mois r) - month jsm))
    /\ (forall k, (k < List.length rows)%nat ->
          mois_relatif (nth k rows (monthly_entry cid jsm t jsm))
          = months_from jsm (order_date t) + Z.of_nat k).
Proof.
  intros Hv Hm. exists (map (monthly_entry cid jsm t) (months_of t)).
  pose proof Hv as [[Ho _] [He _]].
  split; [now apply expand_transaction_spec|].
  assert (Hlen : List.length (months_of t)
                 = Z.to_nat (months_from (order_date t) (echeance_date t)
                             + 1)).
  { unfold months_of. rewrite iter_months_length. reflexivity. }
  split; [rewrite length_map, Hlen; lia|].
  split; [|split; [|split]].
  - rewrite map_map. cbn [mois monthly_entry].
    assert (Hnd : NoDup (months_of t))
      by (apply iter_months_NoDup; exact Ho).
    assert (Hd : forall ts, In ts (months_of t) -> day ts = 1).
    { intros ts Hts. apply months_of_In in Hts; tauto. }
    now apply strftime_mY_NoDup.
  - intros y m Hym. rewrite map_map, in_map_iff. cbn [mois monthly_entry].
    split.
    + intros [ts [E Hts]]. apply months_of_In in Hts; [|assumption].
      destruct Hts as [_ [Hd Hr]].
      replace (mkTs y m 1) with ts; [assumption|].
      destruct ts as [y' m' d']. unfold strftime_mY in E. simpl in *.
      injection E as -> ->. now subst.
    + intros H. exists (mkTs y m 1). split; [reflexivity|].
      apply months_of_In; [assumption|]. repeat split; try apply Hym; apply H.
  - intros r Hr. apply in_map_iff in Hr. destruct Hr as [ts [<- _]].
    reflexivity.
  - intros k Hk. rewrite length_map in Hk.
    rewrite (map_nth (monthly_entry cid jsm t)).
    cbn [mois_relatif monthly_entry].
    rewrite (nth_indep _ jsm (month_start (order_date t))) by assumption.
    unfold months_of in *. rewrite iter_months_length in Hk.
    pose proof (iter_months_nth _ (month_start (order_date t)) k Hk) as Hn.
    unfold months_from, month_start in *. cbn [year month] in *. lia.
Qed.

(** C10.  In the main script a customer has one journey.  For
    every row of the monthly table: the journey start is the earliest order
    date among all the transactions of the row's customer; the cohort of the
    row is the month of that date; the relative month is counted from that
    month, so it is never negative and is 0 only in that very month; and all
    the rows of one customer carry the same cohort. *)
Theorem single_journey_per_customer (df : list Transaction)
    (rows : list MonthlyRow) (r : MonthlyRow) :
  all_valid df ->
  create_monthly_retention_table df = Ok rows ->
  In r rows ->
  exists js,
    journey_start df (m_customer_id r) = Some js
    /\ (exists t, In t df /\ customer_id t = m_customer_id r
                  /\ order_date t = js)
    /\ (forall t, In t df -> customer_id t = m_customer_id r ->
          ts_leb js (order_date t) = true)
    /\ date_debut_parcours r = strftime_mY js
    /\ mois_relatif r
       = (snd (mois r) - year js) * 12 + (fst (mois r) - month js)
    /\ 0 <= mois_relatif r
    /\ (mois_relatif r = 0 <-> mois r = date_debut_parcours r)
    /\ (forall r', In r' rows -> m_customer_id r' = m_customer_id r ->
          date_debut_parcours r' = date_debut_parcours r).
Proof.
  intros Hv Hok Hr.
  pose proof (create_monthly_retention_table_In df rows r Hv Hok Hr) as H.
  apply customer_rows_In in H.
  destruct H as [js [t [ts [Hjs [Ht [Hc [Hts Hrow]]]]]]].
  exists js. destruct (journey_start_spec df _ js Hjs) as [Hex Hmin].
  split; [assumption|]. split; [assumption|]. split; [assumption|].
  assert (Hjsv : valid_month js).
  { destruct Hex as [t0 [Ht0 [_ <-]]]. apply valid_ts_month, Hv, Ht0. }
  apply months_of_In in Hts; [|now apply Hv].
  destruct Hts as [Htsv [Hd Hrange]].
  assert (Hpos : 0 <= months_from js (order_date t)).
  { apply ts_leb_months_from; [assumption | apply valid_ts_month, Hv, Ht|].
    now apply Hmin. }
  split; [rewrite Hrow; reflexivity|].
  split; [rewrite Hrow; reflexivity|].
  split; [|split].
  - rewrite Hrow. cbn [mois_relatif monthly_entry month_start year month].
    unfold months_from in *. lia.
  - rewrite Hrow.
    cbn [mois_relatif mois date_debut_parcours monthly_entry month_start
           year month].
    unfold strftime_mY, month_start, valid_month in *. cbn [year month].
    split.
    + intros E. f_equal; lia.
    + intros E. injection E as E1 E2. lia.
  - intros r' Hr' Hc'.
    pose proof (create_monthly_retention_table_In df rows r' Hv Hok Hr')
      as H'.
    apply customer_rows_In in H'.
    destruct H' as [js' [t' [ts' [Hjs' [_ [_ [_ Hrow']]]]]]].
    rewrite Hc', Hjs in Hjs'. injection Hjs' as <-.
    rewrite Hrow, Hrow'. reflexivity.
Qed.
End ExpanderRows.

(** ** Deduplication keeps the first row in transaction order *)

Section FirstOfBlocks.
Import Pandas.
Context {A B K : Type}.
Variable key_eqb : K -> K -> bool.
Hypothesis key_eqb_spec : forall a b, key_eqb a b = true <-> a = b.
Variable key : B -> K.
Variable g : A -> list B.

(** A row kept from a concatenation of blocks lies in a block before
    which no block holds its key. *)
Lemma first_seen_flat_map (r : B) (l : list A) : forall seen,
  In r (first_seen key_eqb key seen (flat_map g l)) ->
  exists l1 x l2,
    l = l1 ++ x :: l2 /\ In r (g x)
    /\ forall x' y, In x' l1 -> In y (g x') -> key y <> key r.
Proof.
  induction l as [|a t IH]; intros seen H; simpl in H; [contradiction|].
  rewrite (first_seen_app key_eqb key) in H. apply in_app_or in H.
  destruct H as [H | H].
  - exists [], a, t. split; [reflexivity|]. split.
    + now apply (first_seen_In key_eqb key_eqb_spec key) in H.
    + intros x' y [].
  - destruct (IH _ H) as [l1 [x [l2 [-> [Hx Hl]]]]].
    exists (a :: l1), x, l2. split; [reflexivity|]. split; [assumption|].
    intros x' y [<- | Hx'] Hy; [|now apply (Hl x')].
    apply (first_seen_In key_eqb key_eqb_spec key) in H.
    destruct H as [_ Hn]. intros E. apply Hn. apply in_or_app.
    destruct (isin key_eqb (key y) seen) eqn:Es.
    + right. rewrite <- E. now apply (isin_In key_eqb key_eqb_spec).
    + left. rewrite <- in_rev.
      apply (isin_false key_eqb key_eqb_spec) in Es.
      destruct (first_seen_keys key_eqb key_eqb_spec key y (g a) seen Hy Es)
        as [z [Hz Hk]].
      rewrite <- E, <- Hk. now apply in_map.
Qed.
End FirstOfBlocks.

Section FilterFacts.
Context {A : Type}.
Variable f : A -> bool.

Lemma filter_split (l : list A) : forall a x b,
  filter f l = a ++ x :: b ->
  exists l1 l2, l = l1 ++ x :: l2 /\ filter f l1 = a /\ filter f l2 = b.
Proof.
  induction l as [|y t IH]; intros a x b H; simpl in H.
  - destruct a; discriminate.
  - destruct (f y) eqn:E.
    + destruct a as [|a0 a]; simpl in H; injection H as -> H.
      * exists [], t. repeat split. assumption.
      * destruct (IH _ _ _ H) as [l1 [l2 [-> [H1 H2]]]].
        exists (a0 :: l1), l2. repeat split; [|assumption].
        simpl. rewrite E. now f_equal.
    + destruct (IH _ _ _ H) as [l1 [l2 [-> [H1 H2]]]].
      exists (y :: l1), l2. repeat split; [|assumption].
      simpl. now rewrite E.
Qed.

Lemma filter_nil (l : list A) :
  (forall x, In x l -> f x = false) -> filter f l = [].
Proof.
  induction l as [|y t IH]; intros H; simpl; [reflexivity|].
  rewrite (H y) by now left. apply IH. intros x Hx. apply H. now right.
Qed.

Lemma filter_all (l : list A) :
  (forall x, In x l -> f x = true) -> filter f l = l.
Proof.
  induction l as [|y t IH]; intros H; simpl; [reflexivity|].
  rewrite (H y) by now left. f_equal. apply IH.
  intros x Hx. apply H. now right.
Qed.
End FilterFacts.

Section Deduplication.
Import Pandas Claude_retention_analysis.

(** The transactions in the order the expander visits them: customer by
    customer, each customer's transactions in the order of the frame. *)
Definition grouped (df : list Transaction) : list Transaction :=
  flat_map (customer_data df) (unique Z.eqb (map customer_id df)).

(** The rows appended for one transaction. *)
Definition transaction_rows (df : list Transaction) (t : Transaction)
    : list MonthlyRow :=
  match journey_start df (customer_id t) with
  | Some js =>
      map (monthly_entry (customer_id t) (month_start js) t) (months_of t)
  | None => []
  end.

Lemma flat_map_ext_In {A B} (f g : A -> list B) (l : list A) :
  (forall x, In x l -> f x = g x) -> flat_map f l = flat_map g l.
Proof.
  induction l as [|x t IH]; intros H; simpl; [reflexivity|].
  rewrite (H x) by now left. f_equal. apply IH.
  intros y Hy. apply H. now right.
Qed.

Lemma customer_rows_blocks (df : list Transaction) (cid : Z) :
  customer_rows df cid
  = flat_map (transaction_rows df) (customer_data df cid).
Proof.
  unfold customer_rows. destruct (journey_start df cid) as [js|] eqn:E.
  - apply flat_map_ext_In. intros t Ht. apply filter_In in Ht.
    destruct Ht as [_ Hc]. apply Z.eqb_eq in Hc.
    unfold transaction_rows. rewrite Hc, E. reflexivity.
  - unfold journey_start in E.
    destruct (customer_data df cid); [reflexivity | discriminate].
Qed.

Lemma monthly_rows_blocks (df : list Transaction) (custs : list Z) :
  flat_map (customer_rows df) custs
  = flat_map (transaction_rows df) (flat_map (customer_data df) custs).
Proof.
  induction custs as [|c t IH]; simpl; [reflexivity|].
  rewrite flat_map_app, <- IH, customer_rows_blocks. reflexivity.
Qed.

Lemma customer_data_other (df : list Transaction) (c x : Z) :
  x <> c -> customer_data (customer_data df x) c = [].
Proof.
  intros H. apply filter_nil. intros t Ht. apply filter_In in Ht.
  destruct Ht as [_ Ht]. apply Z.eqb_eq in Ht. apply Z.eqb_neq. congruence.
Qed.

Lemma customer_data_same (df : list Transaction) (c : Z) :
  customer_data (customer_data df c) c = customer_data df c.
Proof.
  apply filter_all. intros t Ht. apply filter_In in Ht. tauto.
Qed.

Lemma customer_data_absent (df : list Transaction) (c : Z)
    (custs : list Z) :
  ~ In c custs ->
  customer_data (flat_map (customer_data df) custs) c = [].
Proof.
  induction custs as [|x t IH]; intros H; simpl; [reflexivity|].
  unfold customer_data at 1. rewrite filter_app.
  fold (customer_data (customer_data df x) c).
  fold (customer_data (flat_map (customer_data df) t) c).
  rewrite customer_data_other, IH; [reflexivity | |]; intros E; apply H;
    [now right | now left].
Qed.

Lemma customer_data_present (df : list Transaction) (c : Z)
    (custs : list Z) :
  NoDup custs -> In c custs ->
  customer_data (flat_map (customer_data df) custs) c = customer_data df c.
Proof.
  induction custs as [|x t IH]; intros Hnd Hin; simpl; [contradiction|].
  apply NoDup_cons_iff in Hnd. destruct Hnd as [Hx Hnd].
  unfold customer_data at 1. rewrite filter_app.
  fold (customer_data (customer_data df x) c).
  fold (customer_data (flat_map (customer_data df) t) c).
  destruct Hin as [-> | Hin].
  - rewrite customer_data_same, customer_data_absent by assumption.
    apply app_nil_r.
  - rewrite customer_data_other, IH by (try assumption; congruence).
    reflexivity.
Qed.

(** Within one customer the expander follows the order of the frame. *)
Lemma grouped_order (df : list Transaction) (c : Z) :
  customer_data (grouped df) c = customer_data df c.
Proof.
  unfold grouped.
  destruct (in_dec Z.eq_dec c (unique Z.eqb (map customer_id df)))
    as [H | H].
  - apply customer_data_present; [apply (unique_NoDup Z.eqb Z.eqb_eq) | exact H].
  - rewrite customer_data_absent by exact H. symmetry.
    apply filter_nil. intros t Ht. apply Z.eqb_neq. intros E. apply H.
    rewrite (unique_In Z.eqb Z.eqb_eq). rewrite <- E. now apply in_map.
Qed.

Lemma transaction_rows_In (df : list Transaction) (t : Transaction)
    (r : MonthlyRow) :
  In r (transaction_rows df t) <->
  exists js ts, journey_start df (customer_id t) = Some js
                /\ In ts (months_of t)
                /\ r = monthly_entry (customer_id t) (month_start js) t ts.
Proof.
  unfold transaction_rows.
  destruct (journey_start df (customer_id t)) as [js|].
  - rewrite in_map_iff. split.
    + intros [ts [<- Hts]]. exists js, ts. repeat split. assumption.
    + intros [js' [ts [E [Hts ->]]]]. injection E as <-.
      exists ts. split; [reflexivity | assumption].
  - split; [intros [] | intros [js [ts [E _]]]; discriminate].
Qed.

(** C5.  The monthly table has at most one row per customer and
    month.  The row kept for a customer and a month is the one built from
    the first transaction of that customer, in the order of the frame, that
    covers the month.  Every customer and month of the expansion keeps a
    row.  Deduplicating the table again, or deduplicating the expansion
    taken twice over, gives the same table. *)
Theorem deduplication_keeps_first (df : list Transaction)
    (rows : list MonthlyRow) :
  all_valid df ->
  create_monthly_retention_table df = Ok rows ->
  NoDup (map customer_mois rows)
  /\ (forall r, In r rows ->
        exists d1 t d2 js ts,
          df = d1 ++ t :: d2
          /\ journey_start df (customer_id t) = Some js
          /\ In ts (months_of t)
          /\ r = monthly_entry (customer_id t) (month_start js) t ts
          /\ forall t', In t' d1 -> customer_id t' = customer_id t ->
               ~ In ts (months_of t'))
  /\ (exists expansion,
        monthly_data df = Ok expansion
        /\ (forall x, In x expansion ->
              exists r, In r rows /\ customer_mois r = customer_mois x)
        /\ drop_duplicates customer_mois_eqb customer_mois
             (expansion ++ expansion) = rows)
  /\ drop_duplicates customer_mois_eqb customer_mois rows = rows.
Proof.
  intros Hv Hok.
  pose proof (monthly_data_spec df Hv) as Hall.
  rewrite (create_monthly_retention_table_spec df Hv) in Hok.
  set (expansion := flat_map (customer_rows df)
                      (unique Z.eqb (map customer_id df))) in *.
  assert (Hrows : rows
                  = drop_duplicates customer_mois_eqb customer_mois expansion).
  { destruct expansion; [discriminate | now injection Hok as <-]. }
  clear Hok. split; [|split; [|split]].
  - rewrite Hrows.
    apply (first_seen_NoDup customer_mois_eqb customer_mois_eqb_spec).
  - intros r Hr. rewrite Hrows in Hr. unfold drop_duplicates in Hr.
    unfold expansion in Hr. rewrite monthly_rows_blocks in Hr.
    fold (grouped df) in Hr.
    apply (first_seen_flat_map customer_mois_eqb customer_mois_eqb_spec) in Hr.
    destruct Hr as [g1 [t [g2 [Hg [Hin Hfirst]]]]].
    apply transaction_rows_In in Hin. destruct Hin as [js [ts [Hjs [Hts ->]]]].
    pose proof (grouped_order df (customer_id t)) as Hord.
    rewrite Hg in Hord. unfold customer_data at 1 in Hord.
    rewrite filter_app in Hord. simpl in Hord.
    rewrite Z.eqb_refl in Hord. symmetry in Hord.
    apply filter_split in Hord.
    destruct Hord as [d1 [d2 [Hdf [Hd1 _]]]].
    exists d1, t, d2, js, ts. repeat split; try assumption.
    intros t' Ht' Hc' Hcov.
    assert (Hg1 : In t' g1).
    { assert (H : In t' (filter (fun t0 => customer_id t0 =? customer_id t)
                           d1))
        by (apply filter_In; split; [assumption | now apply Z.eqb_eq]).
      rewrite Hd1 in H. apply filter_In in H. tauto. }
    apply (Hfirst t' (monthly_entry (customer_id t') (month_start js) t' ts)
             Hg1).
    + apply transaction_rows_In. exists js, ts.
      rewrite Hc'. repeat split; assumption.
    + unfold customer_mois. cbn [m_customer_id mois monthly_entry].
      now rewrite Hc'.
  - exists expansion. split; [exact Hall|]. split.
    + intros x Hx. rewrite Hrows.
      now apply (drop_duplicates_keys customer_mois_eqb
                   customer_mois_eqb_spec).
    + rewrite Hrows.
      apply (drop_duplicates_twice customer_mois_eqb customer_mois_eqb_spec).
  - rewrite Hrows. unfold drop_duplicates.
    apply (first_seen_fixed customer_mois_eqb).
Qed.
End Deduplication.

(** ** The bound of the active population *)

Section RetentionBound.
Import Pandas Claude_retention_analysis.

(** When no transaction falls due in a month before its start month, every
    customer of the monthly table has a row at relative month 0, in the
    cohort of all the customer's rows. *)
Lemma month_zero_row (df : list Transaction) (rows : list MonthlyRow)
    (r : MonthlyRow) :
  all_valid df ->
  (forall t, In t df -> 0 <= months_from (order_date t) (echeance_date t)) ->
  create_monthly_retention_table df = Ok rows ->
  In r rows ->
  exists r0, In r0 rows /\ m_customer_id r0 = m_customer_id r
             /\ mois_relatif r0 = 0
             /\ date_debut_parcours r0 = date_debut_parcours r.
Proof.
  intros Hv Hclean Hok Hr.
  pose proof (create_monthly_retention_table_In df rows r Hv Hok Hr) as H.
  apply customer_rows_In in H.
  destruct H as [js [t [ts [Hjs [Ht [Hc [Hts Hrow]]]]]]].
  destruct (journey_start_spec df _ js Hjs) as [[t0 [Ht0 [Hc0 Ho0]]] _].
  set (cid := m_customer_id r) in *.
  set (x0 := monthly_entry cid (month_start js) t0 (month_start js)).
  assert (Hx0 : In x0 (flat_map (customer_rows df)
                         (unique Z.eqb (map customer_id df)))).
  { apply monthly_rows_In. apply customer_rows_In.
    exists js, t0, (month_start js). repeat split; try assumption.
    apply months_of_In; [now apply Hv|]. rewrite Ho0.
    pose proof (Hclean t0 Ht0) as Hm. rewrite Ho0 in Hm.
    assert (Hjv : valid_month js)
      by (rewrite <- Ho0; apply valid_ts_month, Hv, Ht0).
    split; [exact Hjv|]. split; [reflexivity|].
    unfold months_from, month_start in *. cbn [year month]. lia. }
  rewrite (create_monthly_retention_table_spec df Hv) in Hok.
  destruct (flat_map (customer_rows df) (unique Z.eqb (map customer_id df)))
    as [|y l] eqn:E; [discriminate|].
  injection Hok as Hrows.
  destruct (drop_duplicates_keys customer_mois_eqb customer_mois_eqb_spec
              customer_mois x0 (y :: l) Hx0) as [r0 [Hr0 Hk]].
  rewrite Hrows in Hr0. exists r0. split; [exact Hr0|].
  unfold customer_mois in Hk. cbn [m_customer_id mois monthly_entry x0] in Hk.
  injection Hk as Hk1 Hk2. split; [exact Hk1|].
  assert (H0 : In r0 (customer_rows df (m_customer_id r0))).
  { apply monthly_rows_In. rewrite E. rewrite <- Hrows in Hr0.
    exact (drop_duplicates_In customer_mois_eqb customer_mois_eqb_spec
             customer_mois r0 (y :: l) Hr0). }
  apply customer_rows_In in H0.
  destruct H0 as [js' [t' [ts' [Hjs' [_ [_ [_ Hrow0]]]]]]].
  rewrite Hk1 in Hjs'. fold cid in Hjs. rewrite Hjs in Hjs'.
  injection Hjs' as <-.
  rewrite Hrow0 in Hk2. cbn [mois monthly_entry] in Hk2.
  unfold strftime_mY, month_start in Hk2. cbn [year month] in Hk2.
  injection Hk2 as Hmo Hye.
  rewrite Hrow0, Hrow.
  cbn [mois_relatif date_debut_parcours monthly_entry month_start year month].
  split; [lia | reflexivity].
Qed.

Lemma plain_cohorts_covered (df : list Transaction)
    (rows : list MonthlyRow) (cohort : Mois) (m : Z) :
  all_valid df ->
  (forall t, In t df -> 0 <= months_from (order_date t) (echeance_date t)) ->
  create_monthly_retention_table df = Ok rows ->
  covered (cohort_rows rows cohort) m.
Proof.
  intros Hv Hclean Hok r Hr _. apply filter_In in Hr. destruct Hr as [Hr Hc].
  destruct (month_zero_row df rows r Hv Hclean Hok Hr)
    as [r0 [Hr0 [Hc0 [Hm0 Hd0]]]].
  exists r0. split; [|split; assumption].
  apply filter_In. split; [assumption | now rewrite Hd0].
Qed.

(** C4, as the code has it.  A retention point of a cohort, or
    of a cohort within a segment, reports no more active customers than the
    initial population, and a rate of at most 100, whenever every customer
    with a row at the point's offset also has a row at offset 0 among the
    rows the point is computed from.  For the cohorts of a table that the
    expander built from transactions none of which falls due in a month before
    its start month, this holds at every point.  The rate the dashboard
    derives from the segment tables is at most 100 in every case: it is cut
    at 100. *)
Theorem active_within_initial (monthly_df : list MonthlyRow) :
  (forall points p,
      calculate_cohort_retention monthly_df = Ok points ->
      In p points ->
      covered (cohort_rows monthly_df (cohorte p)) (r_mois_relatif p) ->
      clients_actifs p <= clients_initiaux p
      /\ (taux_retention p <= 100)%Q)
  /\ (forall name column points p,
        In (name, column) segments ->
        In (name, points) (calculate_segmented_retention monthly_df) ->
        In p points ->
        covered (cohort_rows (segment_rows column monthly_df
                                (segment_value p)) (s_cohorte p))
          (s_mois_relatif p) ->
        s_clients_actifs p <= s_clients_initiaux p
        /\ (s_taux_retention p <= 100)%Q)
  /\ (forall df points p,
        all_valid df ->
        (forall t, In t df ->
           0 <= months_from (order_date t) (echeance_date t)) ->
        create_monthly_retention_table df = Ok monthly_df ->
        calculate_cohort_retention monthly_df = Ok points ->
        In p points ->
        clients_actifs p <= clients_initiaux p
        /\ (taux_retention p <= 100)%Q)
  /\ (forall segment_df value month q,
        dashboard_retention.segment_month_rate segment_df value month
        = Some q ->
        (q <= 100)%Q).
Proof.
  assert (Hplain : forall points p,
             calculate_cohort_retention monthly_df = Ok points ->
             In p points ->
             covered (cohort_rows monthly_df (cohorte p)) (r_mois_relatif p) ->
             clients_actifs p <= clients_initiaux p
             /\ (taux_retention p <= 100)%Q);
    [|split; [exact Hplain | split; [|split]]].
  - intros points p Hok Hp Hcov.
    apply (calculate_cohort_retention_In _ _ _ Hok) in Hp.
    apply retention_results_In in Hp. destruct Hp as [_ Hp].
    apply cohort_points_In in Hp. cbv zeta in Hp.
    destruct Hp as [Hn [_ Hp]].
    apply customers_at_le in Hcov.
    pose proof (customers_at_nonneg
                  (cohort_rows monthly_df (cohorte p)) 0) as H0.
    rewrite Hp. simpl. split; [assumption|].
    apply round2_le_100, rate_le_100; [lia | assumption].
  - intros name column points p Hs Hin Hp Hcov.
    destruct (calculate_segmented_retention_In _ _ _ Hin)
      as [column' [Hs' ->]].
    rewrite (segments_column _ _ _ Hs' Hs) in Hp.
    apply segment_retention_In, cohort_segment_points_In in Hp.
    cbv zeta in Hp. destruct Hp as [H10 [_ [_ [Hi [Ha Ht]]]]].
    apply customers_at_le in Hcov.
    rewrite Hi, Ha, Ht. split; [assumption|].
    apply round2_le_100, rate_le_100; [lia | assumption].
  - intros df points p Hv Hclean Htable Hok Hp.
    apply (Hplain points p Hok Hp).
    now apply (plain_cohorts_covered df).
  - intros segment_df value month q. apply segment_month_rate_le.
Qed.
End RetentionBound.

(** ** A due date before the start date *)

Section DueBeforeStart.
Import Pandas.

Lemma date_range_MS_empty (start end_ : Timestamp) :
  valid_ts start -> valid_ts end_ -> ts_ltb end_ start = true ->
  date_range_MS start end_ = [].
Proof.
  intros [Hs Hsd] [He Hed] Hlt. apply ts_ltb_iff in Hlt.
  unfold date_range_MS.
  destruct (day start =? 1) eqn:E.
  - apply Z.eqb_eq in E.
    replace (Z.to_nat (months_from start end_ + 1)) with O; [reflexivity|].
    unfold months_from. lia.
  - rewrite months_from_next.
    replace (Z.to_nat (months_from (month_start start) end_ - 1 + 1))
      with O; [reflexivity|].
    unfold months_from, month_start. cbn [year month]. lia.
Qed.

(** C6, as the code has it.  For a transaction whose due date
    precedes its start date: the main script returns no row when the due
    date lies in an earlier calendar month, and the single row of the month
    when both dates lie in the same month; pipeline_JA always returns
    exactly one row, that of the start month with relative month 0, its
    replacement for an empty range. *)
Theorem due_before_start (cid : Z) (jsm : Timestamp)
    (t : Claude_retention_analysis.Transaction) :
  valid_transaction t ->
  ts_ltb (Claude_retention_analysis.echeance_date t)
    (Claude_retention_analysis.order_date t) = true ->
  (months_from (Claude_retention_analysis.order_date t)
     (Claude_retention_analysis.echeance_date t) < 0 ->
   Claude_retention_analysis.expand_transaction cid jsm t = Ok [])
  /\ (months_from (Claude_retention_analysis.order_date t)
        (Claude_retention_analysis.echeance_date t) = 0 ->
      Claude_retention_analysis.expand_transaction cid jsm t
      = Ok [Claude_retention_analysis.monthly_entry cid jsm t
              (month_start (Claude_retention_analysis.order_date t))])
  /\ (forall row numero,
        Gemini.order_date row
        = Some (Claude_retention_analysis.order_date t) ->
        Gemini.ECHEANCE_date row
        = Some (Claude_retention_analysis.echeance_date t) ->
        exists r,
          pipeline_JA.expand_row row numero = [r]
          /\ pipeline_JA.month_ r
             = month_start (Claude_retention_analysis.order_date t)
          /\ pipeline_JA.month_relatif r = 0).
Proof.
  intros Hv Hlt. rewrite (expand_transaction_spec cid jsm t Hv).
  unfold months_of, Claude_retention_analysis.loop_bound.
  replace (months_from
             (month_start (Claude_retention_analysis.order_date t))
             (month_start (Claude_retention_analysis.echeance_date t)))
    with (months_from (Claude_retention_analysis.order_date t)
            (Claude_retention_analysis.echeance_date t))
    by reflexivity.
  split; [|split].
  - intros H.
    replace (Z.to_nat (_ + 1)) with O by lia. reflexivity.
  - intros ->. reflexivity.
  - intros row numero Ho He. unfold pipeline_JA.expand_row.
    rewrite Ho, He. destruct Hv as [Hvo Hve].
    rewrite (date_range_MS_empty _ _ Hvo Hve Hlt). simpl.
    eexists. split; [reflexivity|]. split; [reflexivity|].
    cbn [pipeline_JA.month_relatif]. lia.
Qed.
End DueBeforeStart.

(** ** Grouped columns *)

Section GroupedColumns.
Import Pandas.

Lemma nth_error_combine {A B} (l : list A) (l' : list B) : forall n,
  nth_error (combine l l') n
  = match nth_error l n, nth_error l' n with
    | Some a, Some b => Some (a, b)
    | _, _ => None
    end.
Proof.
  revert l'. induction l as [|a t IH]; intros l' n.
  - destruct n; reflexivity.
  - destruct l' as [|b t'].
    + destruct n; simpl; [reflexivity|].
      destruct (nth_error t n); reflexivity.
    + destruct n; simpl; [reflexivity | apply IH].
Qed.

Lemma shift_in_groups_length {V} (rows : list (Z * option V)) :
  forall last, List.length (shift_in_groups last rows) = List.length rows.
Proof.
  induction rows as [|[k v] t IH]; intros last; simpl; [reflexivity|].
  now rewrite IH.
Qed.

(** The first row of a group is shifted to what was known before. *)
Lemma shift_in_groups_first {V} (rows : list (Z * option V)) :
  forall last j k v,
    nth_error rows j = Some (k, v) ->
    (forall m k' v', (m < j)%nat -> nth_error rows m = Some (k', v') ->
                     k' <> k) ->
    nth_error (shift_in_groups last rows) j
    = Some (match assoc k last with Some p => p | None => None end).
Proof.
  induction rows as [|[k0 v0] t IH]; intros last j k v Hj Hb.
  - destruct j; discriminate.
  - destruct j as [|j]; simpl in *.
    + injection Hj as -> ->. reflexivity.
    + rewrite (IH _ j k v Hj).
      * simpl. assert (E : (k0 =? k) = false).
        { apply Z.eqb_neq. apply (Hb O k0 v0); [lia | reflexivity]. }
        now rewrite E.
      * intros m k' v' Hm Hn. apply (Hb (S m) k' v'); [lia | exact Hn].
Qed.

(** A later row of a group is shifted to the cell of the row of its group
    just before it. *)
Lemma shift_in_groups_prev {V} (rows : list (Z * option V)) :
  forall last i j k v v',
    nth_error rows i = Some (k, v) ->
    nth_error rows j = Some (k, v') ->
    (i < j)%nat ->
    (forall m k' w, (i < m < j)%nat -> nth_error rows m = Some (k', w) ->
                    k' <> k) ->
    nth_error (shift_in_groups last rows) j = Some v.
Proof.
  induction rows as [|[k0 v0] t IH]; intros last i j k v v' Hi Hj Hlt Hb.
  - destruct i; discriminate.
  - destruct j as [|j]; [lia|]. destruct i as [|i]; simpl in *.
    + injection Hi as -> ->.
      rewrite (shift_in_groups_first t _ j k v' Hj).
      * simpl. now rewrite Z.eqb_refl.
      * intros m k' w Hm Hn. apply (Hb (S m) k' w); [lia | exact Hn].
    + apply (IH _ i j k v v' Hi Hj); [lia|].
      intros m k' w Hm Hn. apply (Hb (S m) k' w); [lia | exact Hn].
Qed.

Lemma cumsum_from_length (flags : list bool) : forall acc,
  List.length (cumsum_from acc flags) = List.length flags.
Proof.
  induction flags as [|b t IH]; intros acc; simpl; [reflexivity|].
  now rewrite IH.
Qed.

Lemma cumsum_from_lower (flags : list bool) : forall acc i a,
  nth_error (cumsum_from acc flags) i = Some a -> acc <= a.
Proof.
  induction flags as [|b t IH]; intros acc i a H.
  - destruct i; discriminate.
  - destruct i as [|i]; simpl in H.
    + injection H as <-. destruct b; lia.
    + apply IH in H. destruct b; lia.
Qed.

(** The running count never decreases. *)
Lemma cumsum_from_mono (flags : list bool) : forall acc i j a b,
  (i <= j)%nat ->
  nth_error (cumsum_from acc flags) i = Some a ->
  nth_error (cumsum_from acc flags) j = Some b ->
  a <= b.
Proof.
  induction flags as [|f t IH]; intros acc i j a b Hij Hi Hj.
  - destruct i; discriminate.
  - destruct i as [|i]; destruct j as [|j]; simpl in *; try lia.
    + injection Hi as <-. injection Hj as <-. lia.
    + injection Hi as <-. now apply cumsum_from_lower in Hj.
    + eapply IH; [|eassumption..]. lia.
Qed.

(** The running count moves by one exactly at a raised flag. *)
Lemma cumsum_from_step (flags : list bool) : forall acc i a b f,
  nth_error (cumsum_from acc flags) i = Some a ->
  nth_error (cumsum_from acc flags) (S i) = Some b ->
  nth_error flags (S i) = Some f ->
  b = if f then a + 1 else a.
Proof.
  induction flags as [|f0 t IH]; intros acc i a b f Hi Hj Hf.
  - destruct i; discriminate.
  - destruct i as [|i]; cbn [cumsum_from nth_error] in *.
    + injection Hi as <-. destruct t as [|f1 t']; [discriminate|].
      simpl in *. injection Hf as ->. now injection Hj as <-.
    + eapply IH; eassumption.
Qed.

(** A raised flag strictly raises the count over every earlier row. *)
Lemma cumsum_from_strict (flags : list bool) : forall acc i j a b,
  (i < j)%nat ->
  nth_error (cumsum_from acc flags) i = Some a ->
  nth_error (cumsum_from acc flags) j = Some b ->
  nth_error flags j = Some true ->
  a < b.
Proof.
  induction flags as [|f t IH]; intros acc i j a b Hij Hi Hj Hf.
  - destruct i; discriminate.
  - destruct j as [|j]; [lia|]. destruct i as [|i];
      cbn [cumsum_from nth_error] in *.
    + injection Hi as <-.
      destruct j as [|j].
      * destruct t as [|f1 t']; [discriminate|]. simpl in *.
        injection Hf as ->. injection Hj as <-. lia.
      * assert (Hex : exists c, nth_error
                        (cumsum_from (if f then acc + 1 else acc) t) O
                      = Some c).
        { destruct t; [destruct j; discriminate | eexists; reflexivity]. }
        destruct Hex as [c Hc].
        assert (c < b) by (eapply (IH _ O (S j)); [lia | eassumption..]).
        apply cumsum_from_lower in Hc. lia.
    + eapply IH; [|eassumption..]. lia.
Qed.
End GroupedColumns.

(** ** The journeys of the gemini pipelines *)

Section Journeys.
Import Pandas Gemini.

Lemma nat_last_leb_total (a b : option Timestamp) :
  nat_last_leb a b = true \/ nat_last_leb b a = true.
Proof.
  destruct a as [a|], b as [b|]; simpl; auto. apply ts_leb_total.
Qed.

Lemma nat_last_leb_trans (a b c : option Timestamp) :
  nat_last_leb a b = true -> nat_last_leb b c = true ->
  nat_last_leb a c = true.
Proof.
  destruct a as [a|], b as [b|], c as [c|]; simpl; try congruence.
  apply ts_leb_trans.
Qed.

Lemma sort_key_leb_iff (a b : Abonnement) :
  sort_key_leb a b = true <->
  customer_id a < customer_id b
  \/ (customer_id a = customer_id b
      /\ nat_last_leb (order_date a) (order_date b) = true).
Proof.
  unfold sort_key_leb.
  rewrite orb_true_iff, andb_true_iff, Z.ltb_lt, Z.eqb_eq. reflexivity.
Qed.

Lemma sort_key_leb_total (a b : Abonnement) :
  sort_key_leb a b = true \/ sort_key_leb b a = true.
Proof.
  rewrite !sort_key_leb_iff.
  destruct (Z.lt_trichotomy (customer_id a) (customer_id b))
    as [H | [H | H]]; [left; now left | | right; left; lia].
  destruct (nat_last_leb_total (order_date a) (order_date b)) as [H' | H'];
    [left | right]; right; (split; [congruence | exact H']).
Qed.

Lemma sort_key_leb_trans (a b c : Abonnement) :
  sort_key_leb a b = true -> sort_key_leb b c = true ->
  sort_key_leb a c = true.
Proof.
  rewrite !sort_key_leb_iff.
  intros [H1 | [H1 H1']] [H2 | [H2 H2']]; try lia.
  right. split; [lia|]. eapply nat_last_leb_trans; eassumption.
Qed.

(** In a sorted frame an earlier row does not come after a later one. *)
Lemma StronglySorted_nth {A} (le : A -> A -> Prop) (l : list A) :
  StronglySorted le l ->
  forall i j x y, (i < j)%nat -> nth_error l i = Some x ->
                  nth_error l j = Some y -> le x y.
Proof.
  induction 1 as [|a t Ht IH Ha]; intros i j x y Hij Hi Hj.
  - destruct i; discriminate.
  - destruct j as [|j]; [lia|]. destruct i as [|i]; simpl in *.
    + injection Hi as <-. rewrite Forall_forall in Ha.
      apply Ha. eapply nth_error_In. eassumption.
    + apply (IH i j); [lia | assumption..].
Qed.

Lemma echeance_precedente_length (df_sorted : list Abonnement) :
  List.length (echeance_precedente df_sorted) = List.length df_sorted.
Proof.
  unfold echeance_precedente, groupby_shift.
  now rewrite shift_in_groups_length, length_map.
Qed.

(** The gap column, row by row. *)
Lemma duree_trou_jours_nth (df_sorted : list Abonnement) (j : nat)
    (r : Abonnement) :
  nth_error df_sorted j = Some r ->
  exists prev,
    nth_error (echeance_precedente df_sorted) j = Some prev
    /\ nth_error (duree_trou_jours df_sorted) j
       = Some (dt_days (order_date r) prev).
Proof.
  intros Hr.
  destruct (nth_error (echeance_precedente df_sorted) j) as [prev|] eqn:E.
  - exists prev. split; [reflexivity|].
    unfold duree_trou_jours.
    rewrite nth_error_map, nth_error_combine, Hr, E. reflexivity.
  - apply nth_error_None in E. rewrite echeance_precedente_length in E.
    assert (j < List.length df_sorted)%nat
      by (apply nth_error_Some; congruence).
    lia.
Qed.

Lemma lancer_nouveau_parcours_nth (df_sorted : list Abonnement) (j : nat)
    (r : Abonnement) (prev : option Timestamp) :
  nth_error df_sorted j = Some r ->
  nth_error (echeance_precedente df_sorted) j = Some prev ->
  nth_error (lancer_analyse.nouveau_parcours df_sorted) j
  = Some (nouveau_parcours_of (dt_days (order_date r) prev)
            (lancer_analyse.seuil_churn_jours r)).
Proof.
  intros Hr Hp. destruct (duree_trou_jours_nth _ _ _ Hr) as [prev' [E Hg]].
  rewrite Hp in E. injection E as <-.
  unfold lancer_analyse.nouveau_parcours.
  rewrite nth_error_map, nth_error_combine, Hr, Hg. reflexivity.
Qed.

Lemma pipeline_nouveau_parcours_nth (df_sorted : list Abonnement) (j : nat)
    (r : Abonnement) (prev : option Timestamp) :
  nth_error df_sorted j = Some r ->
  nth_error (echeance_precedente df_sorted) j = Some prev ->
  nth_error (pipeline_JA.nouveau_parcours df_sorted) j
  = Some (nouveau_parcours_of (dt_days (order_date r) prev) 90).
Proof.
  intros Hr Hp. destruct (duree_trou_jours_nth _ _ _ Hr) as [prev' [E Hg]].
  rewrite Hp in E. injection E as <-.
  unfold pipeline_JA.nouveau_parcours.
  rewrite nth_error_map, Hg. reflexivity.
Qed.

(** The due date a row is compared with is that of the row of the same
    customer just before it. *)
Lemma echeance_precedente_prev (df_sorted : list Abonnement) (i j : nat)
    (p r : Abonnement) :
  nth_error df_sorted i = Some p ->
  nth_error df_sorted j = Some r ->
  (i < j)%nat ->
  customer_id p = customer_id r ->
  (forall m z, (i < m < j)%nat -> nth_error df_sorted m = Some z ->
               customer_id z <> customer_id r) ->
  nth_error (echeance_precedente df_sorted) j = Some (ECHEANCE_date p).
Proof.
  intros Hp Hr Hij Hc Hb. unfold echeance_precedente, groupby_shift.
  apply (shift_in_groups_prev _ [] i j (customer_id r) (ECHEANCE_date p)
           (ECHEANCE_date r)).
  - rewrite nth_error_map, Hp. simpl. now rewrite Hc.
  - rewrite nth_error_map, Hr. reflexivity.
  - exact Hij.
  - intros m k' w Hm Hn. rewrite nth_error_map in Hn.
    destruct (nth_error df_sorted m) as [z|] eqn:E; [|discriminate].
    simpl in Hn. injection Hn as <- _. now apply (Hb m z).
Qed.

(** The first row of a customer has no due date to be compared with. *)
Lemma echeance_precedente_first (df_sorted : list Abonnement) (j : nat)
    (r : Abonnement) :
  nth_error df_sorted j = Some r ->
  (forall m z, (m < j)%nat -> nth_error df_sorted m = Some z ->
               customer_id z <> customer_id r) ->
  nth_error (echeance_precedente df_sorted) j = Some None.
Proof.
  intros Hr Hb. unfold echeance_precedente, groupby_shift.
  apply (shift_in_groups_first _ [] j (customer_id r) (ECHEANCE_date r)).
  - rewrite nth_error_map, Hr. reflexivity.
  - intros m k' w Hm Hn. rewrite nth_error_map in Hn.
    destruct (nth_error df_sorted m) as [z|] eqn:E; [|discriminate].
    simpl in Hn. injection Hn as <- _. now apply (Hb m z).
Qed.

Lemma nouveau_parcours_of_iff (gap : option Z) (seuil : Z) :
  nouveau_parcours_of gap seuil = true <->
  gap = None \/ exists g, gap = Some g /\ seuil <= g.
Proof.
  destruct gap as [g|]; simpl.
  - rewrite Z.leb_le. split.
    + intros H. right. now exists g.
    + intros [H | [g' [E H]]]; [discriminate | congruence].
  - split; [now left | reflexivity].
Qed.

(** C3, as the code has it.  Take two consecutive
    transactions [p], [r] of one customer in the sorted frame, and let the
    gap be the days from the due date of [p] to the start date of [r],
    undefined when either date is missing.  In lancer_analyse [r] starts a
    new journey exactly when the gap is undefined or at least the threshold,
    35 days when the frequency of [r] contains "monthly" in any letter case
    and 90 days otherwise, a missing frequency included.  In pipeline_JA the
    threshold is 90 days whatever the frequency. *)
Theorem new_journey_threshold (df_sorted : list Abonnement) (i j : nat)
    (p r : Abonnement) :
  nth_error df_sorted i = Some p ->
  nth_error df_sorted j = Some r ->
  (i < j)%nat ->
  customer_id p = customer_id r ->
  (forall m z, (i < m < j)%nat -> nth_error df_sorted m = Some z ->
               customer_id z <> customer_id r) ->
  let gap := dt_days (order_date r) (ECHEANCE_date p) in
  (exists flag,
      nth_error (lancer_analyse.nouveau_parcours df_sorted) j = Some flag
      /\ (flag = true <->
          gap = None
          \/ exists g, gap = Some g
                       /\ (if str_lower_contains "monthly" (frequence r)
                           then 35 else 90) <= g))
  /\ (exists flag,
        nth_error (pipeline_JA.nouveau_parcours df_sorted) j = Some flag
        /\ (flag = true <->
            gap = None \/ exists g, gap = Some g /\ 90 <= g)).
Proof.
  intros Hp Hr Hij Hc Hb gap.
  pose proof (echeance_precedente_prev _ _ _ _ _ Hp Hr Hij Hc Hb) as Hprev.
  split.
  - eexists. split.
    + apply (lancer_nouveau_parcours_nth _ _ _ _ Hr Hprev).
    + apply nouveau_parcours_of_iff.
  - eexists. split.
    + apply (pipeline_nouveau_parcours_nth _ _ _ _ Hr Hprev).
    + apply nouveau_parcours_of_iff.
Qed.
End Journeys.

Section JourneyPartition.
Import Pandas Gemini lancer_analyse.

Lemma nouveau_parcours_length (df_sorted : list Abonnement) :
  List.length (nouveau_parcours df_sorted) = List.length df_sorted.
Proof.
  unfold nouveau_parcours, duree_trou_jours.
  rewrite length_map, length_combine, length_map, length_combine.
  rewrite echeance_precedente_length. lia.
Qed.

Lemma id_parcours_length (df_sorted : list Abonnement) :
  List.length (id_parcours df_sorted) = List.length df_sorted.
Proof.
  unfold id_parcours, cumsum.
  rewrite length_combine, length_map, cumsum_from_length.
  rewrite nouveau_parcours_length. lia.
Qed.

Lemma map_fst_combine {A B} (l : list A) : forall (l' : list B),
  List.length l = List.length l' -> map fst (combine l l') = l.
Proof.
  induction l as [|a t IH]; intros [|b t'] H; simpl in *;
    try discriminate; [reflexivity|].
  f_equal. apply IH. lia.
Qed.

(** The columns of a row of [journeys]. *)
Lemma journeys_nth (df_sub : list Abonnement) (j : nat) (x : Parcours) :
  nth_error (journeys df_sub) j = Some x ->
  let df_sorted := sort_values sort_key_leb df_sub in
  nth_error df_sorted j = Some (row x)
  /\ nth_error (nouveau_parcours df_sorted) j = Some (p_nouveau_parcours x)
  /\ fst (p_id_parcours x) = customer_id (row x)
  /\ nth_error (cumsum (nouveau_parcours df_sorted)) j
     = Some (snd (p_id_parcours x)).
Proof.
  unfold journeys. cbv zeta.
  set (df_sorted := sort_values sort_key_leb df_sub).
  rewrite nth_error_map, !nth_error_combine.
  unfold id_parcours. rewrite nth_error_combine, nth_error_map.
  destruct (nth_error df_sorted j) as [r|]; [|discriminate].
  destruct (nth_error (nouveau_parcours df_sorted) j) as [f|];
    [|discriminate].
  simpl.
  destruct (nth_error (cumsum (nouveau_parcours df_sorted)) j) as [n|];
    [|discriminate].
  simpl. intros H. injection H as <-. simpl. repeat split.
Qed.

(** C9.  [journeys] gives each transaction of the
    sorted frame one row, hence one journey identifier, which names the
    customer of the transaction.  The first transaction of a customer starts
    a new journey.  Along the sorted frame the running number of the
    identifier never decreases, grows by one exactly at a transaction that
    starts a new journey, and so is strictly greater, at such a transaction,
    than on every earlier row: journeys are disjoint blocks of consecutive
    transactions.  Within a customer the transactions, and with them the
    journeys, follow the start dates.  A transaction starts a new journey
    exactly when it starts at least the threshold after the due date of the
    transaction just before it; nothing is compared with the due dates of
    earlier transactions, so the periods that two journeys of a customer
    cover can overlap. *)
Theorem journeys_partition (df_sub : list Abonnement) :
  let J := journeys df_sub in
  map row J = sort_values sort_key_leb df_sub
  /\ Permutation (map row J) df_sub
  /\ (forall j x, nth_error J j = Some x ->
        fst (p_id_parcours x) = customer_id (row x))
  /\ (forall j x,
        nth_error J j = Some x ->
        (forall m z, (m < j)%nat -> nth_error J m = Some z ->
                     customer_id (row z) <> customer_id (row x)) ->
        p_nouveau_parcours x = true)
  /\ (forall i x y,
        nth_error J i = Some x -> nth_error J (S i) = Some y ->
        snd (p_id_parcours y)
        = if p_nouveau_parcours y then snd (p_id_parcours x) + 1
          else snd (p_id_parcours x))
  /\ (forall i j x y,
        (i < j)%nat -> nth_error J i = Some x -> nth_error J j = Some y ->
        snd (p_id_parcours x) <= snd (p_id_parcours y)
        /\ (p_nouveau_parcours y = true ->
            snd (p_id_parcours x) < snd (p_id_parcours y))
        /\ (customer_id (row x) = customer_id (row y) ->
            nat_last_leb (order_date (row x)) (order_date (row y)) = true)
        /\ (p_id_parcours x = p_id_parcours y ->
            forall k z, (i < k < j)%nat -> nth_error J k = Some z ->
                        p_id_parcours z = p_id_parcours x))
  /\ (forall i x y s e,
        nth_error J i = Some x -> nth_error J (S i) = Some y ->
        customer_id (row x) = customer_id (row y) ->
        order_date (row y) = Some s -> ECHEANCE_date (row x) = Some e ->
        p_nouveau_parcours y
        = (seuil_churn_jours (row y) <=? days_between s e)).
Proof.
  cbv zeta.
  assert (Hrows : map row (journeys df_sub)
                  = sort_values sort_key_leb df_sub).
  { unfold journeys. cbv zeta.
    rewrite map_map. cbn [row].
    rewrite <- (map_map fst fst).
    rewrite !map_fst_combine; [reflexivity | |].
    - now rewrite nouveau_parcours_length.
    - rewrite length_combine, nouveau_parcours_length, id_parcours_length.
      lia. }
  split; [exact Hrows|]. split.
  { rewrite Hrows. symmetry. apply sort_values_perm. }
  split; [|split; [|split; [|split]]].
  - intros j x Hx. now apply journeys_nth in Hx.
  - intros j x Hx Hfirst.
    pose proof (journeys_nth _ _ _ Hx) as [Hr [Hf _]].
    assert (Hp : nth_error (echeance_precedente
                              (sort_values sort_key_leb df_sub)) j
                 = Some None).
    { apply (echeance_precedente_first _ j (row x)); [exact Hr|].
      intros m z Hm Hz.
      destruct (nth_error (journeys df_sub) m) as [w|] eqn:Ew.
      - pose proof (journeys_nth _ _ _ Ew) as [Hw _].
        rewrite Hz in Hw. injection Hw as ->. now apply (Hfirst m w).
      - apply nth_error_None in Ew.
        rewrite <- (length_map row), Hrows in Ew.
        assert (m < List.length (sort_values sort_key_leb df_sub))%nat
          by (apply nth_error_Some; congruence).
        lia. }
    rewrite (lancer_nouveau_parcours_nth _ _ _ _ Hr Hp) in Hf.
    injection Hf as <-. destruct (order_date (row x)); reflexivity.
  - intros i x y Hx Hy.
    pose proof (journeys_nth _ _ _ Hx) as [_ [_ [_ Hcx]]].
    pose proof (journeys_nth _ _ _ Hy) as [_ [Hfy [_ Hcy]]].
    unfold cumsum in *.
    eapply cumsum_from_step; eassumption.
  - intros i j x y Hij Hx Hy.
    pose proof (journeys_nth _ _ _ Hx) as [Hrx [_ [Hkx Hcx]]].
    pose proof (journeys_nth _ _ _ Hy) as [Hry [Hfy [Hky Hcy]]].
    unfold cumsum in *.
    split; [|split; [|split]].
    + eapply cumsum_from_mono; [|eassumption..]. lia.
    + intros Hf. rewrite Hf in Hfy.
      eapply cumsum_from_strict; eassumption.
    + intros Hc.
      pose proof (StronglySorted_nth _ _
                    (sort_values_sorted sort_key_leb sort_key_leb_total
                       sort_key_leb_trans df_sub)
                    i j (row x) (row y) Hij Hrx Hry) as Hle.
      simpl in Hle. apply sort_key_leb_iff in Hle.
      destruct Hle as [Hlt | [_ Hle]]; [lia | exact Hle].
    + intros Hid k z Hk Hz.
      pose proof (journeys_nth _ _ _ Hz) as [Hrz [_ [Hkz Hcz]]].
      unfold cumsum in *.
      assert (H1 : snd (p_id_parcours x) <= snd (p_id_parcours z))
        by (eapply cumsum_from_mono; [|eassumption..]; lia).
      assert (H2 : snd (p_id_parcours z) <= snd (p_id_parcours y))
        by (eapply cumsum_from_mono; [|eassumption..]; lia).
      rewrite <- Hid in H2.
      assert (Hs : snd (p_id_parcours z) = snd (p_id_parcours x)) by lia.
      assert (Hcust : customer_id (row z) = customer_id (row x)).
      { assert (Hxy : customer_id (row x) = customer_id (row y))
          by (rewrite <- Hkx, <- Hky, Hid; reflexivity).
        pose proof (sort_values_sorted sort_key_leb sort_key_leb_total
                      sort_key_leb_trans df_sub) as Hs'.
        pose proof (StronglySorted_nth _ _ Hs' i k (row x) (row z)
                      ltac:(lia) Hrx Hrz) as L1.
        pose proof (StronglySorted_nth _ _ Hs' k j (row z) (row y)
                      ltac:(lia) Hrz Hry) as L2.
        simpl in L1, L2. apply sort_key_leb_iff in L1, L2. lia. }
      destruct (p_id_parcours z) as [cz nz], (p_id_parcours x) as [cx nx].
      simpl in *. congruence.
  - intros i x y s e Hx Hy Hc Hs He.
    pose proof (journeys_nth _ _ _ Hx) as [Hrx _].
    pose proof (journeys_nth _ _ _ Hy) as [Hry [Hfy _]].
    assert (Hp : nth_error (echeance_precedente
                              (sort_values sort_key_leb df_sub)) (S i)
                 = Some (ECHEANCE_date (row x))).
    { apply (echeance_precedente_prev _ i (S i) (row x) (row y));
        try assumption; lia. }
    rewrite (lancer_nouveau_parcours_nth _ _ _ _ Hry Hp) in Hfy.
    injection Hfy as <-. rewrite Hs, He. reflexivity.
Qed.
End JourneyPartition.

(** ** The repair of the dates *)

Section DateRepair.
Import Pandas Gemini.
Local Arguments add_days : simpl never.

(** The due date is missing after parsing and after reconstruction. *)
Definition due_missing (a : Abonnement) : Prop :=
  ECHEANCE_date a = None
  /\ to_datetime_ymd (ECHEANCE_annee a) (ECHEANCE_mois a) (ECHEANCE_jour a)
     = None.

(** The start date is present, parsed or reconstructed. *)
Definition start_present (a : Abonnement) (start : Timestamp) : Prop :=
  order_date a = Some start
  \/ (order_date a = None
      /\ to_datetime_ymd (order_date_Annee a) (order_date_Mois a)
           (order_date_Jour_du_mois a) = Some start).

Lemma lancer_group_and_repair_data_In (df_grouped : list Abonnement)
    (r : lancer_analyse.Repare) :
  In r (lancer_analyse.group_and_repair_data df_grouped) <->
  exists a, In a df_grouped /\ r = lancer_analyse.repair a
            /\ lancer_analyse.usable r = true.
Proof.
  unfold lancer_analyse.group_and_repair_data.
  rewrite filter_In, in_map_iff. split.
  - intros [[a [<- Ha]] Hu]. exists a. repeat split; assumption.
  - intros [a [Ha [-> Hu]]]. split; [|assumption]. now exists a.
Qed.

(** The label [lancer_analyse] leaves on a record tells how its dates were
    obtained. *)
Lemma lancer_method_recorded (a : Abonnement) :
  let r := lancer_analyse.repair a in
  (lancer_analyse.methode_reparation_date r = lancer_analyse.Imputee <->
   exists start,
     due_missing a /\ start_present a start
     /\ str_lower_contains "monthly" (frequence a) = true)
  /\ (lancer_analyse.methode_reparation_date r = lancer_analyse.Originale <->
      order_date a <> None /\ ECHEANCE_date a <> None)
  /\ (lancer_analyse.methode_reparation_date r = lancer_analyse.Reconstruite ->
      lancer_analyse.usable r = true ->
      (order_date a = None \/ ECHEANCE_date a = None)
      /\ (order_date a = None ->
          order_date (lancer_analyse.abo r)
          = to_datetime_ymd (order_date_Annee a) (order_date_Mois a)
              (order_date_Jour_du_mois a))
      /\ (ECHEANCE_date a = None ->
          ECHEANCE_date (lancer_analyse.abo r)
          = to_datetime_ymd (ECHEANCE_annee a) (ECHEANCE_mois a)
              (ECHEANCE_jour a)))
  /\ (lancer_analyse.methode_reparation_date r = lancer_analyse.Originale
      \/ lancer_analyse.methode_reparation_date r
         = lancer_analyse.Reconstruite
      \/ lancer_analyse.methode_reparation_date r = lancer_analyse.Imputee).
Proof.
  unfold lancer_analyse.repair, lancer_analyse.phase_store,
    lancer_analyse.phase_impute, lancer_analyse.condition_fix_echeance,
    lancer_analyse.phase_reconstruct_echeance,
    lancer_analyse.phase_reconstruct_order, lancer_analyse.phase_parse,
    lancer_analyse.usable, due_missing, start_present,
    lancer_analyse.Imputee, lancer_analyse.Originale,
    lancer_analyse.Reconstruite.
  cbv zeta.
  destruct (order_date a) as [o|] eqn:Eo;
    destruct (ECHEANCE_date a) as [e|] eqn:Ee;
    cbn [isna notna negb lancer_analyse.order_date_dt
           lancer_analyse.ECHEANCE_date_dt lancer_analyse.abo
           lancer_analyse.methode_reparation_date andb];
    destruct (to_datetime_ymd (order_date_Annee a) (order_date_Mois a)
                (order_date_Jour_du_mois a)) as [o'|] eqn:Eo';
    destruct (to_datetime_ymd (ECHEANCE_annee a) (ECHEANCE_mois a)
                (ECHEANCE_jour a)) as [e'|] eqn:Ee';
    destruct (str_lower_contains "monthly" (frequence a)) eqn:Em;
    cbn [isna notna negb lancer_analyse.order_date_dt
           lancer_analyse.ECHEANCE_date_dt lancer_analyse.abo
           lancer_analyse.methode_reparation_date andb
           order_date ECHEANCE_date];
    (split; [split; [intros H; try discriminate H
                    | intros [s [[H1 H2] [[H3 | [H3 H4]] H5]]];
                      try discriminate; try reflexivity]
            | split; [split; [intros H; try discriminate H
                             | intros [H1 H2]; try congruence]
                     | split; [intros H Hu; try discriminate H;
                               try discriminate Hu
                              | auto]]]);
    try (repeat split; congruence);
    try (eexists; repeat split; eauto; fail);
    try (repeat split; auto; intros; congruence).
Qed.

(** C8, as the code has it.  For a record whose due date is
    missing after parsing and reconstruction, whose frequency contains
    "monthly" and whose start date is present, both [lancer_analyse] and
    [rapport_final] keep the record and set its due date to the start date
    plus 30 days, the calendar day numbered 30 more than the start date.  [lancer_analyse] labels the record as imputed, and the
    label of every record it returns tells whether the dates are the
    original ones, were reconstructed, or the due date was imputed;
    [rapport_final] carries no such label. *)
Theorem due_date_imputed (df_grouped : list Abonnement) (a : Abonnement)
    (start : Timestamp) :
  In a df_grouped ->
  due_missing a ->
  str_lower_contains "monthly" (frequence a) = true ->
  start_present a start ->
  (let r := lancer_analyse.repair a in
   In r (lancer_analyse.group_and_repair_data df_grouped)
   /\ order_date (lancer_analyse.abo r) = Some start
   /\ ECHEANCE_date (lancer_analyse.abo r) = Some (add_days start 30)
   /\ lancer_analyse.methode_reparation_date r = lancer_analyse.Imputee)
  /\ (let b := rapport_final.repair a in
      In b (rapport_final.group_and_repair_data df_grouped)
      /\ order_date b = Some start
      /\ ECHEANCE_date b = Some (add_days start 30))
  /\ (forall r,
        In r (lancer_analyse.group_and_repair_data df_grouped) ->
        exists a', In a' df_grouped /\ r = lancer_analyse.repair a'
          /\ (lancer_analyse.methode_reparation_date r
              = lancer_analyse.Imputee <->
              exists s, due_missing a' /\ start_present a' s
                /\ str_lower_contains "monthly" (frequence a') = true)
          /\ (lancer_analyse.methode_reparation_date r
              = lancer_analyse.Originale <->
              order_date a' <> None /\ ECHEANCE_date a' <> None)
          /\ (lancer_analyse.methode_reparation_date r
              = lancer_analyse.Reconstruite ->
              (order_date a' = None \/ ECHEANCE_date a' = None)
              /\ (order_date a' = None ->
                  order_date (lancer_analyse.abo r)
                  = to_datetime_ymd (order_date_Annee a')
                      (order_date_Mois a') (order_date_Jour_du_mois a'))
              /\ (ECHEANCE_date a' = None ->
                  ECHEANCE_date (lancer_analyse.abo r)
                  = to_datetime_ymd (ECHEANCE_annee a') (ECHEANCE_mois a')
                      (ECHEANCE_jour a')))
          /\ (lancer_analyse.methode_reparation_date r
              = lancer_analyse.Originale
              \/ lancer_analyse.methode_reparation_date r
                 = lancer_analyse.Reconstruite
              \/ lancer_analyse.methode_reparation_date r
                 = lancer_analyse.Imputee))
  /\ (valid_ts start ->
      valid_ts (add_days start 30)
      /\ days_between (add_days start 30) start = 30).
Proof.
  intros Hin [Hd1 Hd2] Hm Hs. split; [|split; [|split]];
    [| | | intros Hv; apply (add_days_toordinal 30 start Hv)].
  - cbv zeta.
    assert (H : order_date (lancer_analyse.abo (lancer_analyse.repair a))
                = Some start
                /\ ECHEANCE_date (lancer_analyse.abo (lancer_analyse.repair a))
                   = Some (add_days start 30)
                /\ lancer_analyse.methode_reparation_date
                     (lancer_analyse.repair a) = lancer_analyse.Imputee).
    { unfold lancer_analyse.repair, lancer_analyse.phase_store,
        lancer_analyse.phase_impute, lancer_analyse.condition_fix_echeance,
        lancer_analyse.phase_reconstruct_echeance,
        lancer_analyse.phase_reconstruct_order, lancer_analyse.phase_parse.
      destruct Hs as [Ho | [Ho Ho']];
        repeat (progress (cbn; rewrite ?Ho, ?Ho', ?Hd1, ?Hd2, ?Hm));
        repeat split. }
    destruct H as [H1 [H2 H3]]. repeat split; try assumption.
    apply lancer_group_and_repair_data_In. exists a.
    repeat split; [assumption|].
    unfold lancer_analyse.usable. now rewrite H1, H2.
  - cbv zeta.
    assert (H : order_date (rapport_final.repair a) = Some start
                /\ ECHEANCE_date (rapport_final.repair a)
                   = Some (add_days start 30)).
    { unfold rapport_final.repair, rapport_final.impute,
        rapport_final.condition_fix_echeance,
        rapport_final.reconstruct_echeance, rapport_final.reconstruct_order.
      destruct Hs as [Ho | [Ho Ho']];
        repeat (progress (cbn; rewrite ?Ho, ?Ho', ?Hd1, ?Hd2, ?Hm));
        repeat split. }
    destruct H as [H1 H2]. repeat split; try assumption.
    unfold rapport_final.group_and_repair_data.
    apply filter_In. split; [now apply in_map|].
    unfold rapport_final.usable. now rewrite H1, H2.
  - intros r Hr. apply lancer_group_and_repair_data_In in Hr.
    destruct Hr as [a' [Ha' [-> Hu]]]. exists a'.
    destruct (lancer_method_recorded a') as [L1 [L2 [L3 L4]]].
    split; [assumption|]. split; [reflexivity|].
    split; [exact L1|]. split; [exact L2|].
    split; [intros H; exact (L3 H Hu) | exact L4].
Qed.
End DateRepair.

(** ** Revenue per month *)

Section MonthlyAmount.
Import Pandas Gemini.

(** What [analyse_abo_court] computes for a revenue that parses: the
    twelfth for a frequency that contains "annual", else the whole for one
    that contains "monthly", else nothing. *)
Lemma analyse_abo_court_montant (row : Abonnement) (q : Q) :
  consolidated_revenues_ht_euro row = Number q ->
  let f := lower (str_of_cell (frequence row)) in
  (contains "annual" f = true ->
   analyse_abo_court.montant_mensuel row = Some (q / 12)%Q)
  /\ (contains "annual" f = false -> contains "monthly" f = true ->
      analyse_abo_court.montant_mensuel row = Some q)
  /\ (contains "annual" f = false -> contains "monthly" f = false ->
      analyse_abo_court.montant_mensuel row = Some 0%Q).
Proof.
  intros Hq. unfold analyse_abo_court.montant_mensuel. rewrite Hq.
  cbv zeta. repeat split.
  - intros ->. reflexivity.
  - intros -> ->. reflexivity.
  - intros -> ->. reflexivity.
Qed.

Lemma analyse_abo_court_montant_absent (row : Abonnement) (q : Q) :
  consolidated_revenues_ht_euro row = Number q ->
  frequence row = None ->
  analyse_abo_court.montant_mensuel row = Some 0%Q.
Proof.
  intros Hq Hf. unfold analyse_abo_court.montant_mensuel.
  rewrite Hq, Hf. reflexivity.
Qed.

Lemma analyse_abo_court_montant_text (row : Abonnement) (s : string) :
  consolidated_revenues_ht_euro row = Text s ->
  analyse_abo_court.montant_mensuel row = Some 0%Q.
Proof.
  intros Hq. unfold analyse_abo_court.montant_mensuel. now rewrite Hq.
Qed.

(** C7, where the code departs from it.  On a subscription of
    revenue 10 whose frequency is "monthly", and on one whose frequency is
    "annual", pipeline_JA computes the amount 0, since it looks for the
    words "mensuel" and "annuel"; analyse_abo_court computes 10 and 10/12. *)
Theorem pipeline_JA_montant_keywords :
  pipeline_JA.montant_mensuel
    (Examples.abo 1 11 None None "monthly") = Some 0%Q
  /\ pipeline_JA.montant_mensuel
       (Examples.abo 1 11 None None "annual") = Some 0%Q
  /\ analyse_abo_court.montant_mensuel
       (Examples.abo 1 11 None None "monthly") = Some 10%Q
  /\ analyse_abo_court.montant_mensuel
       (Examples.abo 1 11 None None "annual") = Some (10 / 12)%Q.
Proof. repeat split; vm_compute; reflexivity. Qed.
End MonthlyAmount.

(** ** The cohort table: when it exists, its keys and its order *)

Section CohortTable.
Import Pandas Claude_retention_analysis.

Lemma retention_results_nil (monthly_df : list MonthlyRow) :
  retention_results monthly_df = []
  <-> forall r, In r monthly_df -> mois_relatif r <> 0.
Proof.
  split.
  - intros E r Hr H0.
    destruct (calculate_cohort_retention_Ok monthly_df) as [points Hp].
    { exists r. split; assumption. }
    unfold calculate_cohort_retention in Hp. rewrite E in Hp. discriminate.
  - intros H. destruct (retention_results monthly_df) as [|p l] eqn:E;
      [reflexivity|].
    exfalso.
    assert (Hp : In p (retention_results monthly_df))
      by (rewrite E; left; reflexivity).
    apply retention_results_In in Hp. destruct Hp as [_ Hp].
    apply cohort_points_In in Hp. cbv zeta in Hp. destruct Hp as [Hn _].
    apply customers_at_nonzero in Hn. destruct Hn as [r [Hr H0]].
    apply filter_In in Hr. destruct Hr as [Hr _].
    exact (H r Hr H0).
Qed.

(** X1. [calculate_cohort_retention] raises exactly when the monthly table
    has no row at relative month 0 (every cohort is then skipped and the
    frame of results has no column to sort by), and it raises nothing but
    that KeyError. *)
Theorem cohort_retention_raises_iff (monthly_df : list MonthlyRow) :
  (calculate_cohort_retention monthly_df = Err KeyError
   <-> forall r, In r monthly_df -> mois_relatif r <> 0)
  /\ (forall e, calculate_cohort_retention monthly_df = Err e -> e = KeyError).
Proof.
  split.
  - rewrite <- retention_results_nil. unfold calculate_cohort_retention.
    destruct (retention_results monthly_df); split; intros H;
      try reflexivity; discriminate.
  - intros e. unfold calculate_cohort_retention.
    destruct (retention_results monthly_df); intros H;
      [injection H as <-; reflexivity | discriminate].
Qed.

Lemma NoDup_flat_map_keys {A B K1 K2 : Type} (g : A -> list B)
    (k1 : B -> K1) (k2 : B -> K2) (l : list A) (tag : A -> K1) :
  NoDup (map tag l) ->
  (forall x y, In x l -> In y (g x) -> k1 y = tag x) ->
  (forall x, In x l -> NoDup (map k2 (g x))) ->
  NoDup (map (fun y => (k1 y, k2 y)) (flat_map g l)).
Proof.
  induction l as [|a l IH]; intros Hl Htag Hg; simpl; [constructor|].
  inversion Hl as [|? ? Ha Hl']; subst.
  rewrite map_app. apply NoDup_app.
  - assert (H := Hg a (or_introl eq_refl)).
    assert (Ht : forall y, In y (g a) -> k1 y = tag a)
      by (intros y Hy; apply Htag; [left; reflexivity | assumption]).
    clear - H Ht. induction (g a) as [|y t IHt]; simpl; [constructor|].
    inversion H as [|? ? Hy Ht']; subst. constructor.
    + intros Hin. apply in_map_iff in Hin. destruct Hin as [z [Ez Hz]].
      injection Ez as _ E2. apply Hy. rewrite <- E2. now apply in_map.
    + apply IHt; [assumption|]. intros z Hz. apply Ht. now right.
  - apply IH; [assumption | |].
    + intros x y Hx Hy. apply Htag; [now right | assumption].
    + intros x Hx. apply Hg. now right.
  - intros k Hk Hk'.
    apply in_map_iff in Hk. destruct Hk as [y [Ey Hy]].
    apply in_map_iff in Hk'. destruct Hk' as [z [Ez Hz]].
    apply in_flat_map in Hz. destruct Hz as [x [Hx Hz]].
    apply Ha. subst k. injection Ez as E1 _.
    rewrite (Htag a y (or_introl eq_refl) Hy) in E1.
    rewrite (Htag x z (or_intror Hx) Hz) in E1.
    rewrite <- E1. now apply in_map.
Qed.

Definition point_key (p : RetentionPoint) : Mois * Z :=
  (cohorte p, r_mois_relatif p).

Lemma months_sorted_NoDup (l : list Z) :
  NoDup (sort_values Z.leb (unique Z.eqb l)).
Proof.
  apply (Permutation_NoDup (sort_values_perm Z.leb (unique Z.eqb l))).
  apply unique_NoDup. intros a b. apply Z.eqb_eq.
Qed.

Lemma retention_results_keys (monthly_df : list MonthlyRow) :
  NoDup (map point_key (retention_results monthly_df)).
Proof.
  unfold retention_results, point_key.
  apply NoDup_flat_map_keys with (tag := fun c : Mois => c).
  - rewrite map_id. apply unique_NoDup. exact mois_eqb_spec.
  - intros c p _ Hp. apply cohort_points_In in Hp. cbv zeta in Hp.
    destruct Hp as [_ [_ Hp]]. rewrite Hp. reflexivity.
  - intros c _. unfold cohort_points.
    destruct (customers_at (cohort_rows monthly_df c) 0 =? 0);
      [constructor|].
    rewrite map_map. simpl. rewrite map_id. apply months_sorted_NoDup.
Qed.

(** X2. The cohort table has one row per cohort and relative month: no two
    of its rows share both, and a row exists for cohort [c] and month [m]
    exactly when the monthly table has a row of cohort [c] at month 0 and
    one at month [m]. *)
Theorem one_point_per_cohort_month (monthly_df : list MonthlyRow)
    (points : list RetentionPoint) :
  calculate_cohort_retention monthly_df = Ok points ->
  NoDup (map (fun p => (cohorte p, r_mois_relatif p)) points)
  /\ (forall c m,
        (exists p, In p points /\ cohorte p = c /\ r_mois_relatif p = m)
        <-> (exists r, In r monthly_df /\ date_debut_parcours r = c
                       /\ mois_relatif r = 0)
            /\ (exists r, In r monthly_df /\ date_debut_parcours r = c
                          /\ mois_relatif r = m)).
Proof.
  intros Hok. split.
  - assert (Hperm : Permutation (retention_results monthly_df) points).
    { unfold calculate_cohort_retention in Hok.
      destruct (retention_results monthly_df) as [|q t] eqn:E;
        [discriminate|].
      injection Hok as <-. exact (sort_values_perm point_leb (q :: t)). }
    apply (Permutation_NoDup (Permutation_map _ Hperm)).
    exact (retention_results_keys monthly_df).
  - intros c m. split.
    + intros [p [Hp [Hc Hm]]].
      apply (calculate_cohort_retention_In _ _ _ Hok) in Hp.
      apply retention_results_In in Hp. destruct Hp as [_ Hp].
      apply cohort_points_In in Hp. cbv zeta in Hp.
      destruct Hp as [Hn [Hin _]]. rewrite Hc, Hm in *.
      apply customers_at_nonzero in Hn. destruct Hn as [r0 [Hr0 H0]].
      apply filter_In in Hr0. destruct Hr0 as [Hr0 Hc0].
      apply mois_eqb_spec in Hc0.
      apply in_map_iff in Hin. destruct Hin as [r [Hrm Hr]].
      apply filter_In in Hr. destruct Hr as [Hr Hcr].
      apply mois_eqb_spec in Hcr.
      split; [exists r0 | exists r]; repeat split; assumption.
    + intros [[r0 [Hr0 [Hc0 H0]]] [r [Hr [Hcr Hrm]]]].
      set (data := cohort_rows monthly_df c).
      assert (Hr0' : In r0 data).
      { apply filter_In. split; [assumption|]. now apply mois_eqb_spec. }
      assert (Hr' : In r data).
      { apply filter_In. split; [assumption|]. now apply mois_eqb_spec. }
      exists {| cohorte := c; r_mois_relatif := m;
                clients_initiaux := customers_at data 0;
                clients_actifs := customers_at data m;
                taux_retention :=
                  round2 (inject_Z (customers_at data m)
                          / inject_Z (customers_at data 0) * 100) |}.
      simpl. split; [|split; reflexivity].
      apply (calculate_cohort_retention_In _ _ _ Hok).
      apply retention_results_In. simpl. split.
      * rewrite <- Hc0. now apply in_map.
      * apply cohort_points_In. simpl. split; [|split; [|reflexivity]].
        -- apply customers_at_nonzero. exists r0. split; assumption.
        -- rewrite <- Hrm. now apply in_map.
Qed.

Lemma mois_leb_total (a b : Mois) :
  mois_leb a b = true \/ mois_leb b a = true.
Proof.
  unfold mois_leb.
  destruct (Z.lt_trichotomy (fst a) (fst b)) as [H|[H|H]].
  - left. apply orb_true_iff. left. now apply Z.ltb_lt.
  - destruct (Z.le_ge_cases (snd a) (snd b)) as [H'|H'].
    + left. apply orb_true_iff. right. apply andb_true_iff.
      split; [now apply Z.eqb_eq | now apply Z.leb_le].
    + right. apply orb_true_iff. right. apply andb_true_iff.
      split; [now apply Z.eqb_eq | now apply Z.leb_le].
  - right. apply orb_true_iff. left. now apply Z.ltb_lt.
Qed.

Lemma mois_leb_iff (a b : Mois) :
  mois_leb a b = true
  <-> fst a < fst b \/ (fst a = fst b /\ snd a <= snd b).
Proof.
  unfold mois_leb. rewrite orb_true_iff, andb_true_iff, Z.ltb_lt, Z.eqb_eq,
    Z.leb_le. reflexivity.
Qed.

Lemma mois_leb_trans (a b c : Mois) :
  mois_leb a b = true -> mois_leb b c = true -> mois_leb a c = true.
Proof. rewrite !mois_leb_iff. lia. Qed.

Lemma mois_leb_antisym (a b : Mois) :
  mois_leb a b = true -> mois_leb b a = true -> a = b.
Proof.
  rewrite !mois_leb_iff. destruct a, b. simpl. intros H H'.
  f_equal; lia.
Qed.

Lemma point_leb_total (a b : RetentionPoint) :
  point_leb a b = true \/ point_leb b a = true.
Proof.
  unfold point_leb.
  destruct (mois_eqb (cohorte a) (cohorte b)) eqn:E.
  - apply mois_eqb_spec in E. rewrite E.
    replace (mois_eqb (cohorte b) (cohorte b)) with true
      by (symmetry; now apply mois_eqb_spec).
    destruct (Z.le_ge_cases (r_mois_relatif a) (r_mois_relatif b));
      [left | right]; now apply Z.leb_le.
  - destruct (mois_eqb (cohorte b) (cohorte a)) eqn:E'.
    + apply mois_eqb_spec in E'. symmetry in E'.
      apply mois_eqb_spec in E'. congruence.
    + apply mois_leb_total.
Qed.

Lemma point_leb_trans (a b c : RetentionPoint) :
  point_leb a b = true -> point_leb b c = true -> point_leb a c = true.
Proof.
  unfold point_leb.
  destruct (mois_eqb (cohorte a) (cohorte b)) eqn:Eab;
    destruct (mois_eqb (cohorte b) (cohorte c)) eqn:Ebc;
    destruct (mois_eqb (cohorte a) (cohorte c)) eqn:Eac;
    try (apply mois_eqb_spec in Eab); try (apply mois_eqb_spec in Ebc);
    try (apply mois_eqb_spec in Eac);
    rewrite ?Z.leb_le; intros H H'.
  - lia.
  - exfalso. assert (E : cohorte a = cohorte c) by congruence.
    apply mois_eqb_spec in E. congruence.
  - exfalso. assert (E : cohorte b = cohorte c) by congruence.
    apply mois_eqb_spec in E. congruence.
  - rewrite Eab. assumption.
  - exfalso. assert (E : cohorte a = cohorte b) by congruence.
    apply mois_eqb_spec in E. congruence.
  - rewrite <- Ebc. assumption.
  - exfalso. rewrite Eac in H.
    assert (E : cohorte c = cohorte b)
      by (apply mois_leb_antisym; assumption).
    symmetry in E. apply mois_eqb_spec in E. congruence.
  - exact (mois_leb_trans _ _ _ H H').
Qed.

Lemma StronglySorted_strict {A K : Type} (R : A -> A -> Prop) (key : A -> K)
    (l : list A) :
  StronglySorted R l -> NoDup (map key l) ->
  StronglySorted (fun a b => R a b /\ key a <> key b) l.
Proof.
  induction 1 as [|a l Hs IH Hall]; intros Hn; [constructor|].
  simpl in Hn. inversion Hn as [|? ? Ha Hn']; subst.
  constructor; [now apply IH|].
  rewrite Forall_forall in *. intros b Hb. split; [now apply Hall|].
  intros E. apply Ha. rewrite E. now apply in_map.
Qed.

Lemma cohort_table_sorted (monthly_df : list MonthlyRow)
    (points : list RetentionPoint) :
  calculate_cohort_retention monthly_df = Ok points ->
  NoDup (map point_key points)
  /\ StronglySorted (fun a b => point_leb a b = true) points.
Proof.
  intros Hok. unfold calculate_cohort_retention in Hok.
  destruct (retention_results monthly_df) as [|q t] eqn:E; [discriminate|].
  injection Hok as <-. split.
  - apply (Permutation_NoDup
             (Permutation_map _ (sort_values_perm point_leb (q :: t)))).
    rewrite <- E. exact (retention_results_keys monthly_df).
  - exact (sort_values_sorted point_leb point_leb_total point_leb_trans
             (q :: t)).
Qed.

(** The order of the cohort table: within a cohort by increasing month,
    between cohorts by the text ['%m/%Y'] of the cohort, that is by month
    number first and by year second. *)
Definition point_before (a b : RetentionPoint) : Prop :=
  (cohorte a = cohorte b /\ r_mois_relatif a < r_mois_relatif b)
  \/ (fst (cohorte a) < fst (cohorte b))
  \/ (fst (cohorte a) = fst (cohorte b)
      /\ snd (cohorte a) < snd (cohorte b)).

(** X3. The rows of the cohort table come sorted, each strictly before
    every later one: the rows of one cohort by increasing relative month,
    and the cohorts by their text MM/YYYY, so by month number before year
    (01/2023 comes before 12/2022). *)
Theorem cohort_table_order (monthly_df : list MonthlyRow)
    (points : list RetentionPoint) :
  calculate_cohort_retention monthly_df = Ok points ->
  StronglySorted point_before points.
Proof.
  intros Hok.
  destruct (cohort_table_sorted monthly_df points Hok) as [Hn Hs].
  pose proof (StronglySorted_strict _ point_key _ Hs Hn) as H.
  clear Hs Hn Hok. induction H as [|a l Hs IH Hall]; [constructor|].
  constructor; [assumption|].
  rewrite Forall_forall in *. intros b Hb.
  destruct (Hall b Hb) as [Hle Hk]. unfold point_before.
  unfold point_leb in Hle. unfold point_key in Hk.
  destruct (mois_eqb (cohorte a) (cohorte b)) eqn:E.
  - apply mois_eqb_spec in E. apply Z.leb_le in Hle. left.
    split; [assumption|].
    assert (r_mois_relatif a <> r_mois_relatif b) by congruence. lia.
  - right. apply mois_leb_iff in Hle.
    destruct Hle as [Hlt|[He Hle]]; [left; assumption|].
    right. split; [assumption|].
    assert (snd (cohorte a) <> snd (cohorte b)).
    { intros E'. assert (Ec : cohorte a = cohorte b).
      { destruct (cohorte a), (cohorte b). simpl in *. congruence. }
      apply mois_eqb_spec in Ec. congruence. }
    lia.
Qed.

End CohortTable.

(** ** The monthly table: when it exists and which months it holds *)

Section MonthlyTable.
Import Pandas Claude_retention_analysis.

Definition expansion (df : list Transaction) : list MonthlyRow :=
  flat_map (customer_rows df) (unique Z.eqb (map customer_id df)).

Lemma expansion_In (df : list Transaction) (r : MonthlyRow) :
  In r (expansion df)
  <-> exists js t ts,
        journey_start df (customer_id t) = Some js
        /\ In t df /\ In ts (months_of t)
        /\ r = monthly_entry (customer_id t) (month_start js) t ts.
Proof.
  unfold expansion. rewrite monthly_rows_In, customer_rows_In. split.
  - intros [js [t [ts [Hjs [Ht [Hc [Hts Hr]]]]]]].
    exists js, t, ts. rewrite Hc. repeat split; assumption.
  - intros [js [t [ts [Hjs [Ht [Hts Hr]]]]]].
    assert (Hc : m_customer_id r = customer_id t) by (rewrite Hr; reflexivity).
    exists js, t, ts. rewrite Hc. repeat split; assumption.
Qed.

Lemma table_of_expansion (df : list Transaction) (rows : list MonthlyRow) :
  all_valid df ->
  create_monthly_retention_table df = Ok rows ->
  expansion df <> []
  /\ rows = drop_duplicates customer_mois_eqb customer_mois (expansion df).
Proof.
  intros Hv Hok.
  rewrite (create_monthly_retention_table_spec df Hv) in Hok.
  fold (expansion df) in Hok.
  destruct (expansion df); [discriminate|].
  injection Hok as <-. split; [discriminate | reflexivity].
Qed.

Lemma months_of_start (t : Transaction) :
  valid_transaction t ->
  0 <= months_from (order_date t) (echeance_date t) ->
  In (month_start (order_date t)) (months_of t).
Proof.
  intros Hv Hm. apply months_of_In; [assumption|].
  destruct Hv as [[Ho _] _].
  unfold valid_month, months_from, month_start in *. cbn [year month day].
  repeat split; try lia.
Qed.

Lemma months_of_nil (t : Transaction) :
  valid_transaction t ->
  months_from (order_date t) (echeance_date t) < 0 ->
  months_of t = [].
Proof.
  intros Hv Hm. destruct (months_of t) as [|ts l] eqn:E; [reflexivity|].
  assert (H : In ts (months_of t)) by (rewrite E; left; reflexivity).
  apply months_of_In in H; [|assumption]. lia.
Qed.

Lemma expansion_nil (df : list Transaction) :
  all_valid df ->
  expansion df = []
  <-> forall t, In t df ->
        months_from (order_date t) (echeance_date t) < 0.
Proof.
  intros Hv. split.
  - intros E t Ht.
    destruct (Z.lt_ge_cases (months_from (order_date t) (echeance_date t)) 0)
      as [H|H]; [assumption|].
    exfalso. destruct (journey_start_Some df t Ht) as [js Hjs].
    assert (Hin : In (monthly_entry (customer_id t) (month_start js) t
                        (month_start (order_date t))) (expansion df)).
    { apply expansion_In. exists js, t, (month_start (order_date t)).
      repeat split; try assumption.
      apply months_of_start; [now apply Hv | assumption]. }
    rewrite E in Hin. contradiction.
  - intros H. destruct (expansion df) as [|r l] eqn:E; [reflexivity|].
    exfalso.
    assert (Hin : In r (expansion df)) by (rewrite E; left; reflexivity).
    apply expansion_In in Hin.
    destruct Hin as [js [t [ts [_ [Ht [Hts _]]]]]].
    rewrite (months_of_nil t (Hv t Ht) (H t Ht)) in Hts. contradiction.
Qed.

(** X4. On valid dates [create_monthly_retention_table] raises exactly
    when every transaction falls due in a calendar month before the month
    it starts in (no month is covered, so the table has no column to
    deduplicate on); it raises nothing but that KeyError, and its month
    loop always ends. *)
Theorem monthly_table_raises_iff (df : list Transaction) :
  all_valid df ->
  (create_monthly_retention_table df = Err KeyError
   <-> forall t, In t df ->
         months_from (order_date t) (echeance_date t) < 0)
  /\ (forall e, create_monthly_retention_table df = Err e -> e = KeyError).
Proof.
  intros Hv. rewrite <- (expansion_nil df Hv).
  rewrite (create_monthly_retention_table_spec df Hv).
  fold (expansion df). destruct (expansion df) as [|r l]; split.
  - split; reflexivity.
  - intros e H. now injection H as <-.
  - split; discriminate.
  - discriminate.
Qed.

(** X5. A customer has a row for a calendar month in the monthly table
    exactly when one of the customer's transactions covers the month, from
    the month of its start date to the month of its due date. *)
Theorem monthly_table_months (df : list Transaction)
    (rows : list MonthlyRow) (c y m : Z) :
  all_valid df ->
  create_monthly_retention_table df = Ok rows ->
  1 <= m <= 12 ->
  (exists r, In r rows /\ m_customer_id r = c /\ mois r = (m, y))
  <-> (exists t, In t df /\ customer_id t = c
                 /\ 0 <= months_from (order_date t) (mkTs y m 1)
                      <= months_from (order_date t) (echeance_date t)).
Proof.
  intros Hv Hok Hm.
  destruct (table_of_expansion df rows Hv Hok) as [_ Hrows]. split.
  - intros [r [Hr [Hc Hmois]]]. rewrite Hrows in Hr.
    apply (drop_duplicates_In customer_mois_eqb customer_mois_eqb_spec
             customer_mois) in Hr.
    apply expansion_In in Hr.
    destruct Hr as [js [t [ts [_ [Ht [Hts Hrow]]]]]].
    exists t. split; [assumption|]. split; [now rewrite Hrow in Hc|].
    apply months_of_In in Hts; [|now apply Hv].
    rewrite Hrow in Hmois. cbn [mois monthly_entry] in Hmois.
    unfold strftime_mY in Hmois. injection Hmois as E1 E2.
    unfold months_from in *. cbn [year month]. lia.
  - intros [t [Ht [Hc Hcov]]].
    destruct (journey_start_Some df t Ht) as [js Hjs].
    assert (Hin : In (monthly_entry (customer_id t) (month_start js) t
                        (mkTs y m 1)) (expansion df)).
    { apply expansion_In. exists js, t, (mkTs y m 1).
      repeat split; try assumption.
      apply months_of_In; [now apply Hv|].
      unfold valid_month. cbn [year month day]. repeat split; lia. }
    apply (drop_duplicates_keys customer_mois_eqb customer_mois_eqb_spec
             customer_mois) in Hin.
    destruct Hin as [r [Hr Hk]]. rewrite <- Hrows in Hr.
    unfold customer_mois in Hk. cbn [m_customer_id mois monthly_entry] in Hk.
    unfold strftime_mY in Hk. cbn [year month] in Hk.
    injection Hk as E1 E2.
    exists r. split; [assumption|]. split; congruence.
Qed.

End MonthlyTable.

(** ** The cleaned frame and the cohort table of a frame *)

Section CleanedFrame.
Import Pandas Claude_retention_analysis.

(** [a] sorts before or with [b] in [sort_values(['customer_id',
    'order_date'])]. *)
Definition frame_order (a b : Transaction) : Prop :=
  customer_id a < customer_id b
  \/ (customer_id a = customer_id b
      /\ ts_leb (order_date a) (order_date b) = true).

Lemma transaction_leb_iff (a b : Transaction) :
  transaction_leb a b = true <-> frame_order a b.
Proof.
  unfold transaction_leb, frame_order.
  rewrite orb_true_iff, andb_true_iff, Z.ltb_lt, Z.eqb_eq. reflexivity.
Qed.

Lemma transaction_leb_total (a b : Transaction) :
  transaction_leb a b = true \/ transaction_leb b a = true.
Proof.
  rewrite !transaction_leb_iff. unfold frame_order.
  destruct (Z.lt_trichotomy (customer_id a) (customer_id b)) as [H|[H|H]].
  - left. left. assumption.
  - destruct (ts_leb_total (order_date a) (order_date b)) as [H'|H'].
    + left. right. split; assumption.
    + right. right. split; [symmetry|]; assumption.
  - right. left. assumption.
Qed.

Lemma transaction_leb_trans (a b c : Transaction) :
  transaction_leb a b = true -> transaction_leb b c = true ->
  transaction_leb a c = true.
Proof.
  rewrite !transaction_leb_iff. unfold frame_order.
  intros [H|[H H']] [G|[G G']].
  - left. lia.
  - left. lia.
  - left. lia.
  - right. split; [congruence|]. exact (ts_leb_trans _ _ _ H' G').
Qed.

Definition complete (r : RawTransaction) : bool :=
  match raw_order_date r, raw_echeance_date r, raw_customer_id r with
  | Some _, Some _, Some _ => true
  | _, _, _ => false
  end.

Lemma dropna_row_nil (r : RawTransaction) :
  dropna_row r = [] <-> complete r = false.
Proof.
  unfold dropna_row, complete.
  destruct (raw_order_date r), (raw_echeance_date r), (raw_customer_id r);
    split; intros H; try reflexivity; discriminate.
Qed.

Lemma series_min_None (l : list Timestamp) : series_min l = None <-> l = [].
Proof.
  destruct l; simpl; split; intros H; try reflexivity; discriminate.
Qed.

Lemma sort_values_nil {A} (leb : A -> A -> bool) (l : list A) :
  sort_values leb l = [] <-> l = [].
Proof.
  split; intros H; [|now rewrite H].
  destruct l as [|x t]; [reflexivity|].
  assert (Hx : In x (sort_values leb (x :: t)))
    by (apply sort_values_In; left; reflexivity).
  rewrite H in Hx. contradiction.
Qed.

Lemma load_and_clean_data_cases (raw : list RawTransaction) :
  let df := sort_values transaction_leb (flat_map dropna_row raw) in
  (df = [] /\ load_and_clean_data raw = Err NaTError)
  \/ (df <> [] /\ load_and_clean_data raw = Ok df).
Proof.
  intros df. unfold load_and_clean_data. fold df.
  destruct df as [|t l]; [left | right]; split;
    try reflexivity; discriminate.
Qed.

(** X6. The cleaning at the end of [load_and_clean_data] raises exactly
    when no row has its customer and both dates (the reporting period is
    asked of a missing minimum); otherwise it returns the rows that have
    all three, each as often as the file holds it, ordered by customer and,
    within a customer, by start date. *)
Theorem load_and_clean_data_rows (raw : list RawTransaction) :
  (load_and_clean_data raw = Err NaTError
   <-> forall r, In r raw -> complete r = false)
  /\ (forall e, load_and_clean_data raw = Err e -> e = NaTError)
  /\ (forall df, load_and_clean_data raw = Ok df ->
        Permutation (flat_map dropna_row raw) df
        /\ StronglySorted frame_order df).
Proof.
  pose proof (load_and_clean_data_cases raw) as H. cbv zeta in H.
  assert (Hnil : flat_map dropna_row raw = []
                 <-> forall r, In r raw -> complete r = false).
  { split.
    - intros E r Hr. apply dropna_row_nil.
      destruct (dropna_row r) as [|t l] eqn:Er; [reflexivity|].
      assert (Ht : In t (flat_map dropna_row raw)).
      { apply in_flat_map. exists r. split; [assumption|].
        rewrite Er. left. reflexivity. }
      rewrite E in Ht. contradiction.
    - intros Hc. destruct (flat_map dropna_row raw) as [|t l] eqn:E;
        [reflexivity|].
      assert (Ht : In t (flat_map dropna_row raw))
        by (rewrite E; left; reflexivity).
      apply in_flat_map in Ht. destruct Ht as [r [Hr Ht]].
      apply (proj2 (dropna_row_nil r)) in Hc; [|assumption].
      rewrite Hc in Ht. contradiction. }
  rewrite <- Hnil, <- (sort_values_nil transaction_leb).
  destruct H as [[E H]|[E H]]; rewrite H; split; [|split| |split].
  - split; [intros _; assumption | reflexivity].
  - intros e He. now injection He as <-.
  - discriminate.
  - split; [discriminate | intros E'; contradiction].
  - discriminate.
  - intros df Hdf. injection Hdf as <-. split.
    + apply sort_values_perm.
    + assert (Hs := sort_values_sorted transaction_leb transaction_leb_total
                      transaction_leb_trans (flat_map dropna_row raw)).
      clear - Hs. induction Hs as [|a l Hs IH Hall]; constructor;
        [assumption|].
      rewrite Forall_forall in *. intros b Hb.
      apply transaction_leb_iff. now apply Hall.
Qed.

Lemma load_and_clean_data_sorted (raw : list RawTransaction)
    (df : list Transaction) :
  load_and_clean_data raw = Ok df ->
  StronglySorted (fun a b => transaction_leb a b = true) df.
Proof.
  intros H.
  destruct (load_and_clean_data_cases raw) as [[_ E]|[_ E]];
    rewrite E in H; [discriminate|].
  injection H as <-.
  apply sort_values_sorted;
    [exact transaction_leb_total | exact transaction_leb_trans].
Qed.

Lemma StronglySorted_after {A} (R : A -> A -> Prop) (l1 l2 : list A)
    (x y : A) :
  StronglySorted R (l1 ++ x :: l2) -> In y l2 -> R x y.
Proof.
  induction l1 as [|a l1 IH]; simpl; intros Hs Hy.
  - inversion Hs as [|? ? _ Hall]; subst.
    rewrite Forall_forall in Hall. now apply Hall.
  - inversion Hs; subst. now apply IH.
Qed.

(** The row kept for a customer and a month comes from the customer's
    first transaction, in frame order, that covers the month. *)
Lemma kept_row_first (df : list Transaction) (rows : list MonthlyRow)
    (r : MonthlyRow) :
  all_valid df ->
  create_monthly_retention_table df = Ok rows ->
  In r rows ->
  exists d1 t d2 js ts,
    df = d1 ++ t :: d2
    /\ journey_start df (customer_id t) = Some js
    /\ In ts (months_of t)
    /\ r = monthly_entry (customer_id t) (month_start js) t ts
    /\ forall t', In t' d1 -> customer_id t' = customer_id t ->
         ~ In ts (months_of t').
Proof.
  intros Hv Hok Hr.
  destruct (table_of_expansion df rows Hv Hok) as [_ Hrows].
  rewrite Hrows in Hr. unfold drop_duplicates, expansion in Hr.
  rewrite monthly_rows_blocks in Hr. fold (grouped df) in Hr.
  apply (first_seen_flat_map customer_mois_eqb customer_mois_eqb_spec) in Hr.
  destruct Hr as [g1 [t [g2 [Hg [Hin Hfirst]]]]].
  apply transaction_rows_In in Hin. destruct Hin as [js [ts [Hjs [Hts ->]]]].
  pose proof (grouped_order df (customer_id t)) as Hord.
  rewrite Hg in Hord. unfold customer_data at 1 in Hord.
  rewrite filter_app in Hord. simpl in Hord.
  rewrite Z.eqb_refl in Hord. symmetry in Hord.
  apply filter_split in Hord.
  destruct Hord as [d1 [d2 [Hdf [Hd1 _]]]].
  exists d1, t, d2, js, ts. repeat split; try assumption.
  intros t' Ht' Hc' Hcov.
  assert (Hg1 : In t' g1).
  { assert (H : In t' (filter (fun t0 => customer_id t0 =? customer_id t)
                         d1))
      by (apply filter_In; split; [assumption | now apply Z.eqb_eq]).
    rewrite Hd1 in H. apply filter_In in H. tauto. }
  apply (Hfirst t' (monthly_entry (customer_id t') (month_start js) t' ts)
           Hg1).
  - apply transaction_rows_In. exists js, ts.
    rewrite Hc'. repeat split; assumption.
  - unfold customer_mois. cbn [m_customer_id mois monthly_entry].
    now rewrite Hc'.
Qed.

(** X7. On the frame that [load_and_clean_data] returns, the row the
    monthly table keeps for a customer and a month carries the columns of
    the transaction that started earliest among the customer's transactions
    covering that month. *)
Theorem overlap_keeps_earliest_start (raw : list RawTransaction)
    (df : list Transaction) (rows : list MonthlyRow) (r : MonthlyRow) :
  load_and_clean_data raw = Ok df ->
  all_valid df ->
  create_monthly_retention_table df = Ok rows ->
  In r rows ->
  exists t ts js,
    In t df
    /\ In ts (months_of t)
    /\ r = monthly_entry (customer_id t) (month_start js) t ts
    /\ forall t', In t' df -> customer_id t' = customer_id t ->
         In ts (months_of t') ->
         ts_leb (order_date t) (order_date t') = true.
Proof.
  intros Hload Hv Hok Hr.
  destruct (kept_row_first df rows r Hv Hok Hr)
    as [d1 [t [d2 [js [ts [Hdf [Hjs [Hts [Hrow Hfirst]]]]]]]]].
  exists t, ts, js. split; [rewrite Hdf; apply in_elt|].
  split; [assumption|]. split; [assumption|].
  intros t' Ht' Hc' Hcov. rewrite Hdf in Ht'.
  apply in_app_or in Ht'. destruct Ht' as [Ht'|[<-|Ht']].
  - exfalso. exact (Hfirst t' Ht' Hc' Hcov).
  - apply ts_leb_refl.
  - pose proof (load_and_clean_data_sorted raw df Hload) as Hs.
    rewrite Hdf in Hs.
    pose proof (StronglySorted_after _ d1 d2 t t' Hs Ht') as Hle.
    apply transaction_leb_iff in Hle. destruct Hle as [Hlt|[_ Hle]];
      [lia | assumption].
Qed.

(** A row of the monthly table lies at relative month 0 exactly when a
    transaction starts in the month its customer's journey starts in and
    does not fall due in an earlier month. *)
Definition opens_journey (df : list Transaction) (t : Transaction) : Prop :=
  exists js,
    journey_start df (customer_id t) = Some js
    /\ months_from js (order_date t) = 0
    /\ 0 <= months_from (order_date t) (echeance_date t).

Lemma journey_start_month (df : list Transaction) (t : Transaction)
    (js : Timestamp) :
  all_valid df -> In t df ->
  journey_start df (customer_id t) = Some js ->
  valid_month js /\ 0 <= months_from js (order_date t).
Proof.
  intros Hv Ht Hjs.
  destruct (journey_start_spec df _ js Hjs) as [[t0 [Ht0 [_ Ho0]]] Hmin].
  assert (Hjv : valid_month js)
    by (rewrite <- Ho0; apply valid_ts_month, Hv, Ht0).
  split; [assumption|].
  apply ts_leb_months_from;
    [assumption | apply valid_ts_month, Hv, Ht | now apply Hmin].
Qed.

Lemma month_zero_in_table (df : list Transaction) (rows : list MonthlyRow) :
  all_valid df ->
  create_monthly_retention_table df = Ok rows ->
  (exists r, In r rows /\ mois_relatif r = 0)
  <-> exists t, In t df /\ opens_journey df t.
Proof.
  intros Hv Hok.
  destruct (table_of_expansion df rows Hv Hok) as [_ Hrows]. split.
  - intros [r [Hr H0]]. rewrite Hrows in Hr.
    apply (drop_duplicates_In customer_mois_eqb customer_mois_eqb_spec
             customer_mois) in Hr.
    apply expansion_In in Hr.
    destruct Hr as [js [t [ts [Hjs [Ht [Hts Hrow]]]]]].
    exists t. split; [assumption|]. exists js. split; [assumption|].
    destruct (journey_start_month df t js Hv Ht Hjs) as [_ Hpos].
    apply months_of_In in Hts; [|now apply Hv].
    rewrite Hrow in H0. cbn [mois_relatif monthly_entry] in H0.
    unfold months_from, month_start in *. cbn [year month] in H0. lia.
  - intros [t [Ht [js [Hjs [H0 Hdue]]]]].
    set (ts := month_start (order_date t)).
    assert (Hin : In (monthly_entry (customer_id t) (month_start js) t ts)
                    (expansion df)).
    { apply expansion_In. exists js, t, ts. repeat split; try assumption.
      apply months_of_start; [now apply Hv | assumption]. }
    apply (drop_duplicates_keys customer_mois_eqb customer_mois_eqb_spec
             customer_mois) in Hin.
    destruct Hin as [r [Hr Hk]]. exists r.
    split; [rewrite Hrows; assumption|].
    apply (drop_duplicates_In customer_mois_eqb customer_mois_eqb_spec
             customer_mois) in Hr.
    apply expansion_In in Hr.
    destruct Hr as [js' [t' [ts' [Hjs' [Ht' [Hts' Hrow]]]]]].
    rewrite Hrow in Hk. unfold customer_mois in Hk.
    cbn [m_customer_id mois monthly_entry] in Hk.
    unfold strftime_mY in Hk. injection Hk as Hc Em Ey.
    rewrite Hc, Hjs in Hjs'. injection Hjs' as <-.
    rewrite Hrow. cbn [mois_relatif monthly_entry].
    unfold ts, months_from, month_start in *. cbn [year month] in *. lia.
Qed.

(** X8. On a frame with valid dates, [calculate_cohort_retention] returns
    a table from the monthly table of [create_monthly_retention_table]
    exactly when some transaction starts in the month its customer's
    journey starts in without falling due in an earlier month; otherwise
    one of the two raises a KeyError, [create_monthly_retention_table] when
    no month is covered at all and [calculate_cohort_retention] when no row
    lies at relative month 0. *)
Theorem cohort_table_returns_iff (df : list Transaction) :
  all_valid df ->
  ((exists retention_df,
       (monthly_df <- create_monthly_retention_table df ;;
        calculate_cohort_retention monthly_df) = Ok retention_df)
   <-> exists t, In t df /\ opens_journey df t)
  /\ (forall e,
        (monthly_df <- create_monthly_retention_table df ;;
         calculate_cohort_retention monthly_df) = Err e ->
        e = KeyError)
  /\ (forall monthly_df,
        create_monthly_retention_table df = Ok monthly_df ->
        calculate_cohort_retention monthly_df = Err KeyError
        <-> forall r, In r monthly_df -> mois_relatif r <> 0).
Proof.
  intros Hv.
  pose proof (create_monthly_retention_table_spec df Hv) as Hspec.
  fold (expansion df) in Hspec.
  destruct (create_monthly_retention_table df) as [rows|e] eqn:Hok.
  - cbn [bind].
    pose proof (month_zero_in_table df rows Hv Hok) as Hzero.
    pose proof (retention_results_nil rows) as Hnil.
    split; [|split].
    + rewrite <- Hzero. unfold calculate_cohort_retention.
      destruct (retention_results rows) as [|q l] eqn:E.
      * split; [intros [p H]; discriminate|].
        intros [r [Hr H0]]. exfalso.
        exact (proj1 Hnil eq_refl r Hr H0).
      * split; [intros _ | intros _; eexists; reflexivity].
        assert (Hq : In q (retention_results rows))
          by (rewrite E; left; reflexivity).
        apply retention_results_In in Hq. destruct Hq as [_ Hq].
        apply cohort_points_In in Hq. cbv zeta in Hq.
        destruct Hq as [Hn _]. apply customers_at_nonzero in Hn.
        destruct Hn as [r [Hr H0]]. apply filter_In in Hr.
        exists r. tauto.
    + intros e. unfold calculate_cohort_retention.
      destruct (retention_results rows); [|discriminate].
      intros H. now injection H as <-.
    + intros monthly_df H. injection H as <-. rewrite <- Hnil.
      unfold calculate_cohort_retention.
      destruct (retention_results rows); split; intros H;
        try reflexivity; discriminate.
  - cbn [bind]. destruct (expansion df) as [|x l] eqn:E; [|discriminate].
    injection Hspec as <-. split; [|split].
    + split; [intros [p H]; discriminate|].
      intros [t [Ht [js [_ [_ Hdue]]]]]. exfalso.
      pose proof (proj1 (expansion_nil df Hv) E t Ht). lia.
    + intros e' H. now injection H as <-.
    + intros monthly_df H. discriminate.
Qed.

End CleanedFrame.

(** ** The summaries of the cohort table *)

Section CohortSummaryFacts.
Import Pandas Claude_retention_analysis.

Lemma NoDup_map_eq {A K : Type} (key : A -> K) (l : list A) (x y : A) :
  NoDup (map key l) -> In x l -> In y l -> key x = key y -> x = y.
Proof.
  induction l as [|a l IH]; simpl; intros Hn Hx Hy E; [contradiction|].
  inversion Hn as [|? ? Ha Hn']; subst.
  destruct Hx as [<-|Hx], Hy as [<-|Hy].
  - reflexivity.
  - exfalso. apply Ha. rewrite E. now apply in_map.
  - exfalso. apply Ha. rewrite <- E. now apply in_map.
  - now apply IH.
Qed.

Lemma fold_max_spec (l : list Z) (d : Z) :
  let m := fold_left Z.max l d in
  In m (d :: l) /\ forall x, In x (d :: l) -> x <= m.
Proof.
  revert d. induction l as [|a l IH]; intros d; simpl.
  - split; [left; reflexivity|]. intros x [<-|[]]. lia.
  - destruct (IH (Z.max d a)) as [Hin Hle]. simpl in Hin. split.
    + destruct Hin as [E|Hin]; [|right; right; assumption].
      rewrite <- E. destruct (Z.max_spec d a) as [[_ ->]|[_ ->]];
        [right; left | left]; reflexivity.
    + pose proof (Hle (Z.max d a) (or_introl eq_refl)) as Hm.
      intros x [Hx|[Hx|Hx]]; [subst x; lia | subst x; lia |].
      apply Hle. right. assumption.
Qed.

Lemma series_max_spec (l : list Z) (m : Z) :
  series_max l = Some m -> In m l /\ forall x, In x l -> x <= m.
Proof.
  destruct l as [|d l]; simpl; [discriminate|].
  intros H. injection H as <-. apply fold_max_spec.
Qed.

Lemma series_max_Some (l : list Z) :
  l <> [] -> exists m, series_max l = Some m.
Proof. destruct l; [contradiction | eexists; reflexivity]. Qed.

Definition cohort_data (retention_df : list RetentionPoint) (c : Mois)
    : list RetentionPoint :=
  filter (fun p => mois_eqb (cohorte p) c) retention_df.

Lemma cohort_data_In (retention_df : list RetentionPoint) (c : Mois)
    (p : RetentionPoint) :
  In p (cohort_data retention_df c) <-> In p retention_df /\ cohorte p = c.
Proof.
  unfold cohort_data. rewrite filter_In, mois_eqb_spec. reflexivity.
Qed.

(** The rate read off at a month is that of a row of the month. *)
Lemma retention_at_Some (data : list RetentionPoint) (m : Z) (q : Q) :
  retention_at data m = Some q ->
  exists p, In p data /\ r_mois_relatif p = m /\ taux_retention p = q.
Proof.
  unfold retention_at.
  destruct (filter (fun p => r_mois_relatif p =? m) data) as [|p l] eqn:E;
    [discriminate|].
  intros H. injection H as <-.
  assert (Hp : In p (filter (fun p => r_mois_relatif p =? m) data))
    by (rewrite E; left; reflexivity).
  apply filter_In in Hp. destruct Hp as [Hp Hm]. apply Z.eqb_eq in Hm.
  exists p. repeat split; assumption.
Qed.

Lemma retention_at_unique (data : list RetentionPoint) (m : Z)
    (p : RetentionPoint) :
  NoDup (map r_mois_relatif data) ->
  In p data -> r_mois_relatif p = m ->
  retention_at data m = Some (taux_retention p).
Proof.
  intros Hn Hp Hm. unfold retention_at.
  destruct (filter (fun p => r_mois_relatif p =? m) data) as [|p' l] eqn:E.
  - assert (H : In p (filter (fun p => r_mois_relatif p =? m) data))
      by (apply filter_In; split; [assumption | now apply Z.eqb_eq]).
    rewrite E in H. contradiction.
  - assert (H : In p' (filter (fun p => r_mois_relatif p =? m) data))
      by (rewrite E; left; reflexivity).
    apply filter_In in H. destruct H as [Hp' Hm']. apply Z.eqb_eq in Hm'.
    assert (p' = p)
      by (apply (NoDup_map_eq r_mois_relatif data); congruence).
    congruence.
Qed.

Lemma cohort_data_months (retention_df : list RetentionPoint) (c : Mois) :
  NoDup (map point_key retention_df) ->
  NoDup (map r_mois_relatif (cohort_data retention_df c)).
Proof.
  unfold cohort_data.
  induction retention_df as [|p l IH]; simpl; intros Hn; [constructor|].
  inversion Hn as [|? ? Hp Hn']; subst.
  destruct (mois_eqb (cohorte p) c) eqn:E; [|now apply IH].
  simpl. constructor; [|now apply IH].
  intros Hin. apply in_map_iff in Hin. destruct Hin as [p' [Em Hp']].
  apply filter_In in Hp'. destruct Hp' as [Hp' Ec].
  apply mois_eqb_spec in E. apply mois_eqb_spec in Ec.
  apply Hp. apply in_map_iff. exists p'. split; [|assumption].
  unfold point_key. congruence.
Qed.

Definition checkpoints (s : CohortSummary) : list (Z * Float) :=
  [ (1, retention_1m s); (3, retention_3m s); (6, retention_6m s);
    (12, retention_12m s); (13, retention_13m s); (18, retention_18m s);
    (24, retention_24m s); (25, retention_25m s) ].

Lemma cohort_summary_entry_In (retention_df : list RetentionPoint)
    (c : Mois) (s : CohortSummary) :
  In s (cohort_summary_entry retention_df c) ->
  cs_cohorte s = c
  /\ (exists p0 l, cohort_data retention_df c = p0 :: l
                   /\ taille_initiale s = clients_initiaux p0)
  /\ series_max (map r_mois_relatif (cohort_data retention_df c))
     = Some (duree_suivi s)
  /\ forall m v, In (m, v) (checkpoints s) ->
       v = retention_at (cohort_data retention_df c) m.
Proof.
  unfold cohort_summary_entry. fold (cohort_data retention_df c).
  destruct (cohort_data retention_df c) as [|p0 l] eqn:E;
    [intros []|].
  destruct (series_max (map r_mois_relatif (p0 :: l))) as [d|] eqn:Ed;
    [|intros []].
  intros [<-|[]]. cbn. split; [reflexivity|].
  split; [exists p0, l; split; reflexivity|].
  split; [reflexivity|].
  intros m v H.
  repeat (destruct H as [H|H]; [injection H as <- <-; reflexivity|]).
  contradiction.
Qed.

Lemma cohort_summary_entry_one (retention_df : list RetentionPoint)
    (c : Mois) :
  In c (map cohorte retention_df) ->
  exists s, cohort_summary_entry retention_df c = [s].
Proof.
  intros Hc. apply in_map_iff in Hc. destruct Hc as [p [Ec Hp]].
  assert (Hin : In p (cohort_data retention_df c))
    by (apply cohort_data_In; split; assumption).
  unfold cohort_summary_entry. fold (cohort_data retention_df c).
  destruct (cohort_data retention_df c) as [|p0 l]; [contradiction|].
  simpl. eexists. reflexivity.
Qed.

Lemma summary_entries_NoDup (retention_df : list RetentionPoint)
    (l : list Mois) :
  NoDup l ->
  (forall c, In c l -> In c (map cohorte retention_df)) ->
  NoDup (map cs_cohorte (flat_map (cohort_summary_entry retention_df) l)).
Proof.
  induction l as [|c l IH]; simpl; intros Hu Hin; [constructor|].
  inversion Hu as [|? ? Hc Hu']; subst.
  destruct (cohort_summary_entry_one retention_df c) as [s Es];
    [apply Hin; left; reflexivity|].
  rewrite Es. simpl.
  assert (Ec : cs_cohorte s = c).
  { apply (cohort_summary_entry_In retention_df c s).
    rewrite Es. left. reflexivity. }
  constructor.
  - rewrite Ec. intros H. apply in_map_iff in H.
    destruct H as [s' [Es' Hs']]. apply in_flat_map in Hs'.
    destruct Hs' as [c' [Hc' Hs']].
    apply cohort_summary_entry_In in Hs'. destruct Hs' as [E' _].
    apply Hc. congruence.
  - apply IH; [assumption|]. intros c' Hc'. apply Hin. now right.
Qed.

(** X9. On the cohort table that [calculate_cohort_retention] returns,
    [create_cohort_summary] returns one row per cohort of the table.  The
    row carries the initial population of the cohort, at each of the months
    1, 3, 6, 12, 13, 18, 24 and 25 the rate of the cohort's row for that
    month or NaN when the cohort has none, and as follow-up length the
    largest relative month of the cohort. *)
Theorem cohort_summary_rows (monthly_df : list MonthlyRow)
    (retention_df : list RetentionPoint) :
  calculate_cohort_retention monthly_df = Ok retention_df ->
  exists summary,
    create_cohort_summary retention_df = Ok summary
    /\ NoDup (map cs_cohorte summary)
    /\ (forall c, In c (map cs_cohorte summary)
                  <-> In c (map cohorte retention_df))
    /\ forall s, In s summary ->
         taille_initiale s
         = customers_at (cohort_rows monthly_df (cs_cohorte s)) 0
         /\ (forall m v q, In (m, v) (checkpoints s) ->
               (v = Some q
                <-> exists p, In p retention_df
                              /\ cohorte p = cs_cohorte s
                              /\ r_mois_relatif p = m
                              /\ taux_retention p = q))
         /\ (exists p, In p retention_df /\ cohorte p = cs_cohorte s
                       /\ r_mois_relatif p = duree_suivi s)
         /\ (forall p, In p retention_df -> cohorte p = cs_cohorte s ->
               r_mois_relatif p <= duree_suivi s).
Proof.
  intros Hok.
  destruct (cohort_table_sorted monthly_df retention_df Hok) as [Hkeys _].
  set (entries := flat_map (cohort_summary_entry retention_df)
                    (unique mois_eqb (map cohorte retention_df))).
  assert (Hentry : forall s, In s entries <->
            In (cs_cohorte s) (map cohorte retention_df)
            /\ In s (cohort_summary_entry retention_df (cs_cohorte s))).
  { intros s. unfold entries. rewrite in_flat_map. split.
    - intros [c [Hc Hs]].
      apply (proj1 (unique_In mois_eqb mois_eqb_spec _ _)) in Hc.
      destruct (cohort_summary_entry_In _ _ _ Hs) as [E _].
      rewrite E. split; assumption.
    - intros [Hc Hs]. exists (cs_cohorte s). split; [|assumption].
      exact (proj2 (unique_In mois_eqb mois_eqb_spec _ _) Hc). }
  exists (sort_values summary_leb entries).
  split; [|split; [|split]].
  - unfold create_cohort_summary.
    destruct retention_df as [|p l]; [|reflexivity].
    unfold calculate_cohort_retention in Hok.
    destruct (retention_results monthly_df) as [|q t]; [discriminate|].
    injection Hok as Hn.
    apply (proj1 (sort_values_nil point_leb (q :: t))) in Hn. discriminate.
  - apply (Permutation_NoDup
             (Permutation_map _ (sort_values_perm summary_leb entries))).
    unfold entries. apply summary_entries_NoDup.
    + apply unique_NoDup. exact mois_eqb_spec.
    + intros c. exact (proj1 (unique_In mois_eqb mois_eqb_spec _ _)).
  - intros c. split.
    + intros H. apply in_map_iff in H. destruct H as [s [Es Hs]].
      apply sort_values_In in Hs. apply Hentry in Hs. rewrite <- Es. tauto.
    + intros Hc. destruct (cohort_summary_entry_one retention_df c Hc)
        as [s Es].
      assert (Hs : In s (cohort_summary_entry retention_df c))
        by (rewrite Es; left; reflexivity).
      assert (Ec : cs_cohorte s = c)
        by (apply (cohort_summary_entry_In retention_df c s Hs)).
      apply in_map_iff. exists s. split; [assumption|].
      apply sort_values_In. apply Hentry. rewrite Ec. split; assumption.
  - intros s Hs. apply sort_values_In in Hs. apply Hentry in Hs.
    destruct Hs as [_ Hs].
    destruct (cohort_summary_entry_In _ _ _ Hs)
      as [_ [[p0 [l [Ed Ht]]] [Hmax Hcp]]].
    set (c := cs_cohorte s) in *.
    pose proof (cohort_data_months retention_df c Hkeys) as Hmonths.
    split; [|split; [|split]].
    + rewrite Ht.
      assert (Hp0 : In p0 (cohort_data retention_df c))
        by (rewrite Ed; left; reflexivity).
      apply cohort_data_In in Hp0. destruct Hp0 as [Hp0 Ec].
      apply (calculate_cohort_retention_In _ _ _ Hok) in Hp0.
      apply retention_results_In in Hp0. destruct Hp0 as [_ Hp0].
      apply cohort_points_In in Hp0. cbv zeta in Hp0.
      destruct Hp0 as [_ [_ Hp0]]. rewrite Hp0. simpl. now rewrite Ec.
    + intros m v q Hmv. rewrite (Hcp m v Hmv). split.
      * intros H. apply retention_at_Some in H.
        destruct H as [p [Hp [Hm Hq]]]. apply cohort_data_In in Hp.
        exists p. tauto.
      * intros [p [Hp [Ec [Hm Hq]]]]. rewrite <- Hq.
        apply retention_at_unique; try assumption.
        apply cohort_data_In. split; assumption.
    + apply series_max_spec in Hmax. destruct Hmax as [Hin _].
      apply in_map_iff in Hin. destruct Hin as [p [Hm Hp]].
      apply cohort_data_In in Hp. exists p. tauto.
    + intros p Hp Ec. apply series_max_spec in Hmax.
      destruct Hmax as [_ Hle]. apply Hle. apply in_map.
      apply cohort_data_In. split; assumption.
Qed.

End CohortSummaryFacts.

(** ** The global trends *)

Section Trends.
Import Pandas Claude_retention_analysis.

Lemma Z_leb_total (a b : Z) : (a <=? b) = true \/ (b <=? a) = true.
Proof. rewrite !Z.leb_le. lia. Qed.

Lemma Z_leb_trans (a b c : Z) :
  (a <=? b) = true -> (b <=? c) = true -> (a <=? c) = true.
Proof. rewrite !Z.leb_le. lia. Qed.

(** The index of a [groupby] on an integer column: its distinct values
    in increasing order. *)
Lemma groupby_index_sorted (l : list Z) :
  StronglySorted Z.lt (sort_values Z.leb (unique Z.eqb l)).
Proof.
  pose proof (sort_values_sorted Z.leb Z_leb_total Z_leb_trans
                (unique Z.eqb l)) as Hs.
  pose proof (months_sorted_NoDup l) as Hn.
  rewrite <- (map_id (sort_values Z.leb (unique Z.eqb l))) in Hn.
  pose proof (StronglySorted_strict _ (fun z : Z => z) _ Hs Hn) as H.
  clear Hs Hn.
  induction H as [|a t Hs IH Hall]; constructor; [assumption|].
  rewrite Forall_forall in *. intros b Hb.
  destruct (Hall b Hb) as [Hle Hne]. apply Z.leb_le in Hle. lia.
Qed.

Lemma groupby_index_In (l : list Z) (m : Z) :
  In m (sort_values Z.leb (unique Z.eqb l)) <-> In m l.
Proof.
  rewrite sort_values_In. apply unique_In. intros a b. apply Z.eqb_eq.
Qed.

Lemma sum_ge (l : list Z) (c : Z) :
  l <> [] -> 0 <= c -> (forall x, In x l -> c <= x) -> c <= series_sum l.
Proof.
  intros Hne Hc Hall.
  assert (H : Z.of_nat (List.length l) * c <= series_sum l).
  { clear Hne. induction l as [|a l IH]; [simpl; lia|].
    change (series_sum (a :: l)) with (a + series_sum l).
    rewrite length_cons, Nat2Z.inj_succ.
    assert (c <= a) by (apply Hall; left; reflexivity).
    assert (Z.of_nat (List.length l) * c <= series_sum l)
      by (apply IH; intros x Hx; apply Hall; now right).
    lia. }
  destruct l as [|a l]; [contradiction|].
  rewrite length_cons, Nat2Z.inj_succ in H. nia.
Qed.

Lemma sum_all_equal (l : list Q) (c : Q) :
  (forall q, In q l -> q == c) ->
  (fold_right Qplus 0%Q l == c * inject_Z (Z.of_nat (List.length l)))%Q.
Proof.
  induction l as [|a l IH]; intros Hall.
  - simpl. ring.
  - change (fold_right Qplus 0%Q (a :: l))
      with (a + fold_right Qplus 0%Q l)%Q.
    rewrite length_cons, Nat2Z.inj_succ. unfold Z.succ.
    rewrite inject_Z_plus.
    rewrite IH by (intros q Hq; apply Hall; now right).
    rewrite (Hall a) by (left; reflexivity). ring.
Qed.

(** The mean of rates that all equal [c] is [c]. *)
Lemma series_mean_constant (l : list Q) (c : Q) :
  l <> [] -> (forall q, In q l -> q == c) ->
  exists m, series_mean l = Some m /\ (m == c)%Q.
Proof.
  intros Hne Hall. destruct l as [|a l]; [contradiction|].
  eexists. split; [reflexivity|].
  rewrite (sum_all_equal (a :: l) c Hall).
  apply Qdiv_mult_l.
  rewrite length_cons, Nat2Z.inj_succ. unfold Qeq. simpl. lia.
Qed.

Lemma cohort_table_point (monthly_df : list MonthlyRow)
    (retention_df : list RetentionPoint) (p : RetentionPoint) :
  calculate_cohort_retention monthly_df = Ok retention_df ->
  In p retention_df ->
  clients_initiaux p = customers_at (cohort_rows monthly_df (cohorte p)) 0
  /\ clients_initiaux p <> 0
  /\ (r_mois_relatif p = 0 ->
      clients_actifs p = clients_initiaux p /\ (taux_retention p == 100)%Q).
Proof.
  intros Hok Hp.
  apply (calculate_cohort_retention_In _ _ _ Hok) in Hp.
  apply retention_results_In in Hp. destruct Hp as [_ Hp].
  apply cohort_points_In in Hp. cbv zeta in Hp.
  destruct Hp as [Hn [_ Hp]].
  set (n := customers_at (cohort_rows monthly_df (cohorte p)) 0) in *.
  split; [rewrite Hp; reflexivity|].
  split; [rewrite Hp; exact Hn|].
  intros H0. rewrite H0 in Hp. rewrite Hp. simpl. fold n.
  split; [reflexivity|]. apply round2_100, rate_full. exact Hn.
Qed.

Lemma significant_data_In (monthly_df : list MonthlyRow)
    (retention_df : list RetentionPoint) (p : RetentionPoint) :
  calculate_cohort_retention monthly_df = Ok retention_df ->
  In p (significant_data retention_df)
  <-> In p retention_df /\ 50 <= clients_initiaux p.
Proof.
  intros Hok. unfold significant_data, significant_cohorts.
  rewrite filter_In, (isin_In mois_eqb mois_eqb_spec),
    (unique_In mois_eqb mois_eqb_spec), in_map_iff.
  split.
  - intros [Hp [p' [Ec Hp']]]. split; [assumption|].
    apply filter_In in Hp'. destruct Hp' as [Hp' H50].
    apply Z.leb_le in H50.
    destruct (cohort_table_point _ _ _ Hok Hp) as [E _].
    destruct (cohort_table_point _ _ _ Hok Hp') as [E' _].
    rewrite E, <- Ec, <- E'. assumption.
  - intros [Hp H50]. split; [assumption|]. exists p.
    split; [reflexivity|]. apply filter_In. split; [assumption|].
    now apply Z.leb_le.
Qed.

(** X10. On the cohort table that [calculate_cohort_retention] returns,
    [analyze_retention_trends] keeps exactly the rows whose cohort starts
    with at least 50 customers.  Its averages come one per relative month
    of those rows, in increasing order of month; each sums at least 50
    initial customers; and the average for month 0 is 100, with as many
    active customers as initial ones. *)
Theorem trends_of_cohort_table (monthly_df : list MonthlyRow)
    (retention_df : list RetentionPoint) :
  calculate_cohort_retention monthly_df = Ok retention_df ->
  let significant_data := fst (analyze_retention_trends retention_df) in
  let avg_retention := snd (analyze_retention_trends retention_df) in
  (forall p, In p significant_data
             <-> In p retention_df /\ 50 <= clients_initiaux p)
  /\ StronglySorted Z.lt (map t_mois_relatif avg_retention)
  /\ (forall m, In m (map t_mois_relatif avg_retention)
                <-> exists p, In p retention_df /\ 50 <= clients_initiaux p
                              /\ r_mois_relatif p = m)
  /\ (forall row, In row avg_retention ->
        50 <= t_clients_initiaux row
        /\ (t_mois_relatif row = 0 ->
            t_clients_actifs row = t_clients_initiaux row
            /\ exists q, t_taux_retention row = Some q /\ (q == 100)%Q)).
Proof.
  intros Hok. cbv zeta. unfold analyze_retention_trends. cbn [fst snd].
  pose proof (significant_data_In monthly_df retention_df) as Hsig.
  set (data := significant_data retention_df) in *.
  assert (Hmonths : map t_mois_relatif (avg_retention data)
                    = sort_values Z.leb
                        (unique Z.eqb (map r_mois_relatif data))).
  { unfold avg_retention. rewrite map_map. simpl. apply map_id. }
  split; [intros p; now apply Hsig|].
  split; [rewrite Hmonths; apply groupby_index_sorted|].
  split.
  - intros m. rewrite Hmonths, groupby_index_In, in_map_iff. split.
    + intros [p [Hm Hp]]. apply (Hsig p Hok) in Hp. exists p. tauto.
    + intros [p [Hp [H50 Hm]]]. exists p. split; [assumption|].
      apply (Hsig p Hok). split; assumption.
  - intros row Hrow. unfold avg_retention in Hrow.
    apply in_map_iff in Hrow. destruct Hrow as [m [Hrow Hm]].
    apply (proj1 (groupby_index_In _ _)) in Hm. apply in_map_iff in Hm.
    destruct Hm as [p [Hpm Hp]].
    set (group := filter (fun p => r_mois_relatif p =? m) data) in *.
    assert (Hg : In p group)
      by (apply filter_In; split; [assumption | now apply Z.eqb_eq]).
    assert (Hne : group <> []) by (intros E; rewrite E in Hg; contradiction).
    assert (Hgroup : forall x, In x group ->
              In x retention_df /\ 50 <= clients_initiaux x
              /\ r_mois_relatif x = m).
    { intros x Hx. apply filter_In in Hx. destruct Hx as [Hx Hxm].
      apply Z.eqb_eq in Hxm. apply (Hsig x Hok) in Hx. tauto. }
    rewrite <- Hrow. cbn. split.
    + apply sum_ge.
      * intros E. apply map_eq_nil in E. contradiction.
      * lia.
      * intros x Hx. apply in_map_iff in Hx. destruct Hx as [y [<- Hy]].
        now apply Hgroup.
    + intros H0. split.
      * f_equal. apply map_ext_in. intros x Hx.
        destruct (Hgroup x Hx) as [Hx' [_ Hxm]].
        destruct (cohort_table_point _ _ _ Hok Hx') as [_ [_ Hz]].
        apply Hz. congruence.
      * destruct (series_mean_constant (map taux_retention group) 100)
          as [q [Eq Hq]].
        -- intros E. apply map_eq_nil in E. contradiction.
        -- intros q Hq. apply in_map_iff in Hq.
           destruct Hq as [x [<- Hx]].
           destruct (Hgroup x Hx) as [Hx' [_ Hxm]].
           destruct (cohort_table_point _ _ _ Hok Hx') as [_ [_ Hz]].
           apply Hz. congruence.
        -- rewrite Eq. simpl. eexists. split; [reflexivity|].
           now apply round2_100.
Qed.

End Trends.

(** ** The segment tables and their summaries *)

Section SegmentTables.
Import Pandas Claude_retention_analysis.

Lemma cohort_segment_points_iff (name value : string)
    (segment_data : list MonthlyRow) (cohort : Mois) (p : SegmentPoint) :
  In p (cohort_segment_points name value segment_data cohort)
  <-> let data := cohort_rows segment_data cohort in
      10 <= customers_at data 0
      /\ In (s_mois_relatif p) (map mois_relatif data)
      /\ p = {| segment_type := name;
                segment_value := value;
                s_cohorte := cohort;
                s_mois_relatif := s_mois_relatif p;
                s_clients_initiaux := customers_at data 0;
                s_clients_actifs := customers_at data (s_mois_relatif p);
                s_taux_retention :=
                  round2 (inject_Z (customers_at data (s_mois_relatif p))
                          / inject_Z (customers_at data 0) * 100) |}.
Proof.
  cbv zeta. unfold cohort_segment_points.
  set (data := cohort_rows segment_data cohort).
  destruct (customers_at data 0 <? 10) eqn:E.
  - apply Z.ltb_lt in E. split; [intros [] | intros [H _]; lia].
  - apply Z.ltb_ge in E. rewrite in_map_iff. split.
    + intros [m [Hp Hm]]. apply (proj1 (groupby_index_In _ _)) in Hm.
      rewrite <- Hp. simpl. repeat split; assumption.
    + intros [_ [Hm Hp]]. exists (s_mois_relatif p).
      split; [symmetry; exact Hp|]. exact (proj2 (groupby_index_In _ _) Hm).
Qed.

(** X11. Every table that [calculate_segmented_retention] returns has
    rows, all labelled with the segment's name.  Each row belongs to a
    cohort of one segment value that starts with at least 10 customers;
    that cohort has a row at relative month 0, where the active population
    is the initial one and the rate is 100. *)
Theorem segment_tables_threshold (monthly_df : list MonthlyRow)
    (name : string) (points : list SegmentPoint) :
  In (name, points) (calculate_segmented_retention monthly_df) ->
  points <> []
  /\ forall p, In p points ->
       segment_type p = name
       /\ 10 <= s_clients_initiaux p
       /\ (s_mois_relatif p = 0 ->
           s_clients_actifs p = s_clients_initiaux p
           /\ (s_taux_retention p == 100)%Q)
       /\ exists p0, In p0 points
                     /\ segment_value p0 = segment_value p
                     /\ s_cohorte p0 = s_cohorte p
                     /\ s_mois_relatif p0 = 0.
Proof.
  intros Hin. unfold calculate_segmented_retention in Hin.
  apply in_flat_map in Hin. destruct Hin as [[name' column] [_ Hin]].
  cbn [fst snd] in Hin.
  destruct (segment_retention name' column monthly_df) as [|q l] eqn:E;
    [contradiction|].
  destruct Hin as [Hin|[]]. injection Hin as <- <-.
  split; [discriminate|]. rewrite <- E. clear E q l.
  intros p Hp. unfold segment_retention in Hp.
  apply in_flat_map in Hp. destruct Hp as [value [Hvalue Hp]].
  apply in_flat_map in Hp. destruct Hp as [cohort [Hcohort Hp]].
  set (segment_data := segment_rows column monthly_df value) in *.
  pose proof Hp as Hp'.
  apply cohort_segment_points_iff in Hp'. cbv zeta in Hp'.
  set (data := cohort_rows segment_data cohort) in *.
  destruct Hp' as [H10 [_ Hrec]].
  split; [rewrite Hrec; reflexivity|].
  split; [rewrite Hrec; exact H10|].
  split.
  - intros H0. rewrite H0 in Hrec. rewrite Hrec. simpl.
    split; [reflexivity|]. apply round2_100, rate_full. lia.
  - assert (Hn : customers_at data 0 <> 0) by lia.
    apply customers_at_nonzero in Hn. destruct Hn as [r [Hr H0]].
    set (p0 := {| segment_type := name';
                  segment_value := value;
                  s_cohorte := cohort;
                  s_mois_relatif := 0;
                  s_clients_initiaux := customers_at data 0;
                  s_clients_actifs := customers_at data 0;
                  s_taux_retention :=
                    round2 (inject_Z (customers_at data 0)
                            / inject_Z (customers_at data 0) * 100) |}).
    exists p0. split; [|rewrite Hrec; repeat split; reflexivity].
    unfold segment_retention. apply in_flat_map. exists value.
    split; [assumption|]. apply in_flat_map. exists cohort.
    split; [assumption|]. apply cohort_segment_points_iff. cbv zeta.
    fold segment_data. fold data. simpl.
    split; [assumption|]. split; [|reflexivity].
    rewrite <- H0. now apply in_map.
Qed.

Lemma key_24m_geb_total (a b : SegmentSummary) :
  key_24m_geb a b = true \/ key_24m_geb b a = true.
Proof.
  unfold key_24m_geb. rewrite !Qle_bool_iff.
  destruct (Qlt_le_dec (key_24m a) (key_24m b)) as [H|H];
    [right; now apply Qlt_le_weak | left; assumption].
Qed.

Lemma key_24m_geb_trans (a b c : SegmentSummary) :
  key_24m_geb a b = true -> key_24m_geb b c = true ->
  key_24m_geb a c = true.
Proof.
  unfold key_24m_geb. rewrite !Qle_bool_iff. intros H H'.
  exact (Qle_trans _ _ _ H' H).
Qed.

(** [segment_subset[mois_relatif == 0]['clients_initiaux'].sum()] *)
Definition segment_total (segment_df : list SegmentPoint) (value : string)
    : Z :=
  series_sum
    (map s_clients_initiaux
       (filter (fun p => s_mois_relatif p =? 0)
          (filter (fun p => String.eqb (segment_value p) value)
             segment_df))).

Lemma segment_summary_entry_In (segment_df : list SegmentPoint)
    (value : string) (s : SegmentSummary) :
  In s (segment_summary_entry segment_df value)
  <-> 50 <= segment_total segment_df value
      /\ cons s nil = segment_summary_entry segment_df value.
Proof.
  unfold segment_summary_entry. fold (segment_total segment_df value).
  destruct (segment_total segment_df value <? 50) eqn:E.
  - apply Z.ltb_lt in E. split; [intros [] | intros [H _]; lia].
  - apply Z.ltb_ge in E. split.
    + intros [<-|[]]. split; [assumption | reflexivity].
    + intros [_ H]. rewrite <- H. left. reflexivity.
Qed.

(** X12. [create_segment_summary] lists, for each segment table, one
    entry for every segment value whose initial customers, summed over the
    cohorts of the table, number at least 50, and none for the others; the
    entries come by decreasing average rate at month 24, an entry without
    one counting as 0. *)
Theorem segment_summary_entries
    (segmented_results : list (string * list SegmentPoint))
    (name : string) (summaries : list SegmentSummary) :
  In (name, summaries) (create_segment_summary segmented_results) ->
  exists segment_df,
    In (name, segment_df) segmented_results
    /\ StronglySorted (fun a b => (key_24m b <= key_24m a)%Q) summaries
    /\ (forall s, In s summaries ->
          exists value,
            In value (map segment_value segment_df)
            /\ ss_segment s = String.substring 0 20 value
            /\ total_clients s = segment_total segment_df value
            /\ 50 <= total_clients s
            /\ ss_retention_24m s
               = mean_at (filter (fun p => String.eqb (segment_value p) value)
                            segment_df) 24)
    /\ (forall value, In value (map segment_value segment_df) ->
          50 <= segment_total segment_df value ->
          exists s, In s summaries
                    /\ ss_segment s = String.substring 0 20 value
                    /\ total_clients s = segment_total segment_df value).
Proof.
  intros Hin. unfold create_segment_summary in Hin.
  apply in_map_iff in Hin. destruct Hin as [[name' segment_df] [E Hin]].
  cbn [fst snd] in E. injection E as <- <-.
  exists segment_df. split; [assumption|].
  unfold summary_data.
  set (entries := flat_map (segment_summary_entry segment_df)
                    (unique String.eqb (map segment_value segment_df))).
  assert (Hu : forall v, In v (unique String.eqb (map segment_value segment_df))
                         <-> In v (map segment_value segment_df))
    by (intros v; apply unique_In; intros a b; apply String.eqb_eq).
  split; [|split].
  - pose proof (sort_values_sorted key_24m_geb key_24m_geb_total
                  key_24m_geb_trans entries) as Hs.
    induction Hs as [|a l Hs IH Hall]; constructor; [assumption|].
    rewrite Forall_forall in *. intros b Hb.
    apply Qle_bool_iff. exact (Hall b Hb).
  - intros s Hs. apply sort_values_In in Hs. unfold entries in Hs.
    apply in_flat_map in Hs. destruct Hs as [value [Hv Hs]].
    apply Hu in Hv. apply segment_summary_entry_In in Hs.
    destruct Hs as [H50 Hs]. exists value. split; [assumption|].
    unfold segment_summary_entry in Hs.
    fold (segment_total segment_df value) in Hs.
    destruct (segment_total segment_df value <? 50); [discriminate|].
    injection Hs as ->. cbn. repeat split; try reflexivity. assumption.
  - intros value Hv H50.
    assert (Hs : exists s, In s (segment_summary_entry segment_df value)
                           /\ ss_segment s = String.substring 0 20 value
                           /\ total_clients s
                              = segment_total segment_df value).
    { unfold segment_summary_entry.
      fold (segment_total segment_df value).
      destruct (segment_total segment_df value <? 50) eqn:E;
        [apply Z.ltb_lt in E; lia|].
      eexists. split; [left; reflexivity|]. split; reflexivity. }
    destruct Hs as [s [Hs Hrest]]. exists s. split; [|assumption].
    apply sort_values_In. unfold entries. apply in_flat_map.
    exists value. split; [now apply Hu | assumption].
Qed.

End SegmentTables.

(** ** pipeline_JA: the months of a subscription *)

Section PipelineMonths.
Import Pandas Gemini pipeline_JA.

(** The first month start on or after a date. *)
Definition first_month_start (o : Timestamp) : Timestamp :=
  if day o =? 1 then o else next_month (month_start o).

Lemma first_month_start_facts (o : Timestamp) :
  valid_ts o ->
  valid_month (first_month_start o)
  /\ day (first_month_start o) = 1
  /\ forall b, months_from (first_month_start o) b
               = months_from o b - (if day o =? 1 then 0 else 1).
Proof.
  intros [Hm Hd]. unfold first_month_start.
  destruct (day o =? 1) eqn:E.
  - apply Z.eqb_eq in E. repeat split; try assumption; try lia.
  - split; [apply next_month_valid; exact Hm|].
    split; [rewrite next_month_day; reflexivity|].
    intros b. rewrite months_from_next. unfold months_from, month_start.
    cbn [year month]. lia.
Qed.

(** The months [expand_row] makes rows for. *)
Definition months_of_row (o e : Timestamp) : list Timestamp :=
  match date_range_MS o e with
  | [] => [month_start o]
  | date_range => date_range
  end.

Lemma expand_row_months (row : Abonnement) (numero : Z) (o e : Timestamp) :
  order_date row = Some o -> ECHEANCE_date row = Some e ->
  expand_row row numero
  = map (fun month_date =>
           {| source := row;
              month_ := month_date;
              month_relatif := months_from o month_date;
              is_first_subscription := numero =? 1;
              Montant := montant_mensuel row |})
      (months_of_row o e).
Proof.
  intros Ho He. unfold expand_row, months_of_row. rewrite Ho, He.
  destruct (date_range_MS o e); reflexivity.
Qed.

Lemma date_range_MS_unfold (o e : Timestamp) :
  date_range_MS o e
  = iter_months (first_month_start o)
      (Z.to_nat (months_from (first_month_start o) e + 1)).
Proof. reflexivity. Qed.

Lemma date_range_MS_In (o e ts : Timestamp) :
  valid_ts o ->
  In ts (date_range_MS o e)
  <-> valid_month ts /\ day ts = 1
      /\ 0 <= months_from (first_month_start o) ts
           <= months_from (first_month_start o) e.
Proof.
  intros Ho. destruct (first_month_start_facts o Ho) as [Hv [Hd _]].
  rewrite date_range_MS_unfold.
  rewrite (iter_months_In _ _ ts Hv), Hd. split.
  - intros [H1 [H2 [H3 H4]]].
    split; [assumption|]. split; [assumption|]. lia.
  - intros [H1 [H2 [H3 H4]]].
    split; [assumption|]. split; [assumption|]. lia.
Qed.

Lemma date_range_MS_nil (o e : Timestamp) :
  date_range_MS o e = [] <-> months_from (first_month_start o) e < 0.
Proof.
  rewrite date_range_MS_unfold.
  set (n := months_from (first_month_start o) e).
  split.
  - intros H. apply (f_equal (@List.length _)) in H.
    rewrite iter_months_length in H. simpl in H. lia.
  - intros H. replace (Z.to_nat (n + 1)) with 0%nat by lia. reflexivity.
Qed.

(** X13. For a subscription with valid dates, [pipeline_JA] always makes
    at least one monthly row, every row lies at a relative month that is
    not negative, counted from the subscription's own start month, and a
    row at relative month 0 exists exactly when the subscription starts on
    the first of a month or its due month is not after its start month:
    started later in a month and running past it, the subscription loses
    its start month. *)
Theorem pipeline_JA_start_month_kept_iff (row : Abonnement) (numero : Z)
    (o e : Timestamp) :
  order_date row = Some o -> ECHEANCE_date row = Some e ->
  valid_ts o -> valid_ts e ->
  let rows := expand_row row numero in
  rows <> []
  /\ (forall r, In r rows ->
        source r = row /\ day (month_ r) = 1
        /\ month_relatif r = months_from o (month_ r)
        /\ 0 <= month_relatif r)
  /\ ((exists r, In r rows /\ month_relatif r = 0)
      <-> day o = 1 \/ months_from o e <= 0)
  /\ Z.of_nat (List.length rows)
     = if day o =? 1 then Z.max 1 (months_from o e + 1)
       else Z.max 1 (months_from o e).
Proof.
  intros Ho He Hvo Hve. cbv zeta.
  rewrite (expand_row_months row numero o e Ho He).
  destruct (first_month_start_facts o Hvo) as [Hfv [Hfd Hfm]].
  pose proof (date_range_MS_nil o e) as Hnil.
  pose proof (fun ts => date_range_MS_In o e ts Hvo) as Hin.
  assert (Hmonths : forall ts, In ts (months_of_row o e) ->
            day ts = 1 /\ 0 <= months_from o ts
            /\ (months_from o ts = 0 -> day o = 1 \/ months_from o e <= 0)).
  { intros ts Hts. unfold months_of_row in Hts.
    destruct (date_range_MS o e) as [|d l] eqn:E.
    - destruct Hts as [<-|[]]. clear E. pose proof (proj1 Hnil eq_refl) as E.
      rewrite Hfm in E.
      assert (H0 : months_from o (month_start o) = 0)
        by (unfold months_from, month_start; cbn [year month]; lia).
      rewrite H0. split; [reflexivity|]. split; [lia|]. intros _.
      destruct (day o =? 1) eqn:Ed; [left; now apply Z.eqb_eq | right; lia].
    - apply Hin in Hts. destruct Hts as [_ [Hd [H0 _]]].
      rewrite Hfm in H0. split; [assumption|].
      destruct (day o =? 1) eqn:Ed.
      + split; [lia|]. intros _. left. now apply Z.eqb_eq.
      + split; [lia|]. intros Hz. lia. }
  split; [|split; [|split]].
  - unfold months_of_row. destruct (date_range_MS o e); discriminate.
  - intros r Hr. apply in_map_iff in Hr. destruct Hr as [ts [<- Hts]].
    cbn. destruct (Hmonths ts Hts) as [Hd [Hpos _]]. tauto.
  - split.
    + intros [r [Hr H0]]. apply in_map_iff in Hr.
      destruct Hr as [ts [<- Hts]]. cbn in H0.
      now apply (Hmonths ts Hts).
    + intros H.
      assert (Hts : exists ts, In ts (months_of_row o e)
                               /\ months_from o ts = 0).
      { unfold months_of_row.
        destruct (date_range_MS o e) as [|d l] eqn:E.
        - exists (month_start o). split; [left; reflexivity|].
          unfold months_from, month_start. cbn [year month]. lia.
        - assert (Hne : ~ months_from (first_month_start o) e < 0).
          { intros Hlt. apply Hnil in Hlt. discriminate. }
          rewrite Hfm in Hne.
          destruct (day o =? 1) eqn:Ed; [|exfalso; lia].
          exists o. split; [|unfold months_from; lia].
          apply (proj2 (Hin o)). rewrite !Hfm.
          apply Z.eqb_eq in Ed. destruct Hvo as [Hm _].
          split; [exact Hm|]. split; [assumption|].
          unfold months_from in *. lia. }
      destruct Hts as [ts [Hts H0]].
      eexists. split; [apply in_map; exact Hts|]. exact H0.
  - rewrite length_map. unfold months_of_row.
    destruct (date_range_MS o e) as [|d l] eqn:E.
    + clear E. pose proof (proj1 Hnil eq_refl) as E. rewrite Hfm in E.
      simpl. destruct (day o =? 1); lia.
    + assert (Hne : ~ months_from (first_month_start o) e < 0).
      { intros Hlt. apply Hnil in Hlt. discriminate. }
      rewrite <- E, date_range_MS_unfold.
      rewrite iter_months_length. rewrite Hfm in *.
      destruct (day o =? 1); lia.
Qed.

End PipelineMonths.

(** ** pipeline_JA: the journey number of a subscription *)

Section JourneyNumber.
Import Pandas Gemini pipeline_JA.

(** The number of rows of group [k] flagged as the start of a journey. *)
Fixpoint count_new (k : Z) (rows : list (Z * bool)) : Z :=
  match rows with
  | [] => 0
  | (k', b) :: t => (if (k' =? k) && b then 1 else 0) + count_new k t
  end.

Lemma count_new_nonneg (k : Z) (rows : list (Z * bool)) :
  0 <= count_new k rows.
Proof.
  induction rows as [|[k' b] t IH]; simpl; [lia|].
  destruct ((k' =? k) && b); lia.
Qed.

Lemma count_new_prefix (k : Z) (rows : list (Z * bool)) (i j : nat) :
  (i <= j)%nat ->
  count_new k (firstn i rows) <= count_new k (firstn j rows).
Proof.
  revert i j. induction rows as [|[k' b] t IH]; intros i j Hij.
  - rewrite !firstn_nil. lia.
  - destruct i as [|i]; [simpl; apply count_new_nonneg|].
    destruct j as [|j]; [lia|]. simpl.
    assert (count_new k (firstn i t) <= count_new k (firstn j t))
      by (apply IH; lia).
    lia.
Qed.

Lemma count_new_flagged (k : Z) (rows : list (Z * bool)) (i : nat) :
  nth_error rows i = Some (k, true) ->
  1 <= count_new k (firstn (S i) rows).
Proof.
  revert i. induction rows as [|[k' b] t IH]; intros i H.
  - destruct i; discriminate.
  - destruct i as [|i].
    + simpl in H. injection H as -> ->. simpl. rewrite Z.eqb_refl. simpl.
      lia.
    + simpl in H. apply IH in H.
      change (firstn (S (S i)) ((k', b) :: t))
        with ((k', b) :: firstn (S i) t).
      cbn [count_new]. destruct ((k' =? k) && b); lia.
Qed.

Lemma count_new_absent (k : Z) (rows : list (Z * bool)) (j : nat) :
  (forall m k' b, (m < j)%nat -> nth_error rows m = Some (k', b) -> k' <> k) ->
  count_new k (firstn j rows) = 0.
Proof.
  revert j. induction rows as [|[k' b] t IH]; intros j H.
  - rewrite firstn_nil. reflexivity.
  - destruct j as [|j]; [reflexivity|]. simpl.
    assert (Hk : k' <> k) by (apply (H 0%nat k' b); [lia | reflexivity]).
    apply Z.eqb_neq in Hk. rewrite Hk. simpl. apply IH.
    intros m k'' b' Hm Hn. apply (H (S m) k'' b'); [lia | exact Hn].
Qed.

Lemma count_new_last (k : Z) (rows : list (Z * bool)) (j : nat) (b : bool) :
  nth_error rows j = Some (k, b) ->
  count_new k (firstn (S j) rows)
  = count_new k (firstn j rows) + (if b then 1 else 0).
Proof.
  revert j. induction rows as [|[k' b'] t IH]; intros j H.
  - destruct j; discriminate.
  - destruct j as [|j].
    + simpl in H. injection H as -> ->. simpl. rewrite Z.eqb_refl. simpl.
      destruct b; lia.
    + simpl in H. apply IH in H.
      change (firstn (S (S j)) ((k', b') :: t))
        with ((k', b') :: firstn (S j) t).
      change (firstn (S j) ((k', b') :: t)) with ((k', b') :: firstn j t).
      cbn [count_new]. lia.
Qed.

(** [groupby(key)[col].cumsum()] counts, for each row, the flagged rows
    of its group so far. *)
Lemma cumsum_in_groups_nth (rows : list (Z * bool)) :
  forall (acc : list (Z * Z)) (j : nat) (k : Z) (b : bool),
    nth_error rows j = Some (k, b) ->
    nth_error (cumsum_in_groups acc rows) j
    = Some (match assoc k acc with Some n => n | None => 0 end
            + count_new k (firstn (S j) rows)).
Proof.
  induction rows as [|[k0 b0] t IH]; intros acc j k b H.
  - destruct j; discriminate.
  - destruct j as [|j].
    + simpl in H. injection H as -> ->. simpl. rewrite Z.eqb_refl. simpl.
      f_equal. destruct b; lia.
    + simpl in H. cbn [cumsum_in_groups nth_error].
      rewrite (IH _ j k b H).
      change (firstn (S (S j)) ((k0, b0) :: t))
        with ((k0, b0) :: firstn (S j) t).
      cbn [count_new assoc]. f_equal. destruct (k0 =? k) eqn:E.
      * apply Z.eqb_eq in E. subst k0. cbn [andb]. destruct b0; lia.
      * cbn [andb]. lia.
Qed.

Lemma first_of_customer (l : list Abonnement) (c : Z) (j : nat) :
  (forall m z, (m < j)%nat -> nth_error l m = Some z -> customer_id z <> c)
  \/ (exists i p, (i < j)%nat /\ nth_error l i = Some p /\ customer_id p = c
                  /\ forall m z, (m < i)%nat -> nth_error l m = Some z ->
                       customer_id z <> c).
Proof.
  induction j as [|j IH].
  - left. intros m z Hm. lia.
  - destruct IH as [IH|[i [p [Hi H]]]].
    + destruct (nth_error l j) as [z|] eqn:E.
      * destruct (Z.eq_dec (customer_id z) c) as [Hc|Hc].
        -- right. exists j, z. repeat split; try assumption. lia.
        -- left. intros m z' Hm Hz'.
           destruct (Nat.eq_dec m j) as [->|Hne];
             [congruence | apply (IH m); [lia | assumption]].
      * left. intros m z' Hm Hz'.
        destruct (Nat.eq_dec m j) as [->|Hne];
          [congruence | apply (IH m); [lia | assumption]].
    + right. exists i, p. split; [lia | exact H].
Qed.

Lemma pipeline_first_row_flag (df_sorted : list Abonnement) (i : nat)
    (p : Abonnement) :
  nth_error df_sorted i = Some p ->
  (forall m z, (m < i)%nat -> nth_error df_sorted m = Some z ->
     customer_id z <> customer_id p) ->
  nth_error (nouveau_parcours df_sorted) i = Some true.
Proof.
  intros Hp Hfirst.
  pose proof (echeance_precedente_first df_sorted i p Hp Hfirst) as Hprev.
  rewrite (pipeline_nouveau_parcours_nth df_sorted i p None Hp Hprev).
  destruct (order_date p); reflexivity.
Qed.

Lemma pipeline_rows_nth (df_sorted : list Abonnement) (j : nat)
    (r : Abonnement) :
  nth_error df_sorted j = Some r ->
  exists b,
    nth_error (nouveau_parcours df_sorted) j = Some b
    /\ nth_error (combine (map customer_id df_sorted)
                    (nouveau_parcours df_sorted)) j
       = Some (customer_id r, b).
Proof.
  intros Hr.
  destruct (duree_trou_jours_nth df_sorted j r Hr) as [prev [Hprev _]].
  pose proof (pipeline_nouveau_parcours_nth df_sorted j r prev Hr Hprev)
    as Hb.
  eexists. split; [exact Hb|].
  rewrite nth_error_combine, nth_error_map, Hr, Hb. reflexivity.
Qed.

(** X14. In [pipeline_JA] the journey number of a subscription is the
    number of journey starts among its customer's subscriptions up to it,
    in the sorted frame.  It is at least 1 on every row and exactly 1 on
    the first row of a customer, so [is_first_subscription] holds there. *)
Theorem parcours_numero_counts (df_sub : list Abonnement) (j : nat)
    (r : Abonnement) :
  let df_sorted := sort_values sort_key_leb df_sub in
  nth_error df_sorted j = Some r ->
  exists n,
    nth_error (parcours_numero df_sorted) j = Some n
    /\ n = count_new (customer_id r)
             (firstn (S j)
                (combine (map customer_id df_sorted)
                   (nouveau_parcours df_sorted)))
    /\ 1 <= n
    /\ ((forall m z, (m < j)%nat -> nth_error df_sorted m = Some z ->
           customer_id z <> customer_id r) -> n = 1).
Proof.
  intros df_sorted Hr.
  set (rows := combine (map customer_id df_sorted)
                 (nouveau_parcours df_sorted)).
  destruct (pipeline_rows_nth df_sorted j r Hr) as [b [Hb Hrow]].
  fold rows in Hrow.
  exists (count_new (customer_id r) (firstn (S j) rows)).
  split; [|split; [reflexivity|split]].
  - unfold parcours_numero, groupby_cumsum. fold rows.
    rewrite (cumsum_in_groups_nth rows [] j (customer_id r) b Hrow).
    simpl. reflexivity.
  - destruct (first_of_customer df_sorted (customer_id r) j)
      as [Hfirst|[i [p [Hi [Hp [Hc Hfirst]]]]]].
    + pose proof (pipeline_first_row_flag df_sorted j r Hr Hfirst) as Hflag.
      rewrite Hflag in Hb. injection Hb as <-.
      now apply count_new_flagged.
    + rewrite <- Hc in Hfirst.
      pose proof (pipeline_first_row_flag df_sorted i p Hp Hfirst) as Hflag.
      destruct (pipeline_rows_nth df_sorted i p Hp) as [b' [Hb' Hrow']].
      fold rows in Hrow'. rewrite Hflag in Hb'. injection Hb' as <-.
      rewrite Hc in Hrow'.
      pose proof (count_new_flagged _ rows i Hrow').
      pose proof (count_new_prefix (customer_id r) rows (S i) (S j)).
      lia.
  - intros Hfirst.
    pose proof (pipeline_first_row_flag df_sorted j r Hr Hfirst) as Hflag.
    rewrite Hflag in Hb. injection Hb as <-.
    rewrite (count_new_last _ rows j true Hrow).
    rewrite count_new_absent; [reflexivity|].
    intros m k' b' Hm Hn. unfold rows in Hn.
    rewrite nth_error_combine, nth_error_map in Hn.
    destruct (nth_error df_sorted m) as [z|] eqn:Ez; [|discriminate].
    simpl in Hn.
    destruct (nth_error (nouveau_parcours df_sorted) m); [|discriminate].
    injection Hn as <- _. exact (Hfirst m z Hm Ez).
Qed.

End JourneyNumber.

(** ** lancer_analyse: the monthly report *)

Section LancerReport.
Import Pandas Gemini lancer_analyse.

Lemma dropna_In {A} (l : list (option A)) (a : A) :
  In a (dropna l) <-> In (Some a) l.
Proof.
  induction l as [|[b|] t IH]; simpl.
  - reflexivity.
  - rewrite IH. split; intros [H|H]; try (right; assumption);
      left; congruence.
  - rewrite IH. split; [intros H; now right | intros [H|H];
      [discriminate | assumption]].
Qed.

Lemma id_eqb_spec (a b : Z * Z) : id_eqb a b = true <-> a = b.
Proof.
  unfold id_eqb. rewrite andb_true_iff, !Z.eqb_eq.
  destruct a, b. simpl. split; [intros [-> ->]; reflexivity|].
  intros H. injection H as -> ->. split; reflexivity.
Qed.

Lemma journeys_rows (df_sub : list Abonnement) :
  map row (journeys df_sub) = sort_values sort_key_leb df_sub.
Proof.
  unfold journeys. set (df_sorted := sort_values sort_key_leb df_sub).
  rewrite map_map. cbn [row].
  rewrite <- (map_map fst fst). rewrite map_fst_combine.
  - apply map_fst_combine. now rewrite nouveau_parcours_length.
  - rewrite length_combine, nouveau_parcours_length, id_parcours_length.
    lia.
Qed.

Lemma journeys_row_In (df_sub : list Abonnement) (a : Abonnement) :
  In a df_sub <-> exists x, In x (journeys df_sub) /\ row x = a.
Proof.
  rewrite <- (sort_values_In sort_key_leb a df_sub), <- journeys_rows,
    in_map_iff.
  split; intros [x [H H']]; exists x; tauto.
Qed.

(** The start date of a journey is the earliest order date of its
    rows. *)
Lemma journey_start_date_spec (df_sorted : list Parcours) (id : Z * Z)
    (js : Timestamp) :
  journey_start_date_of df_sorted id = Some js ->
  (exists y, In y df_sorted /\ p_id_parcours y = id
             /\ order_date (row y) = Some js)
  /\ (forall y o, In y df_sorted -> p_id_parcours y = id ->
        order_date (row y) = Some o -> ts_leb js o = true).
Proof.
  unfold journey_start_date_of. intros H. apply series_min_spec in H.
  destruct H as [Hin Hmin]. split.
  - apply dropna_In, in_map_iff in Hin. destruct Hin as [y [Hy Hin]].
    apply filter_In in Hin. destruct Hin as [Hin Hid].
    apply id_eqb_spec in Hid. exists y. repeat split; assumption.
  - intros y o Hy Hid Ho. apply Hmin. apply dropna_In. rewrite <- Ho.
    apply in_map with (f := fun x => order_date (row x)).
    apply filter_In. split; [assumption | now apply id_eqb_spec].
Qed.

Lemma journey_start_date_present (df_sorted : list Parcours) (x : Parcours)
    (o : Timestamp) :
  In x df_sorted -> order_date (row x) = Some o ->
  exists js, journey_start_date_of df_sorted (p_id_parcours x) = Some js.
Proof.
  intros Hx Ho. unfold journey_start_date_of. apply series_min_Some.
  intros E.
  assert (H : In o (dropna
                      (map (fun y => order_date (row y))
                         (filter (fun y => id_eqb (p_id_parcours y)
                                             (p_id_parcours x))
                            df_sorted)))).
  { apply dropna_In. rewrite <- Ho.
    apply in_map with (f := fun y => order_date (row y)).
    apply filter_In. split; [assumption | now apply id_eqb_spec]. }
  rewrite E in H. contradiction.
Qed.

(** The months of a subscription in the report: from the month of its
    start date to the month of its due date. *)
Definition months_between (o e : Timestamp) : list Timestamp :=
  date_range_MS (month_start o) (month_start e).

Lemma months_between_In (o e ts : Timestamp) :
  valid_ts o ->
  In ts (months_between o e)
  <-> valid_month ts /\ day ts = 1
      /\ 0 <= months_from o ts <= months_from o e.
Proof.
  intros [Hm _].
  change (months_between o e)
    with (iter_months (month_start o) (Z.to_nat (months_from o e + 1))).
  rewrite iter_months_In by exact Hm.
  change (day (month_start o)) with 1.
  change (months_from (month_start o) ts) with (months_from o ts).
  split; intros [H1 [H2 H3]]; (split; [assumption|]);
    (split; [assumption|]); lia.
Qed.

Definition report_row (x : Parcours) (start month_date : Timestamp)
    : MonthlyRow :=
  {| parcours := x;
     journey_start_date := start;
     month_ := month_date;
     month_relatif := months_from start month_date;
     Montant := montant_mensuel (row x) |}.

(** The rows [expand_row] returns when it returns. *)
Definition report_rows (df_sorted : list Parcours) (x : Parcours)
    : list MonthlyRow :=
  match order_date (row x), ECHEANCE_date (row x),
        journey_start_date_of df_sorted (p_id_parcours x) with
  | Some o, Some e, Some start =>
      map (report_row x start) (months_between o e)
  | _, _, _ => []
  end.

Definition dated (a : Abonnement) : bool :=
  notna (order_date a) && notna (ECHEANCE_date a).

Lemma expand_row_cases (df_sorted : list Parcours) (x : Parcours) :
  In x df_sorted ->
  (dated (row x) = true
   /\ expand_row df_sorted x = Ok (report_rows df_sorted x))
  \/ (dated (row x) = false /\ expand_row df_sorted x = Err NaTError).
Proof.
  intros Hx. unfold expand_row, report_rows, dated.
  destruct (order_date (row x)) as [o|] eqn:Ho;
    [|right; split; reflexivity].
  destruct (ECHEANCE_date (row x)) as [e|] eqn:He;
    [|right; split; reflexivity].
  destruct (journey_start_date_present df_sorted x o Hx Ho) as [js Hjs].
  rewrite Hjs. left. split; reflexivity.
Qed.

Lemma flat_mapM_cases {A B} (f : A -> Res (list B)) (g : A -> list B)
    (ok : A -> bool) (e : Exc) (l : list A) :
  (forall x, In x l ->
     (ok x = true /\ f x = Ok (g x)) \/ (ok x = false /\ f x = Err e)) ->
  (forallb ok l = true
   /\ Claude_retention_analysis.flat_mapM f l = Ok (flat_map g l))
  \/ (forallb ok l = false
      /\ Claude_retention_analysis.flat_mapM f l = Err e).
Proof.
  induction l as [|a l IH]; intros H; [left; split; reflexivity|].
  simpl. destruct (H a (or_introl eq_refl)) as [[Ha Hf]|[Ha Hf]];
    rewrite Ha, Hf; simpl; [|right; split; reflexivity].
  destruct IH as [[Hl Hm]|[Hl Hm]];
    [intros x Hx; apply H; now right | |]; rewrite Hl, Hm;
    [left | right]; split; reflexivity.
Qed.

Lemma create_monthly_report_cases (df_sub : list Abonnement) :
  (forallb dated df_sub = true
   /\ create_monthly_report df_sub
      = Ok (flat_map (report_rows (journeys df_sub)) (journeys df_sub)))
  \/ (forallb dated df_sub = false
      /\ create_monthly_report df_sub = Err NaTError).
Proof.
  assert (Hd : forallb dated df_sub
               = forallb (fun x => dated (row x)) (journeys df_sub)).
  { apply eq_true_iff_eq. rewrite !forallb_forall. split.
    - intros H x Hx. apply H. apply journeys_row_In. exists x.
      split; [assumption | reflexivity].
    - intros H a Ha. apply journeys_row_In in Ha.
      destruct Ha as [x [Hx <-]]. exact (H x Hx). }
  rewrite Hd. unfold create_monthly_report.
  apply flat_mapM_cases. intros x Hx. now apply expand_row_cases.
Qed.

(** Every subscription has both dates, and they name calendar days. *)
Definition well_dated (df_sub : list Abonnement) : Prop :=
  forall a, In a df_sub ->
    exists o e, order_date a = Some o /\ ECHEANCE_date a = Some e
                /\ valid_ts o /\ valid_ts e.

Lemma report_rows_In (df_sorted : list Parcours) (x : Parcours)
    (r : MonthlyRow) :
  In r (report_rows df_sorted x)
  <-> exists o e start ts,
        order_date (row x) = Some o /\ ECHEANCE_date (row x) = Some e
        /\ journey_start_date_of df_sorted (p_id_parcours x) = Some start
        /\ In ts (months_between o e)
        /\ r = report_row x start ts.
Proof.
  unfold report_rows.
  destruct (order_date (row x)) as [o|];
    [|split; [intros [] | intros [? [? [? [? [H _]]]]]; discriminate]].
  destruct (ECHEANCE_date (row x)) as [e|];
    [|split; [intros [] | intros [? [? [? [? [_ [H _]]]]]]; discriminate]].
  destruct (journey_start_date_of df_sorted (p_id_parcours x)) as [s|];
    [|split; [intros [] | intros [? [? [? [? [_ [_ [H _]]]]]]]; discriminate]].
  rewrite in_map_iff. split.
  - intros [ts [<- Hts]]. exists o, e, s, ts. repeat split. assumption.
  - intros [o' [e' [s' [ts [Ho [He [Hs [Hts ->]]]]]]]].
    injection Ho as <-. injection He as <-. injection Hs as <-.
    exists ts. split; [reflexivity | assumption].
Qed.

(** The column [frequence] holds a text.  Such a column has dtype object
    and with it the accessor [.str] that [group_and_repair_data] and
    [create_monthly_report] ask of it; the column that [read_csv] builds
    when every cell is missing has dtype float64 and no [.str]. *)
Definition holds_text (df : list Abonnement) : Prop :=
  exists a s, In a df /\ frequence a = Some s.

(** X15. On subscriptions that all have valid dates, in a frame whose
    column [frequence] holds a text, the report of [lancer_analyse] is made
    of one block of rows per subscription, in the order of the sorted
    frame; the rows of a block carry the subscription and, once each and in
    calendar order, the months from the month of its start date to the
    month of its due date, none when the due month comes first.  The
    journey start date of a row is the earliest start date in the row's
    journey, and the relative month is counted from its month, so it is
    never negative. *)
Theorem lancer_report_rows (df_sub : list Abonnement) :
  well_dated df_sub ->
  holds_text df_sub ->
  exists report,
    create_monthly_report df_sub = Ok report
    /\ map row (journeys df_sub) = sort_values sort_key_leb df_sub
    /\ (exists rows_of : Parcours -> list MonthlyRow,
          report = flat_map rows_of (journeys df_sub)
          /\ forall x, In x (journeys df_sub) ->
               exists o e,
                 order_date (row x) = Some o
                 /\ ECHEANCE_date (row x) = Some e
                 /\ (forall r, In r (rows_of x) -> parcours r = x)
                 /\ map month_ (rows_of x)
                    = date_range_MS (month_start o) (month_start e)
                 /\ NoDup (map month_ (rows_of x))
                 /\ (forall ts,
                       In ts (map month_ (rows_of x))
                       <-> valid_month ts /\ day ts = 1
                           /\ 0 <= months_from o ts <= months_from o e)
                 /\ Z.of_nat (List.length (rows_of x))
                    = Z.max 0 (months_from o e + 1))
    /\ (forall x ts,
          (exists r, In r report /\ parcours r = x /\ month_ r = ts)
          <-> In x (journeys df_sub)
              /\ exists o e,
                   order_date (row x) = Some o
                   /\ ECHEANCE_date (row x) = Some e
                   /\ valid_month ts /\ day ts = 1
                   /\ 0 <= months_from o ts <= months_from o e)
    /\ (forall r, In r report ->
          (exists y, In y (journeys df_sub)
                     /\ p_id_parcours y = p_id_parcours (parcours r)
                     /\ order_date (row y) = Some (journey_start_date r))
          /\ (forall y o, In y (journeys df_sub) ->
                p_id_parcours y = p_id_parcours (parcours r) ->
                order_date (row y) = Some o ->
                ts_leb (journey_start_date r) o = true)
          /\ month_relatif r = months_from (journey_start_date r) (month_ r)
          /\ 0 <= month_relatif r).
Proof.
  intros Hwd _.
  set (J := journeys df_sub).
  assert (HJ : forall x, In x J ->
            exists o e, order_date (row x) = Some o
                        /\ ECHEANCE_date (row x) = Some e
                        /\ valid_ts o /\ valid_ts e).
  { intros x Hx. apply Hwd. apply journeys_row_In. exists x.
    split; [assumption | reflexivity]. }
  exists (flat_map (report_rows J) J).
  split; [|split; [|split; [|split]]].
  - destruct (create_monthly_report_cases df_sub) as [[_ H]|[Hd _]];
      [exact H|].
    exfalso. assert (Ht : forallb dated df_sub = true); [|congruence].
    apply forallb_forall. intros a Ha.
    destruct (Hwd a Ha) as [o [e [Ho [He _]]]].
    unfold dated. rewrite Ho, He. reflexivity.
  - apply journeys_rows.
  - exists (report_rows J). split; [reflexivity|].
    intros x Hx. destruct (HJ x Hx) as [o [e [Ho [He [Hvo _]]]]].
    destruct (journey_start_date_present J x o Hx Ho) as [s Hs].
    exists o, e. split; [assumption|]. split; [assumption|].
    assert (Hrows : report_rows J x
                    = map (report_row x s) (months_between o e))
      by (unfold report_rows; rewrite Ho, He, Hs; reflexivity).
    assert (Hmonths : map month_ (report_rows J x) = months_between o e).
    { rewrite Hrows, map_map. cbn [month_ report_row]. apply map_id. }
    split; [|split; [|split; [|split]]].
    + intros r Hr. rewrite Hrows in Hr. apply in_map_iff in Hr.
      destruct Hr as [ts [<- _]]. reflexivity.
    + exact Hmonths.
    + rewrite Hmonths.
      change (months_between o e)
        with (iter_months (month_start o) (Z.to_nat (months_from o e + 1))).
      apply iter_months_NoDup. exact (proj1 Hvo).
    + intros ts. rewrite Hmonths. now apply months_between_In.
    + rewrite <- (length_map month_), Hmonths.
      change (months_between o e)
        with (iter_months (month_start o) (Z.to_nat (months_from o e + 1))).
      rewrite iter_months_length. lia.
  - intros x ts. split.
    + intros [r [Hr [Hp Hm]]]. apply in_flat_map in Hr.
      destruct Hr as [x' [Hx' Hr]]. apply report_rows_In in Hr.
      destruct Hr as [o [e [s [ts' [Ho [He [Hs [Hts Hrow]]]]]]]].
      rewrite Hrow in Hp, Hm. cbn in Hp, Hm. subst x' ts'.
      split; [assumption|]. exists o, e.
      destruct (HJ x Hx') as [o' [e' [Ho' [_ [Hvo _]]]]].
      rewrite Ho in Ho'. injection Ho' as <-.
      apply months_between_In in Hts; [|assumption]. tauto.
    + intros [Hx [o [e [Ho [He [Hv [Hd Hrange]]]]]]].
      destruct (HJ x Hx) as [o' [e' [Ho' [_ [Hvo _]]]]].
      rewrite Ho in Ho'. injection Ho' as <-.
      destruct (journey_start_date_present J x o Hx Ho) as [s Hs].
      exists (report_row x s ts). split; [|split; reflexivity].
      apply in_flat_map. exists x. split; [assumption|].
      apply report_rows_In. exists o, e, s, ts.
      repeat split; try assumption.
      apply months_between_In; [assumption|]. tauto.
  - intros r Hr. apply in_flat_map in Hr. destruct Hr as [x [Hx Hr]].
    apply report_rows_In in Hr.
    destruct Hr as [o [e [s [ts [Ho [He [Hs [Hts Hrow]]]]]]]].
    rewrite Hrow. cbn.
    destruct (journey_start_date_spec J _ s Hs) as [Hex Hmin].
    split; [exact Hex|]. split; [exact Hmin|]. split; [reflexivity|].
    destruct (HJ x Hx) as [o' [e' [Ho' [_ [Hvo _]]]]].
    rewrite Ho in Ho'. injection Ho' as <-.
    apply months_between_In in Hts; [|assumption].
    destruct Hex as [y [Hy [_ Hoy]]].
    destruct (HJ y Hy) as [oy [_ [Hoy' [_ [Hvy _]]]]].
    rewrite Hoy in Hoy'. injection Hoy' as <-.
    pose proof (Hmin x o Hx eq_refl Ho) as Hle.
    apply ts_leb_months_from in Hle;
      [|now apply valid_ts_month | now apply valid_ts_month].
    unfold months_from in *. lia.
Qed.

(** X16. In a frame whose column [frequence] holds a text,
    [create_monthly_report] of [lancer_analyse] raises exactly when a
    subscription lacks its start date or its due date, and then nothing but
    that error; after [group_and_repair_data], which drops such
    subscriptions, it returns a report. *)
Theorem lancer_report_raises_iff (df : list Abonnement) :
  holds_text df ->
  (create_monthly_report df = Err NaTError
   <-> exists a, In a df
                 /\ (order_date a = None \/ ECHEANCE_date a = None))
  /\ (forall e, create_monthly_report df = Err e -> e = NaTError)
  /\ (exists report, monthly_report_of df = Ok report).
Proof.
  intros _.
  assert (Hdated : forall l, forallb dated l = false
            <-> exists a, In a l
                          /\ (order_date a = None \/ ECHEANCE_date a = None)).
  { intros l. split.
    - intros H. destruct (existsb (fun a => negb (dated a)) l) eqn:E.
      + apply existsb_exists in E. destruct E as [a [Ha Hn]].
        exists a. split; [assumption|]. unfold dated, notna, isna in Hn.
        destruct (order_date a); [|left; reflexivity].
        destruct (ECHEANCE_date a); [discriminate | right; reflexivity].
      + exfalso. assert (Ht : forallb dated l = true); [|congruence].
        apply forallb_forall. intros a Ha.
        destruct (dated a) eqn:Ed; [reflexivity|].
        assert (Hex : existsb (fun a => negb (dated a)) l = true);
          [|congruence].
        apply existsb_exists. exists a. split; [assumption|].
        now rewrite Ed.
    - intros [a [Ha Hn]]. destruct (forallb dated l) eqn:E; [|reflexivity].
      pose proof (proj1 (forallb_forall _ _) E a Ha) as Hd.
      unfold dated, notna, isna in Hd.
      destruct Hn as [Hn|Hn]; rewrite Hn in Hd;
        [discriminate|].
      destruct (order_date a); discriminate. }
  split; [|split].
  - rewrite <- Hdated.
    destruct (create_monthly_report_cases df) as [[Hd H]|[Hd H]];
      rewrite H, Hd; split; intros; try reflexivity; discriminate.
  - intros e H.
    destruct (create_monthly_report_cases df) as [[_ H']|[_ H']];
      rewrite H' in H; [discriminate | now injection H as <-].
  - unfold monthly_report_of.
    destruct (create_monthly_report_cases
                (map abo (group_and_repair_data df)))
      as [[_ H]|[Hd _]]; [eexists; exact H|].
    exfalso.
    assert (Ht : forallb dated (map abo (group_and_repair_data df))
                 = true); [|congruence].
    apply forallb_forall. intros a Ha. apply in_map_iff in Ha.
    destruct Ha as [r [<- Hr]]. unfold group_and_repair_data in Hr.
    apply filter_In in Hr. exact (proj2 Hr).
Qed.

End LancerReport.

(** ** Counting distinct values *)

Section CountFacts.
Import Pandas.
Context {K : Type}.
Variable key_eqb : K -> K -> bool.
Hypothesis key_eqb_spec : forall a b, key_eqb a b = true <-> a = b.

Lemma first_seen_seen_le (l : list K) :
  forall seen seen' : list K,
    incl seen seen' ->
    (List.length (first_seen key_eqb (fun k => k) seen' l)
     <= List.length (first_seen key_eqb (fun k => k) seen l))%nat.
Proof.
  induction l as [|x t IH]; intros seen seen' Hincl; simpl; [lia|].
  destruct (isin key_eqb x seen) eqn:E.
  - apply (isin_In key_eqb key_eqb_spec) in E. apply Hincl in E.
    apply (isin_In key_eqb key_eqb_spec) in E. rewrite E.
    now apply IH.
  - destruct (isin key_eqb x seen') eqn:E'.
    + apply (isin_In key_eqb key_eqb_spec) in E'. simpl.
      assert (H : (List.length (first_seen key_eqb (fun k => k) seen' t)
                   <= List.length
                        (first_seen key_eqb (fun k => k) (x :: seen) t))%nat).
      { apply IH. intros y [<-|Hy]; [assumption | now apply Hincl]. }
      lia.
    + simpl. apply le_n_S. apply IH.
      intros y [<-|Hy]; [left; reflexivity | right; now apply Hincl].
Qed.

(** The distinct values of two columns together number at most the sum
    of the two counts. *)
Lemma nunique_app_le (l l' : list K) :
  nunique key_eqb (l ++ l') <= nunique key_eqb l + nunique key_eqb l'.
Proof.
  unfold nunique, unique, drop_duplicates.
  rewrite first_seen_app, length_app.
  assert (H : (List.length
                 (first_seen key_eqb (fun k => k)
                    (rev (map (fun k => k)
                            (first_seen key_eqb (fun k => k) [] l)) ++ []) l')
               <= List.length (first_seen key_eqb (fun k => k) [] l'))%nat).
  { apply first_seen_seen_le. intros y []. }
  lia.
Qed.

(** A column without repeated values counts its length. *)
Lemma nunique_unique (l : list K) :
  nunique key_eqb (unique key_eqb l)
  = Z.of_nat (List.length (unique key_eqb l)).
Proof.
  unfold nunique, unique, drop_duplicates.
  now rewrite (first_seen_fixed key_eqb).
Qed.

End CountFacts.

(** ** lancer_analyse: early churners and retained customers *)

Section ChurnSplit.
Import Pandas Gemini lancer_analyse.

Definition journey_of (r : MonthlyRow) : Z * Z :=
  p_id_parcours (parcours r).

Lemma duree_parcours_spec (df : list MonthlyRow) (r : MonthlyRow) :
  In r df ->
  (exists r', In r' df /\ journey_of r' = journey_of r
              /\ month_relatif r' = duree_parcours df r)
  /\ (forall r', In r' df -> journey_of r' = journey_of r ->
        month_relatif r' <= duree_parcours df r).
Proof.
  intros Hr. unfold duree_parcours.
  set (group := filter (fun x => id_eqb (p_id_parcours (parcours x))
                                   (p_id_parcours (parcours r))) df).
  assert (Hg : forall x, In x group <-> In x df /\ journey_of x = journey_of r).
  { intros x. unfold group. rewrite filter_In, id_eqb_spec. reflexivity. }
  destruct (series_max (map month_relatif group)) as [m|] eqn:E.
  - apply series_max_spec in E. destruct E as [Hin Hle]. split.
    + apply in_map_iff in Hin. destruct Hin as [r' [Hm Hr']].
      apply Hg in Hr'. exists r'. tauto.
    + intros r' Hr' Hj. apply Hle. apply in_map. apply Hg. tauto.
  - exfalso. assert (Hin : In r group) by (apply Hg; tauto).
    destruct group; [contradiction | discriminate].
Qed.

Lemma duree_parcours_journey (df : list MonthlyRow) (r r' : MonthlyRow) :
  In r df -> In r' df -> journey_of r = journey_of r' ->
  duree_parcours df r = duree_parcours df r'.
Proof.
  intros Hr Hr' Hj.
  destruct (duree_parcours_spec df r Hr) as [[x [Hx [Hjx Hmx]]] Hle].
  destruct (duree_parcours_spec df r' Hr') as [[y [Hy [Hjy Hmy]]] Hle'].
  assert (month_relatif x <= duree_parcours df r')
    by (apply Hle'; [assumption | congruence]).
  assert (month_relatif y <= duree_parcours df r)
    by (apply Hle; [assumption | congruence]).
  lia.
Qed.

(** X17. [analyze_churn_characteristics] splits the rows of the report in
    two: every row falls on one side and no row on both, the rows of one
    journey fall on the same side, the early churners hold the journeys
    that never pass relative month 2 and the retained those that do.  The
    two customer counts it prints are counted per side, so together they
    are at least the number of customers of the report. *)
Theorem churn_split (df : list MonthlyRow) :
  (forall r, In r df <-> In r (df_churners df) \/ In r (df_retained df))
  /\ (forall r, In r (df_churners df) -> ~ In r (df_retained df))
  /\ (forall r r', In r (df_churners df) -> In r' df ->
        journey_of r' = journey_of r ->
        In r' (df_churners df) /\ month_relatif r' <= 2)
  /\ (forall r, In r (df_retained df) ->
        exists r', In r' (df_retained df) /\ journey_of r' = journey_of r
                   /\ 2 < month_relatif r')
  /\ nunique Z.eqb (map (fun r => customer_id (row (parcours r))) df)
     <= fst (churn_counts df) + snd (churn_counts df).
Proof.
  unfold df_churners, df_retained, churn_counts. cbn [fst snd].
  split; [|split; [|split; [|split]]].
  - intros r. rewrite !filter_In, Z.leb_le, Z.ltb_lt. split.
    + intros Hr.
      destruct (Z.le_gt_cases (duree_parcours df r) 2); [left | right];
        split; try assumption; lia.
    + intros [[Hr _]|[Hr _]]; exact Hr.
  - intros r. rewrite !filter_In, Z.leb_le, Z.ltb_lt. intros [_ H] [_ H'].
    lia.
  - intros r r'. rewrite !filter_In, Z.leb_le. intros [Hr Hd] Hr' Hj.
    rewrite (duree_parcours_journey df r' r Hr' Hr Hj).
    split; [split; [assumption | now apply Z.leb_le]|].
    destruct (duree_parcours_spec df r Hr) as [_ Hle].
    specialize (Hle r' Hr' Hj). lia.
  - intros r. rewrite filter_In, Z.ltb_lt. intros [Hr Hd].
    destruct (duree_parcours_spec df r Hr) as [[r' [Hr' [Hj Hm]]] _].
    exists r'. rewrite filter_In, Z.ltb_lt.
    rewrite (duree_parcours_journey df r' r Hr' Hr Hj).
    repeat split; try assumption. lia.
  - set (c := fun r : MonthlyRow => customer_id (row (parcours r))).
    set (A := filter (fun r => duree_parcours df r <=? 2) df).
    set (B := filter (fun r => 2 <? duree_parcours df r) df).
    transitivity (nunique Z.eqb (map c A ++ map c B)).
    + apply nunique_incl; [intros a b; apply Z.eqb_eq|].
      intros k Hk. apply in_map_iff in Hk. destruct Hk as [r [<- Hr]].
      apply in_or_app.
      destruct (Z.le_gt_cases (duree_parcours df r) 2);
        [left | right]; apply in_map; apply filter_In;
        (split; [assumption|]); [apply Z.leb_le | apply Z.ltb_lt]; lia.
    + apply nunique_app_le. intros a b. apply Z.eqb_eq.
Qed.

End ChurnSplit.

(** ** rapport_final: the retention tables *)

Section RapportRetention.
Import Pandas Gemini rapport_final.

Lemma rapport_id_eqb_spec (a b : Z * Z) : id_eqb a b = true <-> a = b.
Proof.
  unfold id_eqb. rewrite andb_true_iff, !Z.eqb_eq.
  destruct a, b. simpl. split; [intros [-> ->]; reflexivity|].
  intros H. injection H as -> ->. split; reflexivity.
Qed.

Lemma rapport_cell_is_spec (v : string) (c : option string) :
  cell_is v c = true <-> c = Some v.
Proof.
  destruct c as [s|]; simpl; [|split; discriminate].
  rewrite String.eqb_eq. split; [intros ->; reflexivity|].
  intros H. now injection H.
Qed.

(** The customers with a row at relative month [m]. *)
Definition customers_in (df : list ReportRow) (m : Z) : list Z :=
  map r_customer_id (filter (fun r => r_month_relatif r =? m) df).

Lemma customers_in_In (df : list ReportRow) (m c : Z) :
  In c (customers_in df m)
  <-> exists r, In r df /\ r_month_relatif r = m /\ r_customer_id r = c.
Proof.
  unfold customers_in. rewrite in_map_iff. split.
  - intros [r [Hc Hr]]. apply filter_In in Hr. destruct Hr as [Hr Hm].
    apply Z.eqb_eq in Hm. exists r. tauto.
  - intros [r [Hr [Hm Hc]]]. exists r. split; [assumption|].
    apply filter_In. split; [assumption | now apply Z.eqb_eq].
Qed.

Lemma retained_count_In (df : list ReportRow) (m n : Z) :
  In (m, n) (retained_count df)
  <-> In m (map r_month_relatif df)
      /\ n = nunique Z.eqb (customers_in df m).
Proof.
  unfold retained_count. rewrite in_map_iff. split.
  - intros [m' [E Hm]]. injection E as -> <-.
    apply (proj1 (groupby_index_In _ _)) in Hm.
    split; [assumption | reflexivity].
  - intros [Hm ->]. exists m. split; [reflexivity|].
    exact (proj2 (groupby_index_In _ _) Hm).
Qed.

Lemma retained_count_months (df : list ReportRow) :
  map fst (retained_count df)
  = sort_values Z.leb (unique Z.eqb (map r_month_relatif df)).
Proof. unfold retained_count. rewrite map_map. apply map_id. Qed.

Lemma rate_of_In (initial : Z) (retained : list (Z * Z)) (m : Z) (q : Q) :
  In (m, q) (rate_of initial retained)
  <-> exists n, In (m, n) retained
                /\ q = (inject_Z n / inject_Z initial)%Q.
Proof.
  unfold rate_of. rewrite in_map_iff. split.
  - intros [[m' n] [E H]]. simpl in E. injection E as -> <-.
    exists n. split; [assumption | reflexivity].
  - intros [n [H ->]]. exists (m, n). split; [reflexivity | assumption].
Qed.

Lemma rate_of_months (initial : Z) (retained : list (Z * Z)) :
  map fst (rate_of initial retained) = map fst retained.
Proof. unfold rate_of. rewrite map_map. reflexivity. Qed.

Lemma Qdiv_inject_pos (n N : Z) :
  0 < n -> 0 < N -> (0 < inject_Z n / inject_Z N)%Q.
Proof.
  intros Hn HN. apply Qlt_shift_div_l.
  - change 0%Q with (inject_Z 0). now rewrite <- Zlt_Qlt.
  - rewrite Qmult_0_l. change 0%Q with (inject_Z 0). now rewrite <- Zlt_Qlt.
Qed.

Lemma Qdiv_inject_le_1 (n N : Z) :
  0 < N -> n <= N -> (inject_Z n / inject_Z N <= 1)%Q.
Proof.
  intros HN Hn. apply Qle_shift_div_r.
  - change 0%Q with (inject_Z 0). now rewrite <- Zlt_Qlt.
  - rewrite Qmult_1_l. now rewrite <- Zle_Qle.
Qed.

Lemma Qdiv_inject_same (N : Z) :
  0 < N -> (inject_Z N / inject_Z N == 1)%Q.
Proof.
  intros HN. field. intros E.
  assert (N = 0) by (rewrite <- (Qfloor_Z N); rewrite E; reflexivity).
  lia.
Qed.

Lemma df_initial_state_In (df : list ReportRow) (r : ReportRow) :
  In r (df_initial_state df) -> In r df /\ r_month_relatif r = 0.
Proof.
  unfold df_initial_state. intros H.
  apply (drop_duplicates_In id_eqb rapport_id_eqb_spec r_id_parcours) in H.
  apply filter_In in H. destruct H as [H H0]. apply Z.eqb_eq in H0. tauto.
Qed.

Lemma cohort_ids_In (df : list ReportRow)
    (char : ReportRow -> option string) (segment : string) (c : Z) :
  In c (cohort_ids df char segment)
  <-> exists r, In r (df_initial_state df) /\ char r = Some segment
                /\ r_customer_id r = c.
Proof.
  unfold cohort_ids.
  rewrite (unique_In Z.eqb Z.eqb_eq), in_map_iff. split.
  - intros [r [Hc Hr]]. apply filter_In in Hr. destruct Hr as [Hr Hs].
    apply rapport_cell_is_spec in Hs. exists r. tauto.
  - intros [r [Hr [Hs Hc]]]. exists r. split; [assumption|].
    apply filter_In. split; [assumption | now apply rapport_cell_is_spec].
Qed.

Lemma segments_of_In (df : list ReportRow)
    (char : ReportRow -> option string) (segment : string) :
  In segment (segments_of df char)
  <-> exists r, In r (df_initial_state df) /\ char r = Some segment.
Proof.
  unfold segments_of.
  rewrite (unique_In String.eqb String.eqb_eq), dropna_In, in_map_iff.
  split; intros [r [H H']]; exists r; tauto.
Qed.

Lemma assoc_In {V} (k : Z) (l : list (Z * V)) (v : V) :
  assoc k l = Some v -> In (k, v) l.
Proof.
  induction l as [|[k' v'] t IH]; simpl; [discriminate|].
  destruct (k' =? k) eqn:E.
  - apply Z.eqb_eq in E. intros H. injection H as <-. left. now rewrite E.
  - intros H. right. now apply IH.
Qed.

(** X18. In [calculate_retention_tables], for every segment that the
    initial states list for a characteristic, the loop stores a retention
    series (its [continue] is never taken).  The series is 1 at relative
    month 0, and at every month it lies above 0 and at most at 1; so do
    the cells of the table, where a missing month is filled with 0. *)
Theorem segment_rate_bounds (df : list ReportRow)
    (char : ReportRow -> option string) (segment : string) :
  In segment (segments_of df char) ->
  exists rate,
    segment_rate df char segment = Some rate
    /\ (exists q, In (0, q) rate /\ (q == 1)%Q)
    /\ (forall m q, In (m, q) rate -> (0 < q)%Q /\ (q <= 1)%Q)
    /\ (forall m, (0 <= filled_rate rate m)%Q /\ (filled_rate rate m <= 1)%Q).
Proof.
  intros Hseg. apply segments_of_In in Hseg. destruct Hseg as [r0 [Hr0 Hs0]].
  unfold segment_rate.
  set (ids := cohort_ids df char segment).
  set (N := Z.of_nat (List.length ids)).
  set (df_cohort := filter (fun r => isin Z.eqb (r_customer_id r) ids) df).
  assert (Hids : In (r_customer_id r0) ids)
    by (apply cohort_ids_In; exists r0; repeat split; assumption).
  assert (HN : N = nunique Z.eqb ids)
    by (unfold N, ids, cohort_ids; now rewrite (nunique_unique Z.eqb)).
  assert (Hpos : 0 < N)
    by (rewrite HN; exact (nunique_pos Z.eqb Z.eqb_eq _ _ Hids)).
  assert (Hcohort : forall r, In r df_cohort
                              <-> In r df /\ In (r_customer_id r) ids).
  { intros r. unfold df_cohort.
    rewrite filter_In, (isin_In Z.eqb Z.eqb_eq). reflexivity. }
  assert (Hle : forall m, nunique Z.eqb (customers_in df_cohort m) <= N).
  { intros m. rewrite HN. apply nunique_incl; [exact Z.eqb_eq|].
    intros c Hc. apply customers_in_In in Hc.
    destruct Hc as [r [Hr [_ <-]]]. now apply Hcohort. }
  assert (Hzero : nunique Z.eqb (customers_in df_cohort 0) = N).
  { apply Z.le_antisymm; [apply Hle|]. rewrite HN.
    apply nunique_incl; [exact Z.eqb_eq|].
    intros c Hc. pose proof Hc as Hc'. apply cohort_ids_In in Hc.
    destruct Hc as [r [Hr [_ Hrc]]]. apply df_initial_state_In in Hr.
    apply customers_in_In. exists r. split; [|tauto].
    apply Hcohort. rewrite Hrc. tauto. }
  replace (N =? 0) with false by (symmetry; apply Z.eqb_neq; lia).
  eexists. split; [reflexivity|].
  assert (Hbounds : forall m q,
            In (m, q) (rate_of N (retained_count df_cohort)) ->
            (0 < q)%Q /\ (q <= 1)%Q).
  { intros m q H. apply rate_of_In in H. destruct H as [n [Hn ->]].
    apply retained_count_In in Hn. destruct Hn as [Hm ->].
    apply in_map_iff in Hm. destruct Hm as [r [Hm Hr]]. split.
    - apply Qdiv_inject_pos; [|assumption].
      apply (nunique_pos Z.eqb Z.eqb_eq (r_customer_id r)).
      apply customers_in_In. exists r. tauto.
    - apply Qdiv_inject_le_1; [assumption | apply Hle]. }
  split; [|split].
  - exists (inject_Z N / inject_Z N)%Q.
    split; [|now apply Qdiv_inject_same].
    apply rate_of_In. exists N. split; [|reflexivity].
    apply retained_count_In. split; [|now rewrite Hzero].
    apply df_initial_state_In in Hr0. destruct Hr0 as [Hr0 H0].
    rewrite <- H0. apply in_map. apply Hcohort. tauto.
  - exact Hbounds.
  - intros m. unfold filled_rate.
    destruct (assoc m (rate_of N (retained_count df_cohort))) as [q|] eqn:E.
    + apply assoc_In in E. destruct (Hbounds m q E) as [H1 H2].
      split; [now apply Qlt_le_weak | assumption].
    + split; [apply Qle_refl | discriminate].
Qed.

(** X19. The global retention table of [calculate_retention_tables] is
    absent exactly when the report has no row at relative month 0.  When
    present it has one rate per relative month of the report, in
    increasing order of month, each above 0, and the rate 1 at month 0. *)
Theorem global_retention_table (df : list ReportRow) :
  (Retention_Globale df = None
   <-> forall r, In r df -> r_month_relatif r <> 0)
  /\ (forall rate, Retention_Globale df = Some rate ->
        StronglySorted Z.lt (map fst rate)
        /\ (forall m, In m (map fst rate) <-> In m (map r_month_relatif df))
        /\ (forall m q, In (m, q) rate -> (0 < q)%Q)
        /\ (exists q, In (0, q) rate /\ (q == 1)%Q)).
Proof.
  unfold Retention_Globale. fold (customers_in df 0).
  set (N := nunique Z.eqb (customers_in df 0)).
  assert (HN : 0 < N <-> exists r, In r df /\ r_month_relatif r = 0).
  { split.
    - intros H.
      assert (Hne : customers_in df 0 <> [])
        by (intros E; unfold N in H; rewrite E in H;
            unfold nunique, unique, drop_duplicates in H; simpl in H; lia).
      destruct (customers_in df 0) as [|c l] eqn:E; [contradiction|].
      assert (Hc : In c (customers_in df 0)) by (rewrite E; now left).
      apply customers_in_In in Hc. destruct Hc as [r Hr]. exists r. tauto.
    - intros [r [Hr H0]].
      apply (nunique_pos Z.eqb Z.eqb_eq (r_customer_id r)).
      apply customers_in_In. exists r. tauto. }
  split.
  - destruct (0 <? N) eqn:E.
    + apply Z.ltb_lt in E. split; [discriminate|].
      intros H. exfalso. apply HN in E. destruct E as [r [Hr H0]].
      exact (H r Hr H0).
    + apply Z.ltb_ge in E. split; [|reflexivity]. intros _ r Hr H0.
      assert (0 < N) by (apply HN; exists r; tauto). lia.
  - intros rate. destruct (0 <? N) eqn:E; [|discriminate].
    apply Z.ltb_lt in E. intros H. injection H as <-.
    rewrite rate_of_months, retained_count_months.
    split; [apply groupby_index_sorted|].
    split; [intros m; apply groupby_index_In|].
    split.
    + intros m q H. apply rate_of_In in H. destruct H as [n [Hn ->]].
      apply retained_count_In in Hn. destruct Hn as [Hm ->].
      apply in_map_iff in Hm. destruct Hm as [r [Hm Hr]].
      apply Qdiv_inject_pos; [|assumption].
      apply (nunique_pos Z.eqb Z.eqb_eq (r_customer_id r)).
      apply customers_in_In. exists r. tauto.
    + exists (inject_Z N / inject_Z N)%Q.
      split; [|now apply Qdiv_inject_same].
      apply rate_of_In. exists N. split; [|reflexivity].
      apply retained_count_In. split; [|reflexivity].
      apply HN in E. destruct E as [r [Hr H0]]. rewrite <- H0.
      now apply in_map.
Qed.

Lemma rapport_duree_parcours_spec (df : list ReportRow) (r : ReportRow) :
  In r df ->
  (exists r', In r' df /\ r_id_parcours r' = r_id_parcours r
              /\ r_month_relatif r' = duree_parcours df r)
  /\ (forall r', In r' df -> r_id_parcours r' = r_id_parcours r ->
        r_month_relatif r' <= duree_parcours df r).
Proof.
  intros Hr. unfold duree_parcours.
  set (group := filter (fun x => id_eqb (r_id_parcours x) (r_id_parcours r))
                  df).
  assert (Hg : forall x, In x group
                         <-> In x df /\ r_id_parcours x = r_id_parcours r).
  { intros x. unfold group. rewrite filter_In, rapport_id_eqb_spec.
    reflexivity. }
  destruct (series_max (map r_month_relatif group)) as [m|] eqn:E.
  - apply series_max_spec in E. destruct E as [Hin Hle]. split.
    + apply in_map_iff in Hin. destruct Hin as [r' [Hm Hr']].
      apply Hg in Hr'. exists r'. tauto.
    + intros r' Hr' Hj. apply Hle. apply in_map. apply Hg. tauto.
  - exfalso. assert (Hin : In r group) by (apply Hg; tauto).
    destruct group; [contradiction | discriminate].
Qed.

Lemma rapport_duree_parcours_journey (df : list ReportRow)
    (r r' : ReportRow) :
  In r df -> In r' df -> r_id_parcours r = r_id_parcours r' ->
  duree_parcours df r = duree_parcours df r'.
Proof.
  intros Hr Hr' Hj.
  destruct (rapport_duree_parcours_spec df r Hr) as [[x [Hx [Hjx Hmx]]] Hle].
  destruct (rapport_duree_parcours_spec df r' Hr')
    as [[y [Hy [Hjy Hmy]]] Hle'].
  assert (r_month_relatif x <= duree_parcours df r')
    by (apply Hle'; [assumption | congruence]).
  assert (r_month_relatif y <= duree_parcours df r)
    by (apply Hle; [assumption | congruence]).
  lia.
Qed.

Lemma initial_of_In (rows : list ReportRow) (r : ReportRow) :
  In r (initial_of rows) -> In r rows /\ r_month_relatif r = 0.
Proof.
  unfold initial_of. intros H.
  apply (drop_duplicates_In id_eqb rapport_id_eqb_spec r_id_parcours) in H.
  apply filter_In in H. destruct H as [H H0]. apply Z.eqb_eq in H0. tauto.
Qed.

Lemma initial_of_NoDup (rows : list ReportRow) :
  NoDup (map r_id_parcours (initial_of rows)).
Proof.
  unfold initial_of, drop_duplicates.
  apply (first_seen_NoDup id_eqb rapport_id_eqb_spec).
Qed.

Lemma initial_of_keys (rows : list ReportRow) (r : ReportRow) :
  In r rows -> r_month_relatif r = 0 ->
  In (r_id_parcours r) (map r_id_parcours (initial_of rows)).
Proof.
  intros Hr H0. unfold initial_of.
  destruct (drop_duplicates_keys id_eqb rapport_id_eqb_spec r_id_parcours r
              (filter (fun x => r_month_relatif x =? 0) rows))
    as [y [Hy Hk]].
  - apply filter_In. split; [assumption | now apply Z.eqb_eq].
  - rewrite <- Hk. now apply in_map.
Qed.

(** X20. [characterize_cohorts] sorts the journeys of the report in three
    classes by their largest relative month: at most 2, from 3 to 12, and
    above 12.  Every row falls in one class, the rows of a journey in the
    same one, and the three lists of initial states together hold every
    journey that has a row at relative month 0 once, and no other. *)
Theorem cohort_profiles_split (df : list ReportRow) :
  (forall r, In r df
             <-> In r (df_early_churn df) \/ In r (df_standard df)
                 \/ In r (df_super_loyal df))
  /\ (forall r r', In r df -> In r' df ->
        r_id_parcours r = r_id_parcours r' ->
        (In r (df_early_churn df) <-> In r' (df_early_churn df))
        /\ (In r (df_standard df) <-> In r' (df_standard df))
        /\ (In r (df_super_loyal df) <-> In r' (df_super_loyal df)))
  /\ (forall r, In r (df_early_churn df) -> r_month_relatif r <= 2)
  /\ (forall r, In r (df_standard df) -> r_month_relatif r <= 12)
  /\ NoDup (map r_id_parcours
              (churn_initial df ++ standard_initial df ++ loyal_initial df))
  /\ (forall id,
        In id (map r_id_parcours
                 (churn_initial df ++ standard_initial df
                  ++ loyal_initial df))
        <-> exists r, In r df /\ r_id_parcours r = id
                      /\ r_month_relatif r = 0).
Proof.
  assert (He : forall r, In r (df_early_churn df)
                         <-> In r df /\ duree_parcours df r <= 2).
  { intros r. unfold df_early_churn. rewrite filter_In, Z.leb_le.
    reflexivity. }
  assert (Hs : forall r, In r (df_standard df)
                         <-> In r df /\ 2 < duree_parcours df r <= 12).
  { intros r. unfold df_standard.
    rewrite filter_In, andb_true_iff, Z.leb_le, Z.ltb_lt. reflexivity. }
  assert (Hl : forall r, In r (df_super_loyal df)
                         <-> In r df /\ 12 < duree_parcours df r).
  { intros r. unfold df_super_loyal. rewrite filter_In, Z.ltb_lt.
    reflexivity. }
  assert (Hself : forall r, In r df -> r_month_relatif r <= duree_parcours df r).
  { intros r Hr. destruct (rapport_duree_parcours_spec df r Hr) as [_ H].
    now apply H. }
  assert (Hdisj : forall A B : list ReportRow,
            (forall a b, In a A -> In b B ->
               r_id_parcours a <> r_id_parcours b) ->
            forall id, In id (map r_id_parcours (initial_of A)) ->
                       ~ In id (map r_id_parcours (initial_of B))).
  { intros A B H id Ha Hb.
    apply in_map_iff in Ha. destruct Ha as [a [Ea Ha]].
    apply in_map_iff in Hb. destruct Hb as [b [Eb Hb]].
    apply initial_of_In in Ha. apply initial_of_In in Hb.
    apply (H a b); [tauto | tauto | congruence]. }
  split; [|split; [|split; [|split; [|split]]]].
  - intros r. rewrite He, Hs, Hl. split; [|tauto].
    intros Hr.
    destruct (Z.le_gt_cases (duree_parcours df r) 2);
      [left; tauto|].
    destruct (Z.le_gt_cases (duree_parcours df r) 12);
      [right; left | right; right]; split; try assumption; lia.
  - intros r r' Hr Hr' Hj. rewrite !He, !Hs, !Hl.
    rewrite (rapport_duree_parcours_journey df r r' Hr Hr' Hj). tauto.
  - intros r Hr. apply He in Hr. destruct Hr as [Hr Hd].
    specialize (Hself r Hr). lia.
  - intros r Hr. apply Hs in Hr. destruct Hr as [Hr Hd].
    specialize (Hself r Hr). lia.
  - rewrite !map_app. unfold churn_initial, standard_initial, loyal_initial.
    apply NoDup_app; [apply initial_of_NoDup | |].
    + apply NoDup_app; [apply initial_of_NoDup | apply initial_of_NoDup|].
      apply Hdisj. intros a b Ha Hb E. apply Hs in Ha. apply Hl in Hb.
      destruct Ha as [Ha Hda], Hb as [Hb Hdb].
      rewrite (rapport_duree_parcours_journey df a b Ha Hb E) in Hda. lia.
    + intros id Ha Hb. apply in_app_or in Hb. destruct Hb as [Hb|Hb].
      * revert Hb.
        apply (Hdisj (df_early_churn df) (df_standard df)); [|exact Ha].
        intros a b Ha' Hb' E. apply He in Ha'. apply Hs in Hb'.
        destruct Ha' as [Ha' Hda], Hb' as [Hb' Hdb].
        rewrite (rapport_duree_parcours_journey df a b Ha' Hb' E) in Hda.
        lia.
      * revert Hb.
        apply (Hdisj (df_early_churn df) (df_super_loyal df)); [|exact Ha].
        intros a b Ha' Hb' E. apply He in Ha'. apply Hl in Hb'.
        destruct Ha' as [Ha' Hda], Hb' as [Hb' Hdb].
        rewrite (rapport_duree_parcours_journey df a b Ha' Hb' E) in Hda.
        lia.
  - intros id. rewrite !map_app, !in_app_iff.
    unfold churn_initial, standard_initial, loyal_initial. split.
    + intros H.
      assert (Hin : exists r rows, In r (initial_of rows)
                                   /\ r_id_parcours r = id
                                   /\ (forall x, In x rows -> In x df)).
      { destruct H as [H|[H|H]]; apply in_map_iff in H;
          destruct H as [r [E H]]; exists r; eexists;
          (split; [exact H|]); (split; [exact E|]); intros x Hx.
        - now apply He in Hx.
        - now apply Hs in Hx.
        - now apply Hl in Hx. }
      destruct Hin as [r [rows [Hr [E Hsub]]]].
      apply initial_of_In in Hr. exists r.
      split; [apply Hsub; tauto|]. tauto.
    + intros [r [Hr [E H0]]]. rewrite <- E.
      destruct (Z.le_gt_cases (duree_parcours df r) 2);
        [left; apply initial_of_keys; [apply He; tauto | assumption]|].
      destruct (Z.le_gt_cases (duree_parcours df r) 12);
        [right; left | right; right]; (apply initial_of_keys; [|assumption]);
        [apply Hs | apply Hl]; split; try assumption; lia.
Qed.

End RapportRetention.

(** ** dashboard_retention: the data of the charts *)

Section DashboardData.
Import Pandas Claude_retention_analysis dashboard_retention.

Lemma range_In (n : nat) (m : Z) :
  In m (range n) <-> 0 <= m < Z.of_nat n.
Proof.
  unfold range. rewrite in_map_iff. split.
  - intros [k [<- Hk]]. apply in_seq in Hk. lia.
  - intros H. exists (Z.to_nat m). split; [lia|]. apply in_seq. lia.
Qed.

Lemma chart_value_cohort (retention_df : list RetentionPoint) (c : Mois)
    (m : Z) (q : Q) :
  NoDup (map point_key retention_df) ->
  chart_value retention_df (Some c) m = Some q
  <-> exists p, In p retention_df /\ cohorte p = c /\ r_mois_relatif p = m
                /\ taux_retention p = q.
Proof.
  intros Hn. unfold chart_value.
  set (f := fun p => mois_eqb (cohorte p) c && (r_mois_relatif p =? m)).
  assert (Hf : forall p, In p (filter f retention_df)
                         <-> In p retention_df /\ cohorte p = c
                             /\ r_mois_relatif p = m).
  { intros p. unfold f.
    rewrite filter_In, andb_true_iff, mois_eqb_spec, Z.eqb_eq. reflexivity. }
  destruct (filter f retention_df) as [|p0 l] eqn:E.
  - split; [discriminate|]. intros [p [Hp [Hc [Hm _]]]].
    assert (H : In p []) by (apply Hf; tauto). contradiction.
  - assert (H0 : In p0 retention_df /\ cohorte p0 = c
                 /\ r_mois_relatif p0 = m)
      by (apply Hf; left; reflexivity).
    split.
    + intros H. injection H as <-. exists p0. tauto.
    + intros [p [Hp [Hc [Hm <-]]]]. f_equal. f_equal.
      apply (NoDup_map_eq point_key retention_df); try tauto.
      unfold point_key. destruct H0 as [_ [-> ->]]. congruence.
Qed.

(** X21. On a cohort table that [calculate_cohort_retention] returns,
    [prepare_retention_chart_data] gives one entry for each of the months
    0 to 25, in order.  For one cohort the entry of a month holds the rate
    of the cohort's row for that month, and nothing when the cohort has no
    such row; for all cohorts the entry of month 0 holds 100. *)
Theorem chart_data_of_cohort_table (monthly_df : list MonthlyRow)
    (retention_df : list RetentionPoint) :
  calculate_cohort_retention monthly_df = Ok retention_df ->
  (forall selected_cohort,
     map fst (prepare_retention_chart_data retention_df selected_cohort)
     = range 26)
  /\ (forall c m q,
        In (m, Some q) (prepare_retention_chart_data retention_df (Some c))
        <-> 0 <= m <= 25
            /\ exists p, In p retention_df /\ cohorte p = c
                         /\ r_mois_relatif p = m /\ taux_retention p = q)
  /\ (exists q,
        In (0, Some q) (prepare_retention_chart_data retention_df None)
        /\ (q == 100)%Q).
Proof.
  intros Hok.
  destruct (cohort_table_sorted monthly_df retention_df Hok) as [Hkeys _].
  assert (Hne : retention_df <> []).
  { unfold calculate_cohort_retention in Hok.
    destruct (retention_results monthly_df) as [|x l]; [discriminate|].
    injection Hok as <-. intros E.
    apply (proj1 (sort_values_nil point_leb (x :: l))) in E. discriminate. }
  assert (Hprep : forall sel,
            prepare_retention_chart_data retention_df sel
            = map (fun month => (month, chart_value retention_df sel month))
                (range 26)).
  { intros sel. unfold prepare_retention_chart_data.
    destruct retention_df; [contradiction | reflexivity]. }
  split; [|split].
  - intros sel. rewrite Hprep, map_map. apply map_id.
  - intros c m q. rewrite Hprep, in_map_iff. split.
    + intros [m' [E Hm]]. injection E as -> Hv.
      apply range_In in Hm. split; [lia|].
      now apply chart_value_cohort.
    + intros [Hm Hp]. exists m. split.
      * f_equal. now apply chart_value_cohort.
      * apply range_In. lia.
  - destruct retention_df as [|p0 l] eqn:Edf; [contradiction|].
    rewrite <- Edf in *.
    assert (Hp0 : In p0 retention_df) by (rewrite Edf; left; reflexivity).
    (* the cohort of any row has a row at month 0 *)
    assert (Hz : exists p, In p retention_df /\ r_mois_relatif p = 0).
    { pose proof Hp0 as H.
      apply (calculate_cohort_retention_In _ _ _ Hok) in H.
      apply retention_results_In in H. destruct H as [Hc H].
      apply cohort_points_In in H. cbv zeta in H. destruct H as [Hn _].
      set (data := cohort_rows monthly_df (cohorte p0)) in *.
      pose proof Hn as Hrow. apply customers_at_nonzero in Hrow.
      destruct Hrow as [r [Hr H0]].
      exists {| cohorte := cohorte p0; r_mois_relatif := 0;
                clients_initiaux := customers_at data 0;
                clients_actifs := customers_at data 0;
                taux_retention :=
                  round2 (inject_Z (customers_at data 0)
                          / inject_Z (customers_at data 0) * 100) |}.
      split; [|reflexivity].
      apply (calculate_cohort_retention_In _ _ _ Hok).
      apply retention_results_In. simpl. split; [assumption|].
      apply cohort_points_In. simpl. fold data.
      split; [assumption|]. split; [|reflexivity].
      rewrite <- H0. now apply in_map. }
    destruct Hz as [pz [Hpz Hz0]].
    set (group := filter (fun p => r_mois_relatif p =? 0) retention_df).
    destruct (series_mean_constant (map taux_retention group) 100)
      as [q [Eq Hq]].
    + intros E. apply map_eq_nil in E.
      assert (H : In pz group)
        by (apply filter_In; split; [assumption | now apply Z.eqb_eq]).
      rewrite E in H. contradiction.
    + intros q Hq. apply in_map_iff in Hq. destruct Hq as [p [<- Hp]].
      apply filter_In in Hp. destruct Hp as [Hp Hm]. apply Z.eqb_eq in Hm.
      destruct (cohort_table_point _ _ _ Hok Hp) as [_ [_ H]].
      now apply H.
    + exists (round2 q). split; [|now apply round2_100].
      rewrite Hprep. apply in_map_iff. exists 0.
      split; [|apply range_In; simpl; lia].
      f_equal. unfold chart_value. fold group. rewrite Eq. reflexivity.
Qed.

Lemma round_half_even_nonneg (x : Q) :
  (0 <= x)%Q -> 0 <= round_half_even x.
Proof.
  intros H. unfold round_half_even.
  assert (Hf : 0 <= Qfloor x).
  { change 0 with (Qfloor (inject_Z 0)). now apply Qfloor_resp_le. }
  destruct (x - inject_Z (Qfloor x) ?= 1 # 2)%Q;
    [destruct (Z.even (Qfloor x))|..]; lia.
Qed.

Lemma round1_nonneg (x : Q) : (0 <= x)%Q -> (0 <= round1 x)%Q.
Proof.
  intros H. unfold round1.
  assert (Hr : 0 <= round_half_even (x * 10)).
  { apply round_half_even_nonneg. lra. }
  apply Qle_shift_div_l; [reflexivity|]. rewrite Qmult_0_l.
  change 0%Q with (inject_Z 0). now rewrite <- Zle_Qle.
Qed.

Lemma round1_100 (x : Q) : (x == 100)%Q -> (round1 x == 100)%Q.
Proof.
  intros H. unfold round1.
  rewrite (round_half_even_inject (x * 10) 1000).
  - reflexivity.
  - rewrite H. reflexivity.
Qed.

Lemma Qmin_nonneg (a b : Q) : (0 <= a)%Q -> (0 <= b)%Q -> (0 <= Qmin a b)%Q.
Proof. intros Ha Hb. unfold Qmin. destruct (Qle_bool a b); assumption. Qed.

Lemma sum_Z_nonneg (l : list Z) :
  (forall x, In x l -> 0 <= x) -> 0 <= sum_Z l.
Proof.
  induction l as [|a l IH]; intros H; simpl; [lia|].
  assert (0 <= a) by (apply H; now left).
  assert (0 <= sum_Z l) by (apply IH; intros x Hx; apply H; now right).
  unfold sum_Z in *. lia.
Qed.

Lemma sum_Z_pos (l : list Z) :
  l <> [] -> (forall x, In x l -> 0 < x) -> 0 < sum_Z l.
Proof.
  intros Hne H. destruct l as [|a l]; [contradiction|]. simpl.
  assert (0 < a) by (apply H; now left).
  assert (0 <= sum_Z l)
    by (apply sum_Z_nonneg; intros x Hx;
        assert (0 < x) by (apply H; now right); lia).
  unfold sum_Z in *. lia.
Qed.

Lemma clean_In (segment_df : list SegmentPoint) (p : SegmentPoint) :
  In p (clean segment_df)
  <-> In p segment_df /\ 0 < s_clients_initiaux p
      /\ 0 <= s_clients_actifs p /\ s_mois_relatif p <= 25.
Proof.
  unfold clean, max_months.
  rewrite !filter_In, Z.leb_le, Z.leb_le, Z.ltb_lt. tauto.
Qed.

Lemma filter_cohorts_In (cohort_filter : string)
    (segment_df : list SegmentPoint) (p : SegmentPoint) :
  In p (filter_cohorts cohort_filter segment_df) -> In p segment_df.
Proof.
  unfold filter_cohorts.
  destruct (String.eqb cohort_filter "all"); [tauto|].
  destruct (forallb _ segment_df); [|tauto].
  intros H. apply filter_In in H. tauto.
Qed.

(** The cell of a segment value and a month on a cleaned frame. *)
Lemma cleaned_rate (segment_df : list SegmentPoint) (value : string)
    (month : Z) :
  let df := clean segment_df in
  (segment_month_rate df value month = None
   <-> rows_at df value 0 = [] \/ rows_at df value month = [])
  /\ (forall q, segment_month_rate df value month = Some q ->
        (0 <= q)%Q /\ (q <= 100)%Q /\ (month = 0 -> (q == 100)%Q)).
Proof.
  intros df. unfold segment_month_rate.
  assert (Hrows : forall m p, In p (rows_at df value m) ->
            0 < s_clients_initiaux p /\ 0 <= s_clients_actifs p).
  { intros m p Hp. unfold rows_at in Hp. apply filter_In in Hp.
    destruct Hp as [Hp _]. apply clean_In in Hp. tauto. }
  destruct (rows_at df value 0) as [|a l] eqn:E0;
    [split; [split; [intros _; left; reflexivity | reflexivity]
            | discriminate]|].
  destruct (rows_at df value month) as [|b l'] eqn:Em;
    [split; [split; [intros _; right; reflexivity | reflexivity]
            | discriminate]|].
  set (total_initial := sum_Z (map s_clients_initiaux (a :: l))).
  set (total_active := sum_Z (map s_clients_actifs (b :: l'))).
  assert (Hi : 0 < total_initial).
  { apply sum_Z_pos; [discriminate|]. intros x Hx.
    apply in_map_iff in Hx. destruct Hx as [p [<- Hp]].
    rewrite <- E0 in Hp. now apply (Hrows 0 p). }
  assert (Ha : 0 <= total_active).
  { apply sum_Z_nonneg. intros x Hx.
    apply in_map_iff in Hx. destruct Hx as [p [<- Hp]].
    rewrite <- Em in Hp. now apply (Hrows month p). }
  replace (0 <? total_initial) with true by (symmetry; now apply Z.ltb_lt).
  split.
  - split; [discriminate | intros [H|H]; discriminate].
  - intros q H. injection H as <-.
    assert (Hrate : (0 <= inject_Z total_active / inject_Z total_initial
                          * 100)%Q).
    { apply Qmult_le_0_compat; [|discriminate].
      apply Qle_shift_div_l.
      - change 0%Q with (inject_Z 0). now rewrite <- Zlt_Qlt.
      - rewrite Qmult_0_l. change 0%Q with (inject_Z 0).
        now rewrite <- Zle_Qle. }
    destruct (month =? 0) eqn:E.
    + split; [apply round1_nonneg; discriminate|].
      split; [apply round1_le_100; apply Qle_refl|].
      intros _. now apply round1_100.
    + split; [apply round1_nonneg, Qmin_nonneg; [assumption|discriminate]|].
      split; [apply round1_le_100, Qmin_le_r|].
      intros H0. apply Z.eqb_neq in E. contradiction.
Qed.

(** X22. [prepare_segment_evolution_data] returns either nothing or one
    entry for each of the months 0 to 25.  Its cells are computed on rows
    that passed the cleaning, where the initial total of a segment value is
    positive whenever it has a row at month 0: a cell is empty exactly when
    the value has no row at month 0 or none at the cell's month, a filled
    cell lies between 0 and 100, and a filled cell of month 0 is 100. *)
Theorem segment_evolution_cells (top3 : list SegmentPoint -> list string)
    (segment_df : list SegmentPoint) (cohort_filter : string) :
  let cleaned := clean (filter_cohorts cohort_filter segment_df) in
  let result := prepare_segment_evolution_data top3 segment_df cohort_filter in
  (forall p, In p cleaned ->
     In p segment_df /\ 0 < s_clients_initiaux p
     /\ 0 <= s_clients_actifs p /\ s_mois_relatif p <= 25)
  /\ (fst result = [] \/ map fst (fst result) = range 26)
  /\ (forall month cells value cell,
        In (month, cells) (fst result) -> In (value, cell) cells ->
        0 <= month <= 25
        /\ In value (snd result)
        /\ (cell = None
            <-> rows_at cleaned value 0 = []
                \/ rows_at cleaned value month = [])
        /\ (forall q, cell = Some q ->
              (0 <= q)%Q /\ (q <= 100)%Q /\ (month = 0 -> (q == 100)%Q))).
Proof.
  cbv zeta. unfold prepare_segment_evolution_data.
  set (cleaned := clean (filter_cohorts cohort_filter segment_df)).
  split; [|split].
  - intros p Hp. apply clean_In in Hp.
    destruct Hp as [Hp H]. apply filter_cohorts_In in Hp. tauto.
  - destruct (top3 cleaned) as [|v l]; [left; reflexivity | right].
    cbn [fst]. unfold evolution_data. rewrite map_map. cbn [fst].
    rewrite map_id. reflexivity.
  - intros month cells value cell Hrow Hcell.
    destruct (top3 cleaned) as [|v l] eqn:E; [destruct Hrow|].
    cbn [fst snd] in *. unfold evolution_data in Hrow.
    apply in_map_iff in Hrow. destruct Hrow as [m [Em Hm]].
    injection Em as -> <-. apply range_In in Hm.
    change (In (value, cell)
              (map (fun value =>
                      (value, segment_month_rate cleaned value month))
                 (v :: l))) in Hcell.
    apply in_map_iff in Hcell. destruct Hcell as [v' [Ev Hv]].
    injection Ev as -> <-.
    split; [unfold max_months in Hm; lia|]. split; [assumption|].
    apply (cleaned_rate (filter_cohorts cohort_filter segment_df)).
Qed.

End DashboardData.

(** ** analyse_abo_court: the report beside that of lancer_analyse *)

Section AboCourtReport.
Import Pandas Gemini lancer_analyse.

Lemma abo_court_expand_row (df_sorted : list Parcours) (x : Parcours) :
  analyse_abo_court_report.expand_row df_sorted x = report_rows df_sorted x.
Proof.
  unfold analyse_abo_court_report.expand_row, report_rows.
  destruct (order_date (row x)); [|reflexivity].
  destruct (ECHEANCE_date (row x)); [|reflexivity].
  destruct (journey_start_date_of df_sorted (p_id_parcours x)); reflexivity.
Qed.

(** X23. [create_monthly_report] of [analyse_abo_court] skips the
    subscriptions that lack a date where [lancer_analyse] raises: its rows
    are the monthly rows of the subscriptions that have both dates, and
    whenever [lancer_analyse] returns a report on a frame,
    [analyse_abo_court] returns the same report on it. *)
Theorem abo_court_report_agrees (df_sub : list Abonnement) :
  (forall report,
     lancer_analyse.create_monthly_report df_sub = Ok report ->
     analyse_abo_court_report.create_monthly_report df_sub = report)
  /\ (forall r,
        In r (analyse_abo_court_report.create_monthly_report df_sub)
        <-> exists x o e start ts,
              In x (journeys df_sub)
              /\ order_date (row x) = Some o
              /\ ECHEANCE_date (row x) = Some e
              /\ journey_start_date_of (journeys df_sub) (p_id_parcours x)
                 = Some start
              /\ In ts (date_range_MS (month_start o) (month_start e))
              /\ r = {| parcours := x;
                        journey_start_date := start;
                        month_ := ts;
                        month_relatif := months_from start ts;
                        Montant := montant_mensuel (row x) |}).
Proof.
  assert (E : analyse_abo_court_report.create_monthly_report df_sub
              = flat_map (report_rows (journeys df_sub)) (journeys df_sub)).
  { unfold analyse_abo_court_report.create_monthly_report.
    apply flat_map_ext_In. intros x _. apply abo_court_expand_row. }
  split.
  - intros report H.
    destruct (create_monthly_report_cases df_sub) as [[_ H']|[_ H']];
      rewrite H' in H; [|discriminate].
    injection H as <-. exact E.
  - intros r. rewrite E, in_flat_map. split.
    + intros [x [Hx Hr]]. apply report_rows_In in Hr.
      destruct Hr as [o [e [s [ts [Ho [He [Hs [Hts Hrow]]]]]]]].
      exists x, o, e, s, ts. repeat split; assumption.
    + intros [x [o [e [s [ts [Hx [Ho [He [Hs [Hts Hrow]]]]]]]]]].
      exists x. split; [assumption|]. apply report_rows_In.
      exists o, e, s, ts. repeat split; assumption.
Qed.

End AboCourtReport.

(** ** The repair of the dates in lancer_analyse and in rapport_final *)

Section RepairAgreement.
Import Pandas Gemini.
Local Arguments add_days : simpl never.

(** The start date cannot be recovered. *)
Definition start_missing (a : Abonnement) : Prop :=
  order_date a = None
  /\ to_datetime_ymd (order_date_Annee a) (order_date_Mois a)
       (order_date_Jour_du_mois a) = None.

Lemma repair_agree (a : Abonnement) :
  lancer_analyse.abo (lancer_analyse.repair a) = rapport_final.repair a.
Proof.
  destruct a as [cid sid o e oa om oj ea em ej f rev].
  unfold lancer_analyse.repair, rapport_final.repair,
    lancer_analyse.phase_parse.
  unfold lancer_analyse.phase_reconstruct_order,
    rapport_final.reconstruct_order.
  cbn [lancer_analyse.order_date_dt lancer_analyse.abo order_date
       order_date_Annee order_date_Mois order_date_Jour_du_mois isna].
  destruct o as [o|]; cbn [isna];
    unfold lancer_analyse.phase_reconstruct_echeance,
      rapport_final.reconstruct_echeance, rapport_final.set_order_date;
    cbn [lancer_analyse.ECHEANCE_date_dt lancer_analyse.abo ECHEANCE_date
         ECHEANCE_annee ECHEANCE_mois ECHEANCE_jour isna
         lancer_analyse.order_date_dt customer_id subscription_id
         order_date order_date_Annee order_date_Mois
         order_date_Jour_du_mois frequence consolidated_revenues_ht_euro];
    destruct e as [e|]; cbn [isna];
    unfold lancer_analyse.phase_impute, rapport_final.impute,
      lancer_analyse.condition_fix_echeance,
      rapport_final.condition_fix_echeance,
      rapport_final.set_ECHEANCE_date, lancer_analyse.phase_store;
    cbn [lancer_analyse.ECHEANCE_date_dt lancer_analyse.abo ECHEANCE_date
         ECHEANCE_annee ECHEANCE_mois ECHEANCE_jour isna notna negb
         lancer_analyse.order_date_dt customer_id subscription_id
         order_date order_date_Annee order_date_Mois
         order_date_Jour_du_mois frequence consolidated_revenues_ht_euro
         lancer_analyse.methode_reparation_date];
    repeat match goal with
           | |- context [to_datetime_ymd ?y ?m ?d] =>
               destruct (to_datetime_ymd y m d)
           | |- context [str_lower_contains ?p ?c] =>
               destruct (str_lower_contains p c)
           end;
    cbn [isna notna negb andb lancer_analyse.ECHEANCE_date_dt
         lancer_analyse.abo ECHEANCE_date ECHEANCE_annee ECHEANCE_mois
         ECHEANCE_jour lancer_analyse.order_date_dt customer_id
         subscription_id order_date order_date_Annee order_date_Mois
         order_date_Jour_du_mois frequence consolidated_revenues_ht_euro
         lancer_analyse.methode_reparation_date];
    reflexivity.
Qed.

Lemma usable_agree (a : Abonnement) :
  lancer_analyse.usable (lancer_analyse.repair a)
  = rapport_final.usable (rapport_final.repair a).
Proof.
  unfold lancer_analyse.usable, rapport_final.usable.
  now rewrite repair_agree.
Qed.

(** X24. [lancer_analyse] and [rapport_final] repair a subscription to
    the same dates and keep the same subscriptions, in the same order: the
    frame of [rapport_final] is that of [lancer_analyse] without the column
    of the repair method. *)
Theorem repairs_agree (df_grouped : list Abonnement) :
  map lancer_analyse.abo (lancer_analyse.group_and_repair_data df_grouped)
  = rapport_final.group_and_repair_data df_grouped.
Proof.
  unfold lancer_analyse.group_and_repair_data,
    rapport_final.group_and_repair_data.
  induction df_grouped as [|a l IH]; [reflexivity|].
  cbn [map filter]. rewrite usable_agree.
  destruct (rapport_final.usable (rapport_final.repair a)).
  - cbn [map]. rewrite repair_agree. f_equal. exact IH.
  - exact IH.
Qed.

Lemma rapport_repair_dates (a : Abonnement) :
  order_date (rapport_final.repair a)
  = match order_date a with
    | Some o => Some o
    | None => to_datetime_ymd (order_date_Annee a) (order_date_Mois a)
                (order_date_Jour_du_mois a)
    end
  /\ ECHEANCE_date (rapport_final.repair a)
     = match ECHEANCE_date a with
       | Some e => Some e
       | None =>
           match to_datetime_ymd (ECHEANCE_annee a) (ECHEANCE_mois a)
                   (ECHEANCE_jour a) with
           | Some e => Some e
           | None =>
               if str_lower_contains "monthly" (frequence a)
               then match order_date (rapport_final.repair a) with
                    | Some o => Some (add_days o 30)
                    | None => None
                    end
               else None
           end
       end.
Proof.
  destruct a as [cid sid o e oa om oj ea em ej f rev].
  unfold rapport_final.repair, rapport_final.reconstruct_order.
  cbn [order_date order_date_Annee order_date_Mois order_date_Jour_du_mois
       ECHEANCE_date ECHEANCE_annee ECHEANCE_mois ECHEANCE_jour frequence
       isna].
  destruct o as [o|]; cbn [isna];
    unfold rapport_final.reconstruct_echeance, rapport_final.set_order_date;
    cbn [order_date order_date_Annee order_date_Mois
         order_date_Jour_du_mois ECHEANCE_date ECHEANCE_annee ECHEANCE_mois
         ECHEANCE_jour frequence isna customer_id subscription_id
         consolidated_revenues_ht_euro];
    destruct e as [e|]; cbn [isna];
    unfold rapport_final.impute, rapport_final.condition_fix_echeance,
      rapport_final.set_ECHEANCE_date;
    cbn [order_date order_date_Annee order_date_Mois
         order_date_Jour_du_mois ECHEANCE_date ECHEANCE_annee ECHEANCE_mois
         ECHEANCE_jour frequence isna notna negb customer_id
         subscription_id consolidated_revenues_ht_euro];
    repeat match goal with
           | |- context [to_datetime_ymd ?y ?m ?d] =>
               destruct (to_datetime_ymd y m d)
           | |- context [str_lower_contains ?p ?c] =>
               destruct (str_lower_contains p c)
           end;
    cbn [order_date order_date_Annee order_date_Mois
         order_date_Jour_du_mois ECHEANCE_date ECHEANCE_annee ECHEANCE_mois
         ECHEANCE_jour frequence isna notna negb andb customer_id
         subscription_id consolidated_revenues_ht_euro];
    split; reflexivity.
Qed.

(** X25. The repair drops a subscription exactly when its start date
    cannot be recovered, or its due date cannot be recovered and its
    frequency does not contain "monthly"; every subscription it keeps has
    both dates. *)
Theorem repair_drops_iff (a : Abonnement) :
  (lancer_analyse.usable (lancer_analyse.repair a) = false
   <-> start_missing a
       \/ (due_missing a
           /\ str_lower_contains "monthly" (frequence a) = false))
  /\ (forall df_grouped r,
        In r (lancer_analyse.group_and_repair_data df_grouped) ->
        exists o e,
          order_date (lancer_analyse.abo r) = Some o
          /\ ECHEANCE_date (lancer_analyse.abo r) = Some e).
Proof.
  split.
  - rewrite usable_agree. unfold rapport_final.usable.
    destruct (rapport_repair_dates a) as [Ho He]. rewrite He, Ho.
    unfold start_missing, due_missing, notna, isna.
    destruct (order_date a) as [o|];
      destruct (ECHEANCE_date a) as [e|];
      destruct (to_datetime_ymd (order_date_Annee a) (order_date_Mois a)
                  (order_date_Jour_du_mois a)) as [o'|];
      destruct (to_datetime_ymd (ECHEANCE_annee a) (ECHEANCE_mois a)
                  (ECHEANCE_jour a)) as [e'|];
      destruct (str_lower_contains "monthly" (frequence a));
      cbn; split; intros H;
      try discriminate; try reflexivity;
      try (left; split; reflexivity);
      try (right; split; [split|]; reflexivity);
      try (destruct H as [[H1 H2]|[[H1 H2] H3]]; discriminate).
  - intros df_grouped r Hr. unfold lancer_analyse.group_and_repair_data in Hr.
    apply filter_In in Hr. destruct Hr as [_ Hu].
    unfold lancer_analyse.usable, notna, isna in Hu.
    destruct (order_date (lancer_analyse.abo r)) as [o|]; [|discriminate].
    destruct (ECHEANCE_date (lancer_analyse.abo r)) as [e|];
      [|discriminate].
    exists o, e. split; reflexivity.
Qed.

End RepairAgreement.

(** ** Further facts on the cohort table and on the report of
    lancer_analyse *)

Section NoEmptyRow.
Import Pandas Claude_retention_analysis.

Lemma round2_nonneg (x : Q) : (0 <= x)%Q -> (0 <= round2 x)%Q.
Proof.
  intros H. unfold round2.
  assert (Hr : 0 <= round_half_even (x * 100)).
  { apply round_half_even_nonneg. lra. }
  apply Qle_shift_div_l; [reflexivity|]. rewrite Qmult_0_l.
  change 0%Q with (inject_Z 0). now rewrite <- Zle_Qle.
Qed.

(** X26. The cohort table has no row without customers: every row counts
    at least one initial and at least one active customer, so a month in
    which no customer of the cohort is active has no row at all rather than
    a row with the rate 0; the rate of a row is never negative, and the
    rows of one cohort carry the same initial population. *)
Theorem cohort_table_no_empty_row (monthly_df : list MonthlyRow)
    (points : list RetentionPoint) (p : RetentionPoint) :
  calculate_cohort_retention monthly_df = Ok points ->
  In p points ->
  1 <= clients_initiaux p
  /\ 1 <= clients_actifs p
  /\ (0 <= taux_retention p)%Q
  /\ (forall p', In p' points -> cohorte p' = cohorte p ->
        clients_initiaux p' = clients_initiaux p).
Proof.
  intros Hok Hp.
  assert (Hpt : forall x, In x points ->
            clients_initiaux x
            = customers_at (cohort_rows monthly_df (cohorte x)) 0).
  { intros x Hx. apply (calculate_cohort_retention_In _ _ _ Hok) in Hx.
    apply retention_results_In in Hx. destruct Hx as [_ Hx].
    apply cohort_points_In in Hx. cbv zeta in Hx.
    destruct Hx as [_ [_ Hx]]. rewrite Hx. reflexivity. }
  pose proof (Hpt p Hp) as Hinit.
  apply (calculate_cohort_retention_In _ _ _ Hok) in Hp.
  apply retention_results_In in Hp. destruct Hp as [_ Hp].
  apply cohort_points_In in Hp. cbv zeta in Hp.
  destruct Hp as [Hn [Hm Hrec]].
  set (data := cohort_rows monthly_df (cohorte p)) in *.
  assert (Ha : customers_at data (r_mois_relatif p) <> 0).
  { apply customers_at_nonzero. apply in_map_iff in Hm.
    destruct Hm as [r [Hrm Hr]]. exists r. split; assumption. }
  pose proof (customers_at_nonneg data 0).
  pose proof (customers_at_nonneg data (r_mois_relatif p)).
  split; [rewrite Hinit; lia|].
  split; [rewrite Hrec; simpl; lia|].
  split.
  - rewrite Hrec. simpl. apply round2_nonneg.
    apply Qmult_le_0_compat; [|discriminate].
    apply Qle_shift_div_l.
    + change 0%Q with (inject_Z 0). rewrite <- Zlt_Qlt. lia.
    + rewrite Qmult_0_l. change 0%Q with (inject_Z 0).
      now rewrite <- Zle_Qle.
  - intros p' Hp' Hc. rewrite (Hpt p' Hp'), Hinit, Hc. reflexivity.
Qed.

End NoEmptyRow.

Section LancerJourneys.
Import Pandas Gemini lancer_analyse.

(** The number of calendar months a subscription covers. *)
Definition months_covered (a : Abonnement) : Z :=
  match order_date a, ECHEANCE_date a with
  | Some o, Some e => Z.max 0 (months_from o e + 1)
  | _, _ => 0
  end.

Lemma series_sum_perm (l l' : list Z) :
  Permutation l l' -> series_sum l = series_sum l'.
Proof.
  unfold series_sum. induction 1; simpl; lia.
Qed.

Lemma flat_map_length_sum {A B} (f : A -> list B) (l : list A) :
  Z.of_nat (List.length (flat_map f l))
  = series_sum (map (fun x => Z.of_nat (List.length (f x))) l).
Proof.
  induction l as [|a l IH]; [reflexivity|].
  simpl. rewrite length_app, Nat2Z.inj_add, IH. reflexivity.
Qed.

Lemma report_rows_length (df_sorted : list Parcours) (x : Parcours) :
  In x df_sorted ->
  Z.of_nat (List.length (report_rows df_sorted x)) = months_covered (row x).
Proof.
  intros Hx. unfold report_rows, months_covered.
  destruct (order_date (row x)) as [o|] eqn:Ho; [|reflexivity].
  destruct (ECHEANCE_date (row x)) as [e|]; [|reflexivity].
  destruct (journey_start_date_present df_sorted x o Hx Ho) as [js Hjs].
  rewrite Hjs, length_map.
  change (months_between o e)
    with (iter_months (month_start o) (Z.to_nat (months_from o e + 1))).
  rewrite iter_months_length. lia.
Qed.

(** X27. The report of [lancer_analyse] does not deduplicate: when it
    returns, its number of rows is the sum, over the subscriptions, of the
    calendar months each covers, so a month covered by two subscriptions
    of a customer has two rows. *)
Theorem lancer_report_length (df_sub : list Abonnement)
    (report : list MonthlyRow) :
  create_monthly_report df_sub = Ok report ->
  Z.of_nat (List.length report) = series_sum (map months_covered df_sub).
Proof.
  intros Hok.
  destruct (create_monthly_report_cases df_sub) as [[_ H]|[_ H]];
    rewrite H in Hok; [|discriminate].
  injection Hok as <-. rewrite flat_map_length_sum.
  rewrite (series_sum_perm (map months_covered df_sub)
             (map months_covered (map row (journeys df_sub)))).
  - rewrite map_map. f_equal. apply map_ext_in.
    intros x Hx. now apply report_rows_length.
  - apply Permutation_map. rewrite journeys_rows. apply sort_values_perm.
Qed.


End LancerJourneys.

(** ** The claims on sample frames *)

Section Samples.
Import Pandas Examples.

(** C2, where the code departs from it.  For a subscription that
    starts on 15/01/2023 and falls due on 10/03/2023, pipeline_JA returns
    two rows, 02/2023 and 03/2023 with relative months 1 and 2: the range of
    month starts is taken from the start date itself, so the start month is
    lost.  The main script returns the three rows 01/2023 to 03/2023 with
    relative months 0, 1, 2. *)
Theorem pipeline_JA_drops_start_month :
  map (fun r => (pipeline_JA.month_ r, pipeline_JA.month_relatif r))
    (pipeline_JA.create_monthly_report [abo_mid_month])
  = [(mkTs 2023 2 1, 1); (mkTs 2023 3 1, 2)]
  /\ match Claude_retention_analysis.expand_transaction 1 (mkTs 2023 1 1)
             tx_mid_month with
     | Ok rows =>
         map (fun r => (Claude_retention_analysis.mois r,
                        Claude_retention_analysis.mois_relatif r)) rows
         = [((1, 2023), 0); ((2, 2023), 1); ((3, 2023), 2)]
     | Err _ => False
     end.
Proof. split; vm_compute; reflexivity. Qed.

(** The 40-day gap of the specification: in lancer_analyse it starts a new
    journey under a monthly frequency, in any letter case, and none under an
    annual one. *)
Example gap40_lancer_analyse :
  Gemini.duree_trou_jours (df_gap40 "monthly") = [None; Some 40]
  /\ lancer_analyse.nouveau_parcours
       (sort_values Gemini.sort_key_leb (df_gap40 "Monthly"))
     = [true; true]
  /\ lancer_analyse.nouveau_parcours
       (sort_values Gemini.sort_key_leb (df_gap40 "annual"))
     = [true; false].
Proof. repeat split; vm_compute; reflexivity. Qed.

(** *** C1 *)

Lemma retention_at_month_zero_witness :
  Claude_retention_analysis.calculate_cohort_retention monthly_small
  = Ok points_small
  /\ forall p, In p points_small ->
       Claude_retention_analysis.r_mois_relatif p = 0 ->
       Claude_retention_analysis.clients_actifs p
       = Claude_retention_analysis.clients_initiaux p
       /\ (Claude_retention_analysis.taux_retention p == 100)%Q.
Proof.
  split; [reflexivity|].
  apply (retention_at_month_zero monthly_small points_small).
  reflexivity.
Defined.

(** *** C3 *)

Lemma new_journey_threshold_counterexample :
  Gemini.duree_trou_jours
    (sort_values Gemini.sort_key_leb (df_gap40 "monthly"))
  = [None; Some 40]
  /\ map Gemini.frequence
       (sort_values Gemini.sort_key_leb (df_gap40 "monthly"))
     = [Some "monthly"%string; Some "monthly"%string]
  /\ pipeline_JA.nouveau_parcours
       (sort_values Gemini.sort_key_leb (df_gap40 "monthly"))
     = [true; false]
  /\ pipeline_JA.parcours_numero
       (sort_values Gemini.sort_key_leb (df_gap40 "monthly"))
     = [1; 1].
Proof. repeat split; vm_compute; reflexivity. Qed.

Lemma new_journey_threshold_witness :
  (exists flag,
      nth_error (lancer_analyse.nouveau_parcours (df_gap40 "monthly")) 1
      = Some flag
      /\ (flag = true <->
          dt_days (Gemini.order_date (gap40_second "monthly"))
            (Gemini.ECHEANCE_date (gap40_first "monthly")) = None
          \/ exists g,
               dt_days (Gemini.order_date (gap40_second "monthly"))
                 (Gemini.ECHEANCE_date (gap40_first "monthly")) = Some g
               /\ (if str_lower_contains "monthly"
                         (Gemini.frequence (gap40_second "monthly"))
                   then 35 else 90) <= g))
  /\ (exists flag,
        nth_error (pipeline_JA.nouveau_parcours (df_gap40 "monthly")) 1
        = Some flag
        /\ (flag = true <->
            dt_days (Gemini.order_date (gap40_second "monthly"))
              (Gemini.ECHEANCE_date (gap40_first "monthly")) = None
            \/ exists g,
                 dt_days (Gemini.order_date (gap40_second "monthly"))
                   (Gemini.ECHEANCE_date (gap40_first "monthly")) = Some g
                 /\ 90 <= g)).
Proof.
  apply (new_journey_threshold (df_gap40 "monthly") 0 1
           (gap40_first "monthly") (gap40_second "monthly")).
  - reflexivity.
  - reflexivity.
  - apply Nat.lt_0_1.
  - reflexivity.
  - intros m z [Hm1 Hm2]. exfalso.
    apply (Nat.lt_irrefl m), (Nat.lt_le_trans _ 1); [exact Hm2|].
    exact Hm1.
Defined.

(** *** C4 *)

(** More active customers than initial ones: in a cohort, when customers
    open with a due date before their start month; in a segment of a
    cohort, when customers enter the segment after their month 0. *)
Lemma active_within_initial_counterexample :
  (Claude_retention_analysis.create_monthly_retention_table df_reversed
   = Ok monthly_reversed
   /\ exists points p,
        Claude_retention_analysis.calculate_cohort_retention
          monthly_reversed = Ok points
        /\ In p points
        /\ 0 < Claude_retention_analysis.r_mois_relatif p
        /\ Claude_retention_analysis.clients_initiaux p
           < Claude_retention_analysis.clients_actifs p
        /\ (100 < Claude_retention_analysis.taux_retention p)%Q)
  /\ (Claude_retention_analysis.create_monthly_retention_table df_segments
      = Ok monthly_segments
      /\ (forall t, In t df_segments ->
            ts_ltb (Claude_retention_analysis.order_date t)
              (Claude_retention_analysis.echeance_date t) = true)
      /\ exists points p,
           In ("frequence"%string, points)
             (Claude_retention_analysis.calculate_segmented_retention
                monthly_segments)
           /\ In p points
           /\ 0 < Claude_retention_analysis.s_mois_relatif p
           /\ Claude_retention_analysis.s_clients_initiaux p
              < Claude_retention_analysis.s_clients_actifs p
           /\ (100 < Claude_retention_analysis.s_taux_retention p)%Q).
Proof.
  split.
  - split; [reflexivity|].
    eexists. eexists. split; [vm_compute; reflexivity|].
    split; [right; left; reflexivity|]. repeat split.
  - split; [reflexivity|]. split.
    + intros t Ht. vm_compute in Ht.
      repeat (destruct Ht as [<- | Ht]; [reflexivity|]). contradiction.
    + eexists. eexists. split; [vm_compute; left; reflexivity|].
      split; [right; left; reflexivity|]. repeat split.
Qed.

Lemma active_within_initial_witness :
  Claude_retention_analysis.clients_actifs point_small_1
  <= Claude_retention_analysis.clients_initiaux point_small_1
  /\ (Claude_retention_analysis.taux_retention point_small_1 <= 100)%Q.
Proof.
  apply (proj1 (active_within_initial monthly_small) points_small
           point_small_1);
    [reflexivity | right; left; reflexivity |].
  intros r Hr Hr1. vm_compute in Hr.
  destruct Hr as [<- | [<- | [<- | [<- | []]]]];
    try discriminate Hr1.
  eexists. split; [left; reflexivity|]. split; reflexivity.
Defined.

(** *** C5 *)

Lemma valid_df_overlap : all_valid df_overlap.
Proof.
  intros t Ht. vm_compute in Ht.
  destruct Ht as [<- | [<- | []]]; repeat split; vm_compute; discriminate.
Defined.

Lemma deduplication_keeps_first_witness :
  NoDup (map Claude_retention_analysis.customer_mois monthly_overlap)
  /\ drop_duplicates Claude_retention_analysis.customer_mois_eqb
       Claude_retention_analysis.customer_mois monthly_overlap
     = monthly_overlap.
Proof.
  destruct (deduplication_keeps_first df_overlap monthly_overlap
              valid_df_overlap eq_refl) as [H1 [_ [_ H4]]].
  split; [exact H1 | exact H4].
Defined.

(** *** C6 *)

Lemma due_before_start_counterexample :
  (ts_ltb (Claude_retention_analysis.echeance_date tx_same_month)
     (Claude_retention_analysis.order_date tx_same_month) = true
   /\ exists r,
        Claude_retention_analysis.expand_transaction 1 (mkTs 2023 1 1)
          tx_same_month = Ok [r])
  /\ (Gemini.order_date abo_earlier_month = Some (mkTs 2023 3 15)
      /\ Gemini.ECHEANCE_date abo_earlier_month = Some (mkTs 2023 1 10)
      /\ exists r, pipeline_JA.expand_row abo_earlier_month 1 = [r]).
Proof.
  split; (split; [reflexivity|]).
  - eexists. vm_compute. reflexivity.
  - split; [reflexivity|]. eexists. vm_compute. reflexivity.
Qed.

Lemma due_before_start_witness :
  Claude_retention_analysis.expand_transaction 1 (mkTs 2023 1 1)
    tx_earlier_month = Ok []
  /\ exists r,
       pipeline_JA.expand_row abo_earlier_month 1 = [r]
       /\ pipeline_JA.month_ r = mkTs 2023 3 1
       /\ pipeline_JA.month_relatif r = 0.
Proof.
  assert (Hv : valid_transaction tx_earlier_month)
    by (repeat split; vm_compute; discriminate).
  destruct (due_before_start 1 (mkTs 2023 1 1) tx_earlier_month Hv eq_refl)
    as [H1 [_ H3]].
  split.
  - apply H1. reflexivity.
  - apply (H3 abo_earlier_month 1); reflexivity.
Defined.

(** *** C8 *)

(** In rapport_final a record whose due date was imputed comes out equal
    to one that had it from the start; lancer_analyse tells them apart. *)
Lemma due_date_imputed_counterexample :
  Gemini.ECHEANCE_date abo_missing = None
  /\ Gemini.ECHEANCE_date abo_parsed = Some (mkTs 2023 1 31)
  /\ rapport_final.group_and_repair_data [abo_missing]
     = rapport_final.group_and_repair_data [abo_parsed]
  /\ map lancer_analyse.methode_reparation_date
       (lancer_analyse.group_and_repair_data [abo_missing])
     = [lancer_analyse.Imputee]
  /\ map lancer_analyse.methode_reparation_date
       (lancer_analyse.group_and_repair_data [abo_parsed])
     = [lancer_analyse.Originale].
Proof. repeat split; vm_compute; reflexivity. Qed.

Lemma due_date_imputed_witness :
  In (lancer_analyse.repair abo_missing)
    (lancer_analyse.group_and_repair_data [abo_missing])
  /\ Gemini.order_date (lancer_analyse.abo (lancer_analyse.repair abo_missing))
     = Some (mkTs 2023 1 1)
  /\ Gemini.ECHEANCE_date
       (lancer_analyse.abo (lancer_analyse.repair abo_missing))
     = Some (add_days (mkTs 2023 1 1) 30)
  /\ lancer_analyse.methode_reparation_date
       (lancer_analyse.repair abo_missing) = lancer_analyse.Imputee.
Proof.
  apply (due_date_imputed [abo_missing] abo_missing (mkTs 2023 1 1)).
  - left. reflexivity.
  - split; reflexivity.
  - reflexivity.
  - left. reflexivity.
Defined.

(** The imputed day: 30 days after 01/01/2023. *)
Example imputed_day :
  add_days (mkTs 2023 1 1) 30 = mkTs 2023 1 31
  /\ add_days (mkTs 2024 2 10) 30 = mkTs 2024 3 11
  /\ days_between (add_days (mkTs 2023 12 15) 30) (mkTs 2023 12 15) = 30.
Proof. repeat split; vm_compute; reflexivity. Qed.

(** *** C9 *)

(** Journeys are blocks of transactions, not of time.  The first
    subscription runs from 01/01/2023 to 31/12/2024; the third starts on
    01/06/2023, 111 days after the second fell due, and opens a second
    journey of the same customer.  That journey starts and ends while the
    first subscription of the first journey still runs: the two journeys
    overlap in time. *)
Example journeys_may_overlap_in_time :
  map (fun x => (Gemini.subscription_id (lancer_analyse.row x),
                 lancer_analyse.p_id_parcours x))
    (lancer_analyse.journeys df_inside)
  = [(11, (1, 1)); (12, (1, 1)); (13, (1, 2))]
  /\ map (fun x => (Gemini.order_date (lancer_analyse.row x),
                    Gemini.ECHEANCE_date (lancer_analyse.row x)))
       (lancer_analyse.journeys df_inside)
     = [(Some (mkTs 2023 1 1), Some (mkTs 2024 12 31));
        (Some (mkTs 2023 2 1), Some (mkTs 2023 2 10));
        (Some (mkTs 2023 6 1), Some (mkTs 2023 6 30))]
  /\ ts_ltb (mkTs 2023 6 1) (mkTs 2024 12 31) = true
  /\ ts_ltb (mkTs 2023 6 30) (mkTs 2024 12 31) = true
  /\ exists x y s e s' e',
       In x (lancer_analyse.journeys df_inside)
       /\ In y (lancer_analyse.journeys df_inside)
       /\ Gemini.customer_id (lancer_analyse.row x)
          = Gemini.customer_id (lancer_analyse.row y)
       /\ lancer_analyse.p_id_parcours x <> lancer_analyse.p_id_parcours y
       /\ Gemini.order_date (lancer_analyse.row x) = Some s
       /\ Gemini.ECHEANCE_date (lancer_analyse.row x) = Some e
       /\ Gemini.order_date (lancer_analyse.row y) = Some s'
       /\ Gemini.ECHEANCE_date (lancer_analyse.row y) = Some e'
       /\ ts_ltb s s' = true /\ ts_ltb s' e' = true /\ ts_ltb e' e = true.
Proof.
  split; [vm_compute; reflexivity|]. split; [vm_compute; reflexivity|].
  split; [vm_compute; reflexivity|]. split; [vm_compute; reflexivity|].
  exists (lancer_analyse.mkParcours
            (abo 1 11 (Some (mkTs 2023 1 1)) (Some (mkTs 2024 12 31))
               "annual") true (1, 1)),
         (lancer_analyse.mkParcours
            (abo 1 13 (Some (mkTs 2023 6 1)) (Some (mkTs 2023 6 30))
               "annual") true (1, 2)),
         (mkTs 2023 1 1), (mkTs 2024 12 31), (mkTs 2023 6 1),
         (mkTs 2023 6 30).
  split; [vm_compute; left; reflexivity|].
  split; [vm_compute; right; right; left; reflexivity|].
  split; [reflexivity|]. split; [vm_compute; discriminate|].
  repeat split; vm_compute; reflexivity.
Qed.

(** *** C10 *)

Lemma valid_df_gap : all_valid df_gap.
Proof.
  intros t Ht. vm_compute in Ht.
  destruct Ht as [<- | [<- | []]]; repeat split; vm_compute; discriminate.
Defined.

Lemma single_journey_per_customer_witness :
  exists js,
    journey_start df_gap 1 = Some js
    /\ (exists t, In t df_gap
                  /\ Claude_retention_analysis.customer_id t = 1
                  /\ Claude_retention_analysis.order_date t = js)
    /\ (forall t, In t df_gap ->
          Claude_retention_analysis.customer_id t = 1 ->
          ts_leb js (Claude_retention_analysis.order_date t) = true)
    /\ (1, 2023) = strftime_mY js
    /\ 12 = (2024 - year js) * 12 + (1 - month js)
    /\ 0 <= 12
    /\ (12 = 0 <-> (1, 2024) = (1, 2023))
    /\ (forall r', In r' monthly_gap ->
          Claude_retention_analysis.m_customer_id r' = 1 ->
          Claude_retention_analysis.date_debut_parcours r' = (1, 2023)).
Proof.
  apply (single_journey_per_customer df_gap monthly_gap
           (Claude_retention_analysis.monthly_entry 1 (mkTs 2023 1 1)
              (tx 1 12 (mkTs 2024 1 3) (mkTs 2024 2 2) "monthly")
              (mkTs 2024 1 1))).
  - exact valid_df_gap.
  - reflexivity.
  - right. right. left. reflexivity.
Defined.

(** *** Instances of the further properties *)

Lemma cohort_table_small :
  Claude_retention_analysis.calculate_cohort_retention monthly_small
  = Ok points_small.
Proof. reflexivity. Qed.

Lemma cohort_table_large :
  Claude_retention_analysis.calculate_cohort_retention monthly_large
  = Ok points_large.
Proof. vm_compute. reflexivity. Qed.

Lemma monthly_table_overlap :
  Claude_retention_analysis.create_monthly_retention_table df_overlap
  = Ok monthly_overlap.
Proof. reflexivity. Qed.

Lemma cleaned_overlap :
  Claude_retention_analysis.load_and_clean_data raw_overlap = Ok df_overlap.
Proof. reflexivity. Qed.

Lemma one_point_per_cohort_month_witness :
  NoDup (map (fun p => (Claude_retention_analysis.cohorte p,
                        Claude_retention_analysis.r_mois_relatif p))
           points_small).
Proof.
  exact (proj1 (one_point_per_cohort_month monthly_small points_small
                  cohort_table_small)).
Defined.

Lemma cohort_table_order_witness : StronglySorted point_before points_small.
Proof.
  exact (cohort_table_order monthly_small points_small cohort_table_small).
Defined.

Lemma monthly_table_raises_iff_witness :
  Claude_retention_analysis.create_monthly_retention_table df_overlap
  = Err KeyError
  <-> forall t, In t df_overlap ->
        months_from (Claude_retention_analysis.order_date t)
          (Claude_retention_analysis.echeance_date t) < 0.
Proof.
  exact (proj1 (monthly_table_raises_iff df_overlap valid_df_overlap)).
Defined.

Lemma monthly_table_months_witness :
  (exists r, In r monthly_overlap
             /\ Claude_retention_analysis.m_customer_id r = 1
             /\ Claude_retention_analysis.mois r = (4, 2023))
  <-> (exists t, In t df_overlap
                 /\ Claude_retention_analysis.customer_id t = 1
                 /\ 0 <= months_from
                           (Claude_retention_analysis.order_date t)
                           (mkTs 2023 4 1)
                      <= months_from
                           (Claude_retention_analysis.order_date t)
                           (Claude_retention_analysis.echeance_date t)).
Proof.
  apply (monthly_table_months df_overlap monthly_overlap 1 2023 4
           valid_df_overlap monthly_table_overlap).
  split; discriminate.
Defined.

Lemma overlap_keeps_earliest_start_witness :
  exists t ts js,
    In t df_overlap
    /\ In ts (months_of t)
    /\ row_overlap_feb
       = Claude_retention_analysis.monthly_entry
           (Claude_retention_analysis.customer_id t) (month_start js) t ts
    /\ forall t', In t' df_overlap ->
         Claude_retention_analysis.customer_id t'
         = Claude_retention_analysis.customer_id t ->
         In ts (months_of t') ->
         ts_leb (Claude_retention_analysis.order_date t)
           (Claude_retention_analysis.order_date t') = true.
Proof.
  apply (overlap_keeps_earliest_start raw_overlap df_overlap monthly_overlap
           row_overlap_feb cleaned_overlap valid_df_overlap
           monthly_table_overlap).
  right. left. reflexivity.
Defined.

Lemma cohort_table_returns_iff_witness :
  (exists retention_df,
      (monthly_df <- Claude_retention_analysis.create_monthly_retention_table
                       df_overlap ;;
       Claude_retention_analysis.calculate_cohort_retention monthly_df)
      = Ok retention_df)
  <-> exists t, In t df_overlap /\ opens_journey df_overlap t.
Proof.
  exact (proj1 (cohort_table_returns_iff df_overlap valid_df_overlap)).
Defined.

Lemma cohort_summary_rows_witness :
  exists summary,
    Claude_retention_analysis.create_cohort_summary points_small = Ok summary
    /\ NoDup (map Claude_retention_analysis.cs_cohorte summary).
Proof.
  destruct (cohort_summary_rows monthly_small points_small
              cohort_table_small) as [summary [H1 [H2 _]]].
  exists summary. split; [exact H1 | exact H2].
Defined.

Lemma trends_of_cohort_table_witness :
  StronglySorted Z.lt
    (map Claude_retention_analysis.t_mois_relatif
       (snd (Claude_retention_analysis.analyze_retention_trends
               points_large)))
  /\ forall row,
       In row (snd (Claude_retention_analysis.analyze_retention_trends
                      points_large)) ->
       50 <= Claude_retention_analysis.t_clients_initiaux row.
Proof.
  pose proof (trends_of_cohort_table monthly_large points_large
                cohort_table_large) as H.
  cbv zeta in H. destruct H as [_ [H2 [_ H4]]].
  split; [exact H2 | intros row Hr; exact (proj1 (H4 row Hr))].
Defined.

Lemma segment_table_large :
  In ("frequence"%string, frequence_large)
    (Claude_retention_analysis.calculate_segmented_retention monthly_large).
Proof. vm_compute. left. reflexivity. Qed.

Lemma segment_tables_threshold_witness :
  In ("frequence"%string, frequence_large)
    (Claude_retention_analysis.calculate_segmented_retention monthly_large)
  /\ forall p, In p frequence_large ->
       Claude_retention_analysis.segment_type p = "frequence"%string
       /\ 10 <= Claude_retention_analysis.s_clients_initiaux p.
Proof.
  destruct (segment_tables_threshold monthly_large "frequence"
              frequence_large segment_table_large) as [_ H].
  split; [exact segment_table_large|]. intros p Hp.
  destruct (H p Hp) as [H1 [H2 _]]. split; [exact H1 | exact H2].
Defined.

Lemma segment_summary_large :
  In ("frequence"%string, summaries_large)
    (Claude_retention_analysis.create_segment_summary segments_large).
Proof. vm_compute. left. reflexivity. Qed.

Lemma segment_summary_entries_witness :
  exists segment_df,
    In ("frequence"%string, segment_df) segments_large
    /\ forall s, In s summaries_large ->
         exists value,
           In value
             (map Claude_retention_analysis.segment_value segment_df)
           /\ 50 <= Claude_retention_analysis.total_clients s.
Proof.
  destruct (segment_summary_entries segments_large "frequence"
              summaries_large segment_summary_large)
    as [segment_df [H1 [_ [H3 _]]]].
  exists segment_df. split; [exact H1|]. intros s Hs.
  destruct (H3 s Hs) as [value [Hv [_ [_ [H50 _]]]]].
  exists value. split; [exact Hv | exact H50].
Defined.

Lemma valid_mid_month :
  valid_ts (mkTs 2023 1 15) /\ valid_ts (mkTs 2023 3 10).
Proof. repeat split; vm_compute; discriminate. Qed.

Lemma pipeline_JA_start_month_kept_iff_witness :
  (exists r, In r (pipeline_JA.expand_row abo_mid_month 1)
             /\ pipeline_JA.month_relatif r = 0)
  <-> day (mkTs 2023 1 15) = 1
      \/ months_from (mkTs 2023 1 15) (mkTs 2023 3 10) <= 0.
Proof.
  pose proof (pipeline_JA_start_month_kept_iff abo_mid_month 1
                (mkTs 2023 1 15) (mkTs 2023 3 10) eq_refl eq_refl
                (proj1 valid_mid_month) (proj2 valid_mid_month)) as H.
  cbv zeta in H. exact (proj1 (proj2 (proj2 H))).
Defined.

Lemma parcours_numero_counts_witness :
  exists n,
    nth_error
      (pipeline_JA.parcours_numero
         (sort_values Gemini.sort_key_leb (df_gap40 "monthly"))) 1
    = Some n
    /\ 1 <= n.
Proof.
  pose proof (parcours_numero_counts (df_gap40 "monthly") 1
                (gap40_second "monthly")) as H.
  cbv zeta in H. destruct (H eq_refl) as [n [H1 [_ [H3 _]]]].
  exists n. split; [exact H1 | exact H3].
Defined.

Lemma well_dated_inside : well_dated df_inside.
Proof.
  intros a Ha. vm_compute in Ha.
  destruct Ha as [<- | [<- | [<- | []]]];
    eexists; eexists; (split; [reflexivity|]); (split; [reflexivity|]);
    repeat split; vm_compute; discriminate.
Qed.

Lemma holds_text_inside : holds_text df_inside.
Proof.
  eexists. eexists. split; [left; reflexivity | reflexivity].
Qed.

Lemma lancer_report_rows_witness :
  exists report,
    lancer_analyse.create_monthly_report df_inside = Ok report
    /\ forall r, In r report -> 0 <= lancer_analyse.month_relatif r.
Proof.
  destruct (lancer_report_rows df_inside well_dated_inside holds_text_inside)
    as [report [H1 [_ [_ [_ H3]]]]].
  exists report. split; [exact H1|]. intros r Hr.
  exact (proj2 (proj2 (proj2 (H3 r Hr)))).
Defined.

Lemma lancer_report_raises_iff_witness :
  (lancer_analyse.create_monthly_report df_inside = Err NaTError
   <-> exists a, In a df_inside
                 /\ (Gemini.order_date a = None
                     \/ Gemini.ECHEANCE_date a = None))
  /\ exists report, lancer_analyse.monthly_report_of df_inside = Ok report.
Proof.
  destruct (lancer_report_raises_iff df_inside holds_text_inside)
    as [H1 [_ H3]].
  split; [exact H1 | exact H3].
Defined.

Lemma segment_small :
  In "monthly"%string
    (rapport_final.segments_of report_small rapport_final.r_frequence).
Proof. vm_compute. left. reflexivity. Qed.

Lemma segment_rate_bounds_witness :
  exists rate,
    rapport_final.segment_rate report_small rapport_final.r_frequence
      "monthly" = Some rate
    /\ exists q, In (0, q) rate /\ (q == 1)%Q.
Proof.
  destruct (segment_rate_bounds report_small rapport_final.r_frequence
              "monthly" segment_small) as [rate [H1 [H2 _]]].
  exists rate. split; [exact H1 | exact H2].
Defined.

Lemma chart_data_of_cohort_table_witness :
  exists q,
    In (0, Some q)
      (dashboard_retention.prepare_retention_chart_data points_small None)
    /\ (q == 100)%Q.
Proof.
  exact (proj2 (proj2 (chart_data_of_cohort_table monthly_small points_small
                         cohort_table_small))).
Defined.

Lemma cohort_table_no_empty_row_witness :
  1 <= Claude_retention_analysis.clients_initiaux point_small_1
  /\ 1 <= Claude_retention_analysis.clients_actifs point_small_1.
Proof.
  destruct (cohort_table_no_empty_row monthly_small points_small
              point_small_1 cohort_table_small)
    as [H1 [H2 _]].
  - right. left. reflexivity.
  - split; [exact H1 | exact H2].
Defined.

(** The cohorts of a table come in the order of their text: 01/2023
    before 12/2022. *)
Example cohorts_in_text_order :
  map (fun p => (Claude_retention_analysis.cohorte p,
                 Claude_retention_analysis.r_mois_relatif p))
    (rows_of (Claude_retention_analysis.calculate_cohort_retention
                monthly_two_cohorts))
  = [((1, 2023), 0); ((1, 2023), 1); ((12, 2022), 0); ((12, 2022), 1)].
Proof. vm_compute. reflexivity. Qed.

Lemma report_of_inside :
  lancer_analyse.create_monthly_report df_inside = Ok report_inside.
Proof. vm_compute. reflexivity. Qed.

Lemma lancer_report_length_witness :
  Z.of_nat (List.length report_inside)
  = series_sum (map months_covered df_inside).
Proof.
  exact (lancer_report_length df_inside report_inside report_of_inside).
Defined.

(** The three subscriptions of that frame cover 24 calendar months, two
    of them twice: the report has 26 rows. *)
Example report_keeps_overlaps :
  List.length report_inside = 26%nat
  /\ List.length (unique (fun a b => ts_leb a b && ts_leb b a)
                    (map lancer_analyse.month_ report_inside)) = 24%nat.
Proof. split; vm_compute; reflexivity. Qed.


(** A customer with a short journey and a long one is counted among the
    early churners and among the retained. *)
Example churn_counts_overlap :
  lancer_analyse.churn_counts report_two_journeys = (1, 1)
  /\ nunique Z.eqb
       (map (fun r => Gemini.customer_id
                        (lancer_analyse.row (lancer_analyse.parcours r)))
          report_two_journeys) = 1.
Proof. split; vm_compute; reflexivity. Qed.
End Samples.
